(** * flog: the generation loop, its writers and the split file names

    A shallow embedding of [generator/flog.go] (functions [Generate],
    [NewWriter], [NewLog], [NewSplitFileName]) and of the [Option] record
    and the checks of the options file, with the properties of the split
    controller stated over it.

    Layout: the model first (machine integers, strings and paths, the
    operating-system state the writers act on, the writers, the generation
    loop, a concrete machine to run it on), then the vocabulary of the
    properties, then the lemmas, the theorems on the claims of the
    specification (C1 to C10) and their instances on the concrete
    machine, then further properties of the code (the entries X) and
    their instances.  The theorem of C2 comes with the further properties,
    after the lemmas on runs to a plain file it rests on. *)

From Stdlib Require Import ZArith String Ascii List Lia DecimalString.
From Stdlib Require DecimalZ DecimalPos.
From stdpp Require Import gmap strings.

Local Open Scope Z_scope.
Local Open Scope string_scope.

(** ** Machine integers

    Go's [int] is a 64-bit two's-complement integer on the platforms the
    Makefile builds for (linux and darwin, amd64).  Values are kept in [Z]
    and every arithmetic result is wrapped back into the [int] range. *)

Module Int.

Definition min_int : Z := - 2 ^ 63.
Definition max_int : Z := 2 ^ 63 - 1.

Definition in_range (z : Z) : Prop := min_int <= z <= max_int.

Definition wrap (z : Z) : Z := (z + 2 ^ 63) mod 2 ^ 64 - 2 ^ 63.

Definition add (a b : Z) : Z := wrap (a + b).
Definition mul (a b : Z) : Z := wrap (a * b).

End Int.

(** ** Strings and paths

    A Go [string] is a sequence of bytes; [string] of the Standard Library
    is a sequence of 8-bit characters, so [String.length] is Go's [len]. *)

Definition newline : string := String "010" EmptyString.

Definition dot : ascii := "."%char.
Definition slash : ascii := "/"%char.

(** [s[i:]] of Go, for [i <= len(s)]. *)
Definition slice_from (i : nat) (s : string) : string :=
  substring i (String.length s - i) s.

(** [s[:i]] of Go, for [i <= len(s)]. *)
Definition slice_to (i : nat) (s : string) : string := substring 0 i s.

(** [os.IsPathSeparator] on linux and darwin. *)
Definition IsPathSeparator (c : ascii) : bool := Ascii.eqb c slash.

(** The loop of [filepath.Ext]:
    [for i := len(path) - 1; i >= 0 && !os.IsPathSeparator(path[i]); i--],
    returning [path[i:]] at the first dot met and the empty string when the
    loop ends.  [k] is [i + 1], the number of bytes not yet looked at. *)
Fixpoint Ext_from (path : string) (k : nat) : string :=
  match k with
  | O => ""
  | S i =>
      match String.get i path with
      | None => ""
      | Some c =>
          if IsPathSeparator c then ""
          else if Ascii.eqb c dot then slice_from i path
          else Ext_from path i
      end
  end.

Definition Ext (path : string) : string := Ext_from path (String.length path).

(** [strings.HasSuffix] and [strings.TrimSuffix]. *)
Definition HasSuffix (s suffix : string) : bool :=
  Nat.leb (String.length suffix) (String.length s)
  && String.eqb (slice_from (String.length s - String.length suffix) s) suffix.

Definition TrimSuffix (s suffix : string) : string :=
  if HasSuffix s suffix
  then slice_to (String.length s - String.length suffix) s
  else s.

(** [strconv.Itoa]: the decimal digits, with a leading minus sign for a
    negative number. *)
Definition Itoa (n : Z) : string := NilZero.string_of_int (Z.to_int n).

(** [NewSplitFileName] creates a new file path with split count. *)
Definition NewSplitFileName (path : string) (count : Z) : string :=
  let logFileNameExt := Ext path in
  let pathWithoutExt := TrimSuffix path logFileNameExt in
  pathWithoutExt ++ Itoa count ++ logFileNameExt.

(** The name derivation as the specification words it: the extension is
    the substring from the last dot of the whole path to its end, empty
    when the path has no dot. *)
Fixpoint spec_ext (s : string) : string :=
  match s with
  | "" => ""
  | String c r =>
      match spec_ext r with
      | "" => if Ascii.eqb c dot then s else ""
      | e => e
      end
  end.

Definition spec_deriveName (path : string) (n : Z) : string :=
  let ext := spec_ext path in
  TrimSuffix path ext ++ Itoa n ++ ext.

(** Whether a byte occurs in a string, and the final element of a path:
    what follows its last separator. *)
Fixpoint occurs (c : ascii) (s : string) : bool :=
  match s with
  | "" => false
  | String d r => Ascii.eqb d c || occurs c r
  end.

Fixpoint final_element (s : string) : string :=
  match s with
  | "" => ""
  | String c r =>
      if occurs slash r then final_element r
      else if IsPathSeparator c then r else s
  end.

(** ** The operating system the writers act on

    [Generate] touches the world through [os.OpenFile], [os.Create], the
    [Write] and [Close] methods of [*os.File] and [*gzip.Writer],
    [os.Stdout] and [fmt.Println].  Their effect is kept in an explicit
    state: the regular files with their contents, the paths the process is
    denied, the free space of the disk, the table of open descriptors, the
    standard output, the compressors, and the random source of the line
    generators.  A trace of the calls made is kept next to it. *)

Inductive errno : Type :=
| ENOENT      (* no such file or directory *)
| EACCES      (* permission denied *)
| ENOSPC      (* no space left on device *)
| EBADF       (* bad file descriptor *)
| ErrClosed.  (* os.ErrClosed: file already closed *)

(** Go's [error]: [None] is [nil]. *)
Definition error : Type := option errno.

(** An open descriptor: the path it was opened on, whether it was opened
    with [O_APPEND], and the offset of the next write otherwise. *)
Record descriptor : Type := {
  fd_path : string;
  fd_append : bool;
  fd_offset : nat
}.

(** A [gzip.Writer], kept under the descriptor of the file it was layered
    on: the bytes handed to it and not yet emitted, and whether it was
    closed.  A compressor may hand blocks to the file as its buffer fills;
    the model keeps them all until [Close], when the last of them and the
    footer are written. *)
Record compressor : Type := {
  gz_pending : string;
  gz_closed : bool
}.

(** [io.WriteCloser] values [NewWriter] can return. *)
Inductive Writer : Type :=
| NilWriter                 (* the nil interface value *)
| StdoutWriter              (* os.Stdout *)
| FileWriter (fd : nat)     (* a *os.File *)
| GzipWriter (fd : nat).    (* a *gzip.Writer layered on the file fd *)

Inductive event : Type :=
| Produced (log : string)                                  (* NewLog returned log *)
| Opened (logType name : string) (w : Writer) (err : error) (* NewWriter returned (w, err) *)
| Wrote (w : Writer) (data : string) (err : error)         (* w.Write(data) returned err *)
| Closed (w : Writer) (err : error)                        (* w.Close() returned err *)
| Printed (line : string).                                 (* fmt.Println wrote line *)

Record OS : Type := {
  files : gmap string string;
  denied : gset string;
  free_space : nat;
  fds : gmap nat descriptor;
  next_fd : nat;
  stdout_open : bool;
  console : string;
  gzips : gmap nat compressor;
  draws : nat;
  trace : list event     (* most recent call first *)
}.

Definition set_files (f : gmap string string) (free : nat) (s : OS) : OS :=
  {| files := f; denied := denied s; free_space := free; fds := fds s;
     next_fd := next_fd s; stdout_open := stdout_open s; console := console s;
     gzips := gzips s; draws := draws s; trace := trace s |}.

Definition set_fds (d : gmap nat descriptor) (n : nat) (s : OS) : OS :=
  {| files := files s; denied := denied s; free_space := free_space s; fds := d;
     next_fd := n; stdout_open := stdout_open s; console := console s;
     gzips := gzips s; draws := draws s; trace := trace s |}.

Definition set_stdout (o : bool) (c : string) (s : OS) : OS :=
  {| files := files s; denied := denied s; free_space := free_space s; fds := fds s;
     next_fd := next_fd s; stdout_open := o; console := c;
     gzips := gzips s; draws := draws s; trace := trace s |}.

Definition set_gzips (g : gmap nat compressor) (s : OS) : OS :=
  {| files := files s; denied := denied s; free_space := free_space s; fds := fds s;
     next_fd := next_fd s; stdout_open := stdout_open s; console := console s;
     gzips := g; draws := draws s; trace := trace s |}.

Definition set_draws (n : nat) (s : OS) : OS :=
  {| files := files s; denied := denied s; free_space := free_space s; fds := fds s;
     next_fd := next_fd s; stdout_open := stdout_open s; console := console s;
     gzips := gzips s; draws := n; trace := trace s |}.

Definition log_event (e : event) (s : OS) : OS :=
  {| files := files s; denied := denied s; free_space := free_space s; fds := fds s;
     next_fd := next_fd s; stdout_open := stdout_open s; console := console s;
     gzips := gzips s; draws := draws s; trace := e :: trace s |}.

(** ** Computations

    A call either returns, or panics (a method called on the nil
    interface value), or is cut off when the fuel given to an unbounded
    loop is used up.  The state at that point is kept in each case. *)

Inductive outcome (A : Type) : Type :=
| Returned (a : A)
| Panicked
| OutOfFuel.
Arguments Returned {A} a.
Arguments Panicked {A}.
Arguments OutOfFuel {A}.

Definition M (A : Type) : Type := OS -> outcome A * OS.

Definition ret {A : Type} (a : A) : M A := fun s => (Returned a, s).

Definition bind {A B : Type} (m : M A) (k : A -> M B) : M B :=
  fun s =>
    match m s with
    | (Returned a, s') => k a s'
    | (Panicked, s') => (Panicked, s')
    | (OutOfFuel, s') => (OutOfFuel, s')
    end.

Definition panic {A : Type} : M A := fun s => (Panicked, s).
Definition out_of_fuel {A : Type} : M A := fun s => (OutOfFuel, s).
Definition get_os : M OS := fun s => (Returned s, s).
Definition modify (f : OS -> OS) : M unit := fun s => (Returned tt, f s).
Definition emit (e : event) : M unit := modify (log_event e).

Declare Scope go_scope.
Delimit Scope go_scope with go.
Notation "x <- m ;; k" := (bind m (fun x => k))
  (at level 100, m at next level, right associativity) : go_scope.
Notation "m ;;; k" := (bind m (fun _ => k))
  (at level 100, right associativity) : go_scope.
Local Open Scope go_scope.

(** ** What the repository supplies from outside [flog.go]

    The four line generators are part of the repository but use the
    random source and the clock; a generator is given here the number of
    lines drawn before the call and the time offset.  The pacing interval
    is a [float64]; [pacing_millis x] stands for the conversion
    [time.Duration(x * float64(time.Second/time.Millisecond))], whose
    floating-point product and truncation stay outside the model.
    [gzip_encode] is the gzip stream (header, deflate blocks, footer) of a
    byte sequence. *)

Class Collaborators : Type := {
  NewApacheCommonLog : nat -> Z -> string;
  NewApacheCombinedLog : nat -> Z -> string;
  NewApacheErrorLog : nat -> Z -> string;
  NewRFC3164Log : nat -> Z -> string;
  float64 : Type;
  pacing_millis : float64 -> Z;
  gzip_encode : string -> string
}.

(** [time.Millisecond], in nanoseconds. *)
Definition Millisecond : Z := 1000000.

(** Flags of [os.OpenFile] (the values of linux). *)
Definition O_RDWR : Z := 2.
Definition O_CREATE : Z := 64.
Definition O_TRUNC : Z := 512.
Definition O_APPEND : Z := 1024.

Definition has_flag (flag bit : Z) : bool := negb (Z.eqb (Z.land flag bit) 0).

Definition validFormats : list string :=
  ["apache_common"; "apache_combined"; "apache_error"; "rfc3164"].
Definition validTypes : list string := ["stdout"; "log"; "gz"].

Section Generator.

Context {ext : Collaborators}.

(** [Option] defines log generator options. *)
Record Option : Type := {
  Format : string;
  Output : string;
  Type_ : string;
  Number : Z;
  Bytes : Z;
  Sleep : float64;
  SplitBy : Z;
  Overwrite : bool
}.

(** What [ParseOptions] lets through: a format of [validFormats], a type
    of [validTypes], and a number of lines, a number of bytes and a split
    threshold that are not negative ([ParseFormat], [ParseType],
    [ParseNumber], [ParseBytes], [ParseSplitBy]).  [ContainsString] is list
    membership; the check of [ParseSleep], on a [float64], is left out. *)
Definition ContainsString (l : list string) (s : string) : bool :=
  existsb (String.eqb s) l.

Definition parses (o : Option) : bool :=
  ContainsString validFormats (Format o)
  && ContainsString validTypes (Type_ o)
  && Z.leb 0 (Number o) && Z.leb 0 (Bytes o) && Z.leb 0 (SplitBy o).

(** *** Files *)

(** [os.OpenFile]: a denied path fails with [EACCES]; an absent file is
    created when [O_CREATE] is given and fails with [ENOENT] otherwise; an
    existing file is emptied when [O_TRUNC] is given.  The new descriptor
    starts at offset 0. *)
Definition OpenFile (name : string) (flag perm : Z) : M (nat + errno) :=
  fun s =>
    if decide (name ∈ denied s) then (Returned (inr EACCES), s)
    else
      let install (f : gmap string string) :=
        let d := {| fd_path := name; fd_append := has_flag flag O_APPEND;
                    fd_offset := 0 |} in
        (Returned (inl (next_fd s)),
         set_fds (<[next_fd s := d]> (fds s)) (S (next_fd s))
                 (set_files f (free_space s) s)) in
      match files s !! name with
      | Some content =>
          install (if has_flag flag O_TRUNC then <[name := ""]> (files s) else files s)
      | None =>
          if has_flag flag O_CREATE then install (<[name := ""]> (files s))
          else (Returned (inr ENOENT), s)
      end.

(** [os.Create(name)] is [OpenFile(name, O_RDWR|O_CREATE|O_TRUNC, 0666)]. *)
Definition Create (name : string) : M (nat + errno) :=
  OpenFile name (Z.lor O_RDWR (Z.lor O_CREATE O_TRUNC)) 438.

(** The content of a file after [data] is written through [d]: at the end
    in append mode, over the bytes at the offset otherwise. *)
Definition write_at (d : descriptor) (content data : string) : string :=
  if fd_append d then content ++ data
  else slice_to (fd_offset d) content ++ data
       ++ slice_from (fd_offset d + String.length data) content.

(** [Write] of [*os.File]: fails on a closed descriptor; writes what the disk
    still takes and fails with [ENOSPC] when that is not everything. *)
Definition File_Write (fd : nat) (data : string) : M (Z * error) :=
  fun s =>
    match fds s !! fd with
    | None => (Returned (0, Some ErrClosed), s)
    | Some d =>
        let n := Nat.min (String.length data) (free_space s) in
        let content := default "" (files s !! fd_path d) in
        let d' := {| fd_path := fd_path d; fd_append := fd_append d;
                     fd_offset := fd_offset d + n |} in
        (Returned (Z.of_nat n,
                   if Nat.ltb n (String.length data) then Some ENOSPC else None),
         set_fds (<[fd := d']> (fds s)) (next_fd s)
           (set_files (<[fd_path d := write_at d content (slice_to n data)]> (files s))
                      (free_space s - n) s))
    end.

(** [Close] of [*os.File]. *)
Definition File_Close (fd : nat) : M error :=
  fun s =>
    match fds s !! fd with
    | None => (Returned (Some ErrClosed), s)
    | Some _ => (Returned None, set_fds (delete fd (fds s)) (next_fd s) s)
    end.

(** *** Standard output *)

Definition Stdout_Write (data : string) : M (Z * error) :=
  fun s =>
    if stdout_open s
    then (Returned (Z.of_nat (String.length data), None),
          set_stdout true (console s ++ data) s)
    else (Returned (0, Some EBADF), s).

(** [os.Stdout.Close()] closes the standard output of the process. *)
Definition Stdout_Close : M error :=
  fun s =>
    if stdout_open s then (Returned None, set_stdout false (console s) s)
    else (Returned (Some EBADF), s).

(** [fmt.Println(a, b)]: the operands separated by a space, a newline
    added, written to [os.Stdout]; the result of the write is dropped. *)
Definition Println (a b : string) : M unit :=
  let line := a ++ " " ++ b ++ newline in
  _ <- Stdout_Write line ;;
  emit (Printed line).

(** *** Compressed files *)

(** [gzip.NewWriter(f)]: a fresh compressor over the file; nothing is
    written yet. *)
Definition Gzip_NewWriter (fd : nat) : M Writer :=
  modify (fun s => set_gzips (<[fd := {| gz_pending := ""; gz_closed := false |}]> (gzips s)) s) ;;;
  ret (GzipWriter fd).

(** [Write] of [*gzip.Writer]: compresses and buffers. *)
Definition Gzip_Write (fd : nat) (data : string) : M (Z * error) :=
  fun s =>
    match gzips s !! fd with
    | Some z =>
        if gz_closed z then (Returned (0, Some ErrClosed), s)
        else (Returned (Z.of_nat (String.length data), None),
              set_gzips (<[fd := {| gz_pending := gz_pending z ++ data;
                                    gz_closed := false |}]> (gzips s)) s)
    | None => (Returned (0, Some ErrClosed), s)
    end.

(** [Close] of [*gzip.Writer]: flushes what is pending and writes the gzip
    footer to the file below.  It does not close that file. *)
Definition Gzip_Close (fd : nat) : M error :=
  s <- get_os ;;
  match gzips s !! fd with
  | Some z =>
      if gz_closed z then ret None
      else
        r <- File_Write fd (gzip_encode (gz_pending z)) ;;
        modify (fun s => set_gzips (<[fd := {| gz_pending := ""; gz_closed := true |}]> (gzips s)) s) ;;;
        ret (snd r)
  | None => ret None
  end.

(** *** The methods of [io.WriteCloser] *)

Definition Write (w : Writer) (data : string) : M (Z * error) :=
  r <- match w with
       | NilWriter => panic
       | StdoutWriter => Stdout_Write data
       | FileWriter fd => File_Write fd data
       | GzipWriter fd => Gzip_Write fd data
       end ;;
  emit (Wrote w data (snd r)) ;;;
  ret r.

Definition Close (w : Writer) : M error :=
  r <- match w with
       | NilWriter => panic
       | StdoutWriter => Stdout_Close
       | FileWriter fd => File_Close fd
       | GzipWriter fd => Gzip_Close fd
       end ;;
  emit (Closed w r) ;;;
  ret r.

(** [NewWriter] returns a closeable writer corresponding to given log type. *)
Definition NewWriter (logType logFileName : string) : M (Writer * error) :=
  r <- (if String.eqb logType "stdout" then ret (StdoutWriter, None)
        else if String.eqb logType "log" then
          logFile <- OpenFile logFileName (Z.lor O_RDWR O_APPEND) 438 ;;
          match logFile with
          | inr err => ret (NilWriter, Some err)
          | inl fd => ret (FileWriter fd, None)
          end
        else if String.eqb logType "gz" then
          logFile <- Create logFileName ;;
          match logFile with
          | inr err => ret (NilWriter, Some err)
          | inl fd => w <- Gzip_NewWriter fd ;; ret (w, None)
          end
        else ret (NilWriter, None)) ;;
  emit (Opened logType logFileName (fst r) (snd r)) ;;;
  ret r.

(** [NewLog] creates a log for given format. *)
Definition draw (gen : nat -> Z -> string) (delta : Z) : M string :=
  s <- get_os ;;
  modify (set_draws (S (draws s))) ;;;
  ret (gen (draws s) delta).

Definition NewLog (format : string) (delta : Z) : M string :=
  log <- (if String.eqb format "apache_common" then draw NewApacheCommonLog delta
          else if String.eqb format "apache_combined" then draw NewApacheCombinedLog delta
          else if String.eqb format "apache_error" then draw NewApacheErrorLog delta
          else if String.eqb format "rfc3164" then draw NewRFC3164Log delta
          else ret "") ;;
  emit (Produced log) ;;;
  ret log.

(** *** The generation loop *)

(** The local variables of [Generate] that live across iterations. *)
Record locals : Type := {
  splitCount : Z;
  delta : Z;
  logFileName : string;
  writer : Writer
}.

(** The body of the two [if] statements that split the output: close the
    current writer, announce the file, open the next one (dropping the
    error of [NewWriter]) and count it. *)
Definition rollover (option : Option) (l : locals) : M locals :=
  _ <- Close (writer l) ;;
  Println (logFileName l) "is created." ;;;
  let name := NewSplitFileName (Output option) (splitCount l) in
  r <- NewWriter (Type_ option) name ;;
  ret {| splitCount := Int.add (splitCount l) 1; delta := delta l;
         logFileName := name; writer := fst r |}.

(** [delta += time.Duration(option.Sleep*float64(time.Second/time.Millisecond)) * time.Millisecond] *)
Definition pace (option : Option) (l : locals) : locals :=
  {| splitCount := splitCount l;
     delta := Int.add (delta l) (Int.mul (pacing_millis (Sleep option)) Millisecond);
     logFileName := logFileName l; writer := writer l |}.

(** The guards of the two [if] statements. *)
Definition splits (option : Option) : bool :=
  negb (String.eqb (Type_ option) "stdout") && Z.ltb 0 (SplitBy option).

Definition line_guard (option : Option) (line : Z) (l : locals) : bool :=
  splits option && Z.ltb (Int.mul (SplitBy option) (splitCount l)) line.

Definition byte_guard (option : Option) (bytes : Z) (l : locals) : bool :=
  splits option
  && Z.ltb (Int.add (Int.mul (SplitBy option) (splitCount l)) 1) bytes.

(** One iteration of [for line := 0; line < option.Number; line++]. *)
Definition line_step (option : Option) (line : Z) (l : locals) : M locals :=
  log <- NewLog (Format option) (delta l) ;;
  _ <- Write (writer l) (log ++ newline) ;;
  l' <- (if line_guard option line l then rollover option l else ret l) ;;
  ret (pace option l').

(** The loop itself: [n] iterations are left, [line] is the counter.  The
    counter stays below [option.Number], so [line++] does not wrap. *)
Fixpoint line_loop (option : Option) (n : nat) (line : Z) (l : locals) : M locals :=
  match n with
  | O => ret l
  | S n' => l' <- line_step option line l ;; line_loop option n' (line + 1) l'
  end.

(** One iteration of [for bytes < option.Bytes]. *)
Definition byte_step (option : Option) (bytes : Z) (l : locals) : M (Z * locals) :=
  log <- NewLog (Format option) (delta l) ;;
  _ <- Write (writer l) (log ++ newline) ;;
  let bytes' := Int.add bytes (Z.of_nat (String.length log)) in
  l' <- (if byte_guard option bytes' l then rollover option l else ret l) ;;
  ret (bytes', pace option l').

(** The loop can run for ever (a format that yields empty lines never
    advances [bytes]), so it is given fuel: one unit per iteration. *)
Fixpoint byte_loop (option : Option) (fuel : nat) (bytes : Z) (l : locals)
  : M (Z * locals) :=
  if Z.ltb bytes (Bytes option) then
    match fuel with
    | O => out_of_fuel
    | S fuel' =>
        r <- byte_step option bytes l ;;
        byte_loop option fuel' (fst r) (snd r)
    end
  else ret (bytes, l).

(** [Generate] generates the logs with given options. *)
Definition Generate (fuel : nat) (option : Option) : M error :=
  r <- NewWriter (Type_ option) (Output option) ;;
  match snd r with
  | Some err => ret (Some err)
  | None =>
      let l := {| splitCount := 1; delta := 0;
                  logFileName := Output option; writer := fst r |} in
      l' <- (if Z.eqb (Bytes option) 0
             then line_loop option (Z.to_nat (Number option)) 0 l
             else r <- byte_loop option fuel 0 l ;; ret (snd r)) ;;
      (if negb (String.eqb (Type_ option) "stdout")
       then _ <- Close (writer l') ;; Println (logFileName l') "is created."
       else ret tt) ;;;
      ret None
  end.

End Generator.

(** ** Reading a trace *)

Definition is_write (e : event) : bool :=
  match e with Wrote _ _ _ => true | _ => false end.
Definition is_close (e : event) : bool :=
  match e with Closed _ _ => true | _ => false end.
Definition is_notice (e : event) : bool :=
  match e with Printed _ => true | _ => false end.
Definition is_open (e : event) : bool :=
  match e with Opened _ _ _ _ => true | _ => false end.

Fixpoint count (p : event -> bool) (t : list event) : nat :=
  match t with
  | [] => O
  | e :: t' => ((if p e then 1 else 0) + count p t')%nat
  end.

(** The payloads of the writes and the lines produced, oldest first. *)
Fixpoint written (t : list event) : list string :=
  match t with
  | [] => []
  | Wrote _ data _ :: t' => written t' ++ [data]
  | _ :: t' => written t'
  end.

Fixpoint produced (t : list event) : list string :=
  match t with
  | [] => []
  | Produced log :: t' => produced t' ++ [log]
  | _ :: t' => produced t'
  end.

(** ** A concrete setting to run the model in *)

Module Demo.

Definition sample : string :=
  "<24>Apr 22 09:30:00 Moen8727 concept[3160]: If we back up the program!".

#[export] Instance collaborators : Collaborators := {|
  NewApacheCommonLog := fun _ _ => "0123456789";
  NewApacheCombinedLog := fun i _ => String (ascii_of_nat (97 + i)) "";
  NewApacheErrorLog := fun _ _ => "[crit] oops";
  NewRFC3164Log := fun _ _ => sample;
  float64 := Z;
  pacing_millis := fun x => x;
  gzip_encode := fun data => "GZ[" ++ data ++ "]"
|}.

(** A machine with an empty disk of [free] bytes and an open terminal. *)
Definition boot (free : nat) : OS :=
  {| files := ∅; denied := ∅; free_space := free; fds := ∅; next_fd := 3;
     stdout_open := true; console := ""; gzips := ∅; draws := 0; trace := [] |}.

Definition with_file (name content : string) (s : OS) : OS :=
  set_files (<[name := content]> (files s)) (free_space s) s.

(** The same machine with the path [name] out of reach of the process. *)
Definition deny (name : string) (s : OS) : OS :=
  {| files := files s; denied := {[ name ]} ∪ denied s; free_space := free_space s;
     fds := fds s; next_fd := next_fd s; stdout_open := stdout_open s;
     console := console s; gzips := gzips s; draws := draws s; trace := trace s |}.

Definition options (format type : string) (number bytes splitBy : Z) : Option :=
  {| Format := format; Output := "generated.log"; Type_ := type;
     Number := number; Bytes := bytes; Sleep := 0; SplitBy := splitBy;
     Overwrite := false |}.

End Demo.

(** ** Vocabulary of the properties

    Postconditions of computations, what is read off a trace, and the
    invariants of the two loops. *)

(** [post m s R] holds when running [m] from [s] ends in an outcome and a
    state related by [R]. *)
Definition post {A : Type} (m : M A) (s : OS) (R : outcome A -> OS -> Prop) : Prop :=
  R (fst (m s)) (snd (m s)).

(** How a postcondition on the result of a sequence reads on its first
    part: panics and exhausted fuel pass through. *)
Definition through {A B : Type} (k : A -> M B) (R : outcome B -> OS -> Prop)
  : outcome A -> OS -> Prop :=
  fun o s =>
    match o with
    | Returned a => post (k a) s R
    | Panicked => R Panicked s
    | OutOfFuel => R OutOfFuel s
    end.

(** The parts of the world a call can leave alone. *)
Definition same_files (s s' : OS) : Prop :=
  files s' = files s /\ fds s' = fds s /\ gzips s' = gzips s.

(** The standard output left alone. *)
Definition same_stdout (s s' : OS) : Prop :=
  stdout_open s' = stdout_open s /\ console s' = console s.

(** A [NewWriter] call that yielded the nil writer. *)
Definition open_failed (e : event) : bool :=
  match e with Opened _ _ NilWriter _ => true | _ => false end.

(** A line with its terminator, as [Generate] writes it. *)
Definition terminated (log : string) : string := log ++ newline.

(** The events a run on the standard output may leave: lines produced,
    writes to [os.Stdout], and the opening of [os.Stdout] itself. *)
Definition stdout_event (e : event) : bool :=
  match e with
  | Produced _ => true
  | Wrote StdoutWriter _ _ => true
  | Opened _ _ StdoutWriter None => true
  | _ => false
  end.

(** The bytes of a list of writes, in order. *)
Definition joined (l : list string) : string := fold_right String.append "" l.

(** The accumulator of the byte loop after the lines [ps]: the lengths of
    the lines, without terminators, added with Go's [+=]. *)
Definition accumulated (ps : list string) : Z :=
  fold_left (fun a p => Int.add a (Z.of_nat (String.length p))) ps 0.

(** Every line of [ps] was produced while the accumulator was below [B]. *)
Definition below (B : Z) (ps : list string) : Prop :=
  forall k, (k < length ps)%nat -> accumulated (firstn k ps) < B.

(** The segments of a trace: the number of writes before each close,
    oldest first, and the number of writes since the last close. *)
Fixpoint segments (t : list event) : list Z * Z :=
  match t with
  | [] => ([], 0)
  | e :: t' =>
      let r := segments t' in
      match e with
      | Wrote _ _ _ => (fst r, snd r + 1)
      | Closed _ _ => ((fst r ++ [snd r])%list, 0)
      | _ => r
      end
  end.

(** The sizes of the segments closed when the split count has reached
    [sc] in line-count mode, and their total. *)
Definition closed_sizes (T sc : Z) : list Z :=
  if Z.eqb sc 1 then [] else (T + 2) :: repeat T (Z.to_nat (sc - 2)).

Definition closed_total (T sc : Z) : Z :=
  if Z.eqb sc 1 then 0 else T * (sc - 1) + 2.

(** The number of files of a run of [L] lines split every [T], and the
    number of lines of each. *)
Definition split_files (T L : Z) : Z :=
  if Z.leb L 1 then 1 else 1 + (L - 2) / T.

Definition segment_sizes (T L : Z) : list Z :=
  (closed_sizes T (split_files T L)
   ++ [L - closed_total T (split_files T L)])%list.

Section Vocabulary.

Context {ext : Collaborators}.

(** The notice [fmt.Println(logFileName, "is created.")] prints. *)
Definition notice (name : string) : string :=
  name ++ " " ++ "is created." ++ newline.

(** The locals after a rollover that got the writer [w]. *)
Definition rolled (option : Option) (l : locals) (w : Writer) : locals :=
  {| splitCount := Int.add (splitCount l) 1; delta := delta l;
     logFileName := NewSplitFileName (Output option) (splitCount l);
     writer := w |}.

(** The events of an iteration that wrote [log], newest first: with a
    rollover that got the writer [w], or without one. *)
Definition rolling_events (option : Option) (l : locals) (log : string)
  (we ce : error) (w : Writer) (oe : error) : list event :=
  [ Opened (Type_ option) (NewSplitFileName (Output option) (splitCount l)) w oe;
    Printed (notice (logFileName l));
    Closed (writer l) ce;
    Wrote (writer l) (log ++ newline) we;
    Produced log ].

Definition plain_events (l : locals) (log : string) (we : error) : list event :=
  [ Wrote (writer l) (log ++ newline) we; Produced log ].

(** What an iteration does, given whether its guard holds. *)
Definition iteration (option : Option) (guard : bool) (l : locals) (log : string)
  (s : OS) (l' : locals) (s' : OS) : Prop :=
  writer l <> NilWriter /\
  if guard
  then exists we ce w oe,
         l' = pace option (rolled option l w)
         /\ trace s' = (rolling_events option l log we ce w oe ++ trace s)%list
  else exists we,
         l' = pace option l /\ trace s' = (plain_events l log we ++ trace s)%list.

(** An iteration panics exactly on a nil writer, after the line was
    produced and before anything was written. *)
Definition aborted (l : locals) (s s' : OS) : Prop :=
  writer l = NilWriter /\ exists log, trace s' = Produced log :: trace s.

(** The invariant of the line loop: every line produced was written with
    its terminator, [line] lines so far, and a nil writer comes from a
    failed open. *)
Definition lines_inv (option : Option) (line : Z) (l : locals) (s : OS) : Prop :=
  written (trace s) = map terminated (produced (trace s))
  /\ Z.of_nat (length (written (trace s))) = line
  /\ (writer l = NilWriter -> existsb open_failed (trace s) = true)
  /\ (Type_ option = "stdout" -> writer l = StdoutWriter).

Definition lines_cut (option : Option) (line : Z) (s : OS) : Prop :=
  written (trace s)
  = map terminated (firstn (length (written (trace s))) (produced (trace s)))
  /\ Z.of_nat (length (written (trace s))) = line
  /\ existsb open_failed (trace s) = true
  /\ Type_ option <> "stdout".

(** What a run in line-count mode leaves, whatever its outcome. *)
Definition line_run (option : Option) (o : outcome error) (s' : OS) : Prop :=
  let ws := written (trace s') in
  ws = map terminated (firstn (length ws) (produced (trace s')))
  /\ Z.of_nat (length ws) <= Number option
  /\ (o = Returned None -> Z.of_nat (length ws) = Number option)
  /\ (existsb open_failed (trace s') = false -> o = Returned None)
  /\ (Type_ option = "stdout" -> o = Returned None).

(** The invariant of a run on the standard output started in [s0]. *)
Definition stdout_inv (s0 : OS) (l : locals) (s : OS) : Prop :=
  writer l = StdoutWriter
  /\ same_files s0 s
  /\ stdout_open s = stdout_open s0
  /\ exists evs,
       trace s = (evs ++ trace s0)%list
       /\ forallb stdout_event evs = true
       /\ count is_open evs = 1%nat
       /\ console s = if stdout_open s0
                      then console s0 ++ joined (written evs)
                      else console s0.

(** What a run on the standard output leaves. *)
Definition stdout_run (option : Option) (s : OS) (o : outcome error) (s' : OS) : Prop :=
  (o = Returned None \/ (o = OutOfFuel /\ Bytes option <> 0))
  /\ same_files s s'
  /\ stdout_open s' = stdout_open s
  /\ exists evs,
       trace s' = (evs ++ trace s)%list
       /\ forallb stdout_event evs = true
       /\ count is_open evs = 1%nat
       /\ console s' = if stdout_open s
                       then console s ++ joined (written evs)
                       else console s.


(** The invariant of the byte loop. *)
Definition bytes_inv (option : Option) (bytes : Z) (l : locals) (s : OS) : Prop :=
  written (trace s) = map terminated (produced (trace s))
  /\ bytes = accumulated (produced (trace s))
  /\ below (Bytes option) (produced (trace s)).

Definition bytes_cut (option : Option) (s : OS) : Prop :=
  written (trace s)
  = map terminated (firstn (length (written (trace s))) (produced (trace s)))
  /\ below (Bytes option) (produced (trace s)).

(** What a run in byte-count mode leaves, whatever its outcome. *)
Definition byte_run (option : Option) (o : outcome error) (s' : OS) : Prop :=
  let ps := produced (trace s') in
  written (trace s') = map terminated (firstn (length (written (trace s'))) ps)
  /\ below (Bytes option) ps
  /\ (o = Returned None -> Bytes option <= accumulated ps).

(** The invariant of the line loop of a run that splits every [T] lines:
    the next rollover is due at line [T * splitCount + 1], the segments
    closed so far are the first [splitCount - 1] ones. *)
Definition split_inv (option : Option) (line : Z) (l : locals) (s : OS) : Prop :=
  let T := SplitBy option in
  let sc := splitCount l in
  1 <= sc
  /\ line <= T * sc + 1
  /\ (sc = 1 \/ T * (sc - 1) + 2 <= line)
  /\ segments (trace s) = (closed_sizes T sc, line - closed_total T sc)
  /\ Z.of_nat (count is_notice (trace s)) = sc - 1
  /\ Z.of_nat (count is_open (trace s)) = sc.

(** What a completed run that splits every [T] lines leaves. *)
Definition split_run (option : Option) (o : outcome error) (s' : OS) : Prop :=
  o = Returned None ->
  let T := SplitBy option in
  let L := Number option in
  fst (segments (trace s')) = segment_sizes T L
  /\ Z.of_nat (count is_notice (trace s')) = split_files T L
  /\ Z.of_nat (count is_open (trace s')) = split_files T L
  /\ Z.of_nat (count is_close (trace s')) = split_files T L.


(** A compressed writer over a machine that denies no path. *)
Definition gz_ready (l : locals) (s : OS) : Prop :=
  (exists fd, writer l = GzipWriter fd) /\ denied s = ∅.

End Vocabulary.

(** ** The claims as the specification states them, where the code differs *)

(** [ceil(a / b)] for a positive [b]. *)
Definition ceil_div (a b : Z) : Z := (a + b - 1) / b.

Section Claimed.

Context {ext : Collaborators}.

(** A run of [L] lines split every [T] leaves [ceil(L / T)] files, the
    first of at most [T + 1] lines. *)
Definition claimed_segments (option : Option) (s : OS) : Prop :=
  let t := trace (snd (Generate 0 option s)) in
  Z.of_nat (count is_notice t) = ceil_div (Number option) (SplitBy option)
  /\ hd 0 (fst (segments t)) <= SplitBy option + 1.

(** A run in line-count mode writes exactly [targetLines] lines. *)
Definition claimed_line_count (option : Option) (s : OS) : Prop :=
  Z.of_nat (length (written (trace (snd (Generate 0 option s))))) = Number option.

(** A write that fails inside the loop makes [Generate] return an error. *)
Definition claimed_write_error_fatal (option : Option) (s : OS) : Prop :=
  (exists w data e, In (Wrote w data (Some e)) (trace (snd (Generate 0 option s)))) ->
  exists e, fst (Generate 0 option s) = Returned (Some e).

(** Closing the handle of the standard-output kind leaves the standard
    output open. *)
Definition claimed_close_noop (name : string) (s : OS) : Prop :=
  match NewWriter "stdout" name s with
  | (Returned (w, _), s1) => stdout_open (snd (Close w s1)) = stdout_open s1
  | _ => True
  end.

End Claimed.

(** The derived name is built on the extension of the whole path. *)
Definition claimed_derived_name (path : string) (n : Z) : Prop :=
  NewSplitFileName path n = spec_deriveName path n.

(** ** The checks of the options

    [ParseFormat], [ParseType], [ParseNumber], [ParseBytes] and
    [ParseSplitBy] of the options file.  Their errors are made with
    [fmt.Errorf] and [errors.New] and carry a message only: an error is
    [None] for nil and [Some message] otherwise.  [ParseSleep] compares a
    [float64] and stays outside the model. *)

Definition ParseFormat (format : string) : string * option string :=
  if negb (ContainsString validFormats format)
  then ("", Some (format ++ " is not a valid format"))
  else (format, None).

Definition ParseType (logType : string) : string * option string :=
  if negb (ContainsString validTypes logType)
  then ("", Some (logType ++ " is not a valid log type"))
  else (logType, None).

Definition ParseNumber (lines : Z) : Z * option string :=
  if Z.ltb lines 0 then (0, Some "lines can not be negative") else (lines, None).

Definition ParseBytes (bytes : Z) : Z * option string :=
  if Z.ltb bytes 0 then (0, Some "bytes can not be negative") else (bytes, None).

Definition ParseSplitBy (splitBy : Z) : Z * option string :=
  if Z.ltb splitBy 0 then (0, Some "split-by can not be negative")
  else (splitBy, None).

(** The names [NewWriter] was called with and the lines [fmt.Println]
    printed, oldest first. *)
Fixpoint opened (t : list event) : list string :=
  match t with
  | [] => []
  | Opened _ name _ _ :: t' => opened t' ++ [name]
  | _ :: t' => opened t'
  end.

Fixpoint printed (t : list event) : list string :=
  match t with
  | [] => []
  | Printed line :: t' => printed t' ++ [line]
  | _ :: t' => printed t'
  end.

(** The base path followed by the first [k] names derived from it. *)
Definition split_names (base : string) (k : nat) : list string :=
  base :: map (fun i => NewSplitFileName base (Z.of_nat i)) (seq 1 k).

Section MoreVocabulary.

Context {ext : Collaborators}.

(** The generator [NewLog] calls for a format, if any. *)
Definition generator (format : string) : option (nat -> Z -> string) :=
  if String.eqb format "apache_common" then Some NewApacheCommonLog
  else if String.eqb format "apache_combined" then Some NewApacheCombinedLog
  else if String.eqb format "apache_error" then Some NewApacheErrorLog
  else if String.eqb format "rfc3164" then Some NewRFC3164Log
  else None.

Definition with_Overwrite (b : bool) (o : Option) : Option :=
  {| Format := Format o; Output := Output o; Type_ := Type_ o; Number := Number o;
     Bytes := Bytes o; Sleep := Sleep o; SplitBy := SplitBy o; Overwrite := b |}.

(** The value of [delta] after [i] iterations: [delta += ...] once each. *)
Fixpoint offset (option : Option) (i : nat) : Z :=
  match i with
  | O => 0
  | S i' => Int.add (offset option i')
              (Int.mul (pacing_millis (Sleep option)) Millisecond)
  end.

(** The line [NewLog] yields at iteration [i] of a run that starts at
    draw [first]. *)
Definition line_at (option : Option) (first i : nat) : string :=
  match generator (Format option) with
  | Some gen => gen (first + i)%nat (offset option i)
  | None => ""
  end.

(** A computation that leaves a reading [f] of the state as it is. *)
Definition keeps {X A : Type} (f : OS -> X) (m : M A) : Prop :=
  forall s, f (snd (m s)) = f s.

(** A computation that keeps a property of the state, and one whose
    results all satisfy a property. *)
Definition stable {A : Type} (P : OS -> Prop) (m : M A) : Prop :=
  forall s, P s -> P (snd (m s)).

Definition yields {A : Type} (P : A -> Prop) (m : M A) : Prop :=
  forall s a, fst (m s) = Returned a -> P a.

(** The standard output of a run to a file started in [s0] with an empty
    trace: open or closed as it was, with the lines [fmt.Println] printed
    after what it held. *)
Definition announced (s0 s : OS) : Prop :=
  stdout_open s = stdout_open s0
  /\ console s = if stdout_open s0
                 then console s0 ++ joined (printed (trace s))
                 else console s0.

(** The disk of a run of the [log] type that does not split, started in
    [s0] on a file holding [old]: the file holds [old] followed by what the
    disk took of the writes, which is all of them when they fit the free
    space; no other file has changed. *)
Definition appended (option : Option) (s0 : OS) (old : string) (s : OS) : Prop :=
  (exists W,
     files s !! Output option = Some (old ++ W)
     /\ free_space s = (free_space s0 - String.length W)%nat
     /\ ((String.length (joined (written (trace s))) <= free_space s0)%nat ->
         W = joined (written (trace s))))
  /\ (forall name, name <> Output option -> files s !! name = files s0 !! name).

(** The invariant of its loop: the writer is the descriptor [NewWriter]
    opened, in append mode on the base path. *)
Definition appending (option : Option) (s0 : OS) (old : string) (l : locals) (s : OS)
  : Prop :=
  writer l = FileWriter (next_fd s0)
  /\ (exists off,
        fds s !! next_fd s0
        = Some {| fd_path := Output option; fd_append := true; fd_offset := off |})
  /\ appended option s0 old s.

(** The invariant of the line loop of a run of the [log] type that splits
    every [T] lines when the first derived file is not on the disk: it
    appends up to line [T + 1], and has the nil writer after. *)
Definition doomed (option : Option) (s0 : OS) (old : string)
  (line : Z) (l : locals) (s : OS) : Prop :=
  (line <= SplitBy option + 1 /\ splitCount l = 1 /\ appending option s0 old l s)
  \/ (line = SplitBy option + 2 /\ writer l = NilWriter).

(** What such a run leaves. *)
Definition append_run (option : Option) (s0 : OS) (old : string)
  (o : outcome error) (s : OS) : Prop :=
  o <> Panicked
  /\ (Bytes option = 0 -> o = Returned None)
  /\ appended option s0 old s
  /\ (o = Returned None -> fds s !! next_fd s0 = None).

(** The invariant of the loop of a run of the [gz] type that does not
    split: the compressor holds every write, the file is empty, nothing
    has gone to the disk. *)
Definition buffering (option : Option) (s0 : OS) (l : locals) (s : OS) : Prop :=
  writer l = GzipWriter (next_fd s0)
  /\ gzips s !! next_fd s0
     = Some {| gz_pending := joined (written (trace s)); gz_closed := false |}
  /\ fds s !! next_fd s0
     = Some {| fd_path := Output option; fd_append := false; fd_offset := 0 |}
  /\ files s !! Output option = Some ""
  /\ free_space s = free_space s0
  /\ (forall name, name <> Output option -> files s !! name = files s0 !! name).

(** What such a run leaves: when it returns and the encoding fits the
    free space, the file holds the encoding of all that was written. *)
Definition compress_run (option : Option) (s0 : OS) (o : outcome error) (s : OS)
  : Prop :=
  o <> Panicked
  /\ (Bytes option = 0 -> o = Returned None)
  /\ (o = Returned None ->
      (String.length (gzip_encode (joined (written (trace s)))) <= free_space s0)%nat ->
      files s !! Output option = Some (gzip_encode (joined (written (trace s)))))
  /\ (forall name, name <> Output option -> files s !! name = files s0 !! name).

(** The lines produced and the draws made. *)
Definition lines_of (s : OS) : list string * nat := (produced (trace s), draws s).

(** The invariant of the lines: line [i] is the one of the generator at
    draw [first + i] and offset [offset i], and was written. *)
Definition content_inv (option : Option) (first : nat) (l : locals) (s : OS) : Prop :=
  let n := length (produced (trace s)) in
  produced (trace s) = map (line_at option first) (seq 0 n)
  /\ written (trace s) = map terminated (produced (trace s))
  /\ delta l = offset option n
  /\ draws s = match generator (Format option) with
               | Some _ => (first + n)%nat
               | None => first
               end.

Definition content_run (option : Option) (first : nat) (s' : OS) : Prop :=
  let t := trace s' in
  produced t = map (line_at option first) (seq 0 (length (produced t)))
  /\ written t = map (fun i => terminated (line_at option first i))
                     (seq 0 (length (written t))).

(** The locals [Generate] enters its loop with. *)
Definition start (option : Option) (w : Writer) : locals :=
  {| splitCount := 1; delta := 0; logFileName := Output option; writer := w |}.

(** The invariant of the names: every file but the current one has been
    announced, and as long as the split count has not wrapped the names
    opened are the base path and the names derived from 1 on. *)
Definition names_inv (option : Option) (l : locals) (s : OS) : Prop :=
  let names := opened (trace s) in
  map notice names = (printed (trace s) ++ [notice (logFileName l)])%list
  /\ (1 <= length names)%nat
  /\ (Z.of_nat (length names) <= Int.max_int ->
      splitCount l = Z.of_nat (length names)
      /\ names = split_names (Output option) (length names - 1)).

(** The invariant of a run that never splits: one file, every write in it. *)
Definition single_inv (option : Option) (l : locals) (s : OS) : Prop :=
  opened (trace s) = [Output option]
  /\ printed (trace s) = []
  /\ logFileName l = Output option
  /\ segments (trace s) = ([], Z.of_nat (length (written (trace s)))).

End MoreVocabulary.

(** * Properties *)

(** ** Strings *)

(** stdpp keeps [String.append] from being unfolded by [simpl]; its two
    equations are used as rewrite rules instead. *)
Lemma append_nil (b : string) : "" ++ b = b.
Proof. reflexivity. Qed.

Lemma append_cons (c : ascii) (a b : string) : String c a ++ b = String c (a ++ b).
Proof. reflexivity. Qed.

Ltac str_simpl := rewrite ?append_cons, ?append_nil; simpl.

Lemma append_empty_r (s : string) : s ++ "" = s.
Proof. induction s as [|c s IH]; str_simpl; [reflexivity | now rewrite IH]. Qed.

Lemma append_assoc (a b c : string) : (a ++ b) ++ c = a ++ (b ++ c).
Proof. induction a as [|x a IH]; str_simpl; [reflexivity | now rewrite IH]. Qed.

Lemma length_append (a b : string) :
  String.length (a ++ b) = (String.length a + String.length b)%nat.
Proof. induction a as [|x a IH]; str_simpl; [reflexivity | now rewrite IH]. Qed.

Lemma substring_all (s : string) : substring 0 (String.length s) s = s.
Proof. induction s as [|c s IH]; simpl; [reflexivity | now rewrite IH]. Qed.

Lemma substring_prefix (a b : string) :
  substring 0 (String.length a) (a ++ b) = a.
Proof.
  induction a as [|x a IH]; str_simpl.
  - now destruct b.
  - now rewrite IH.
Qed.

Lemma substring_suffix (a b : string) :
  substring (String.length a) (String.length b) (a ++ b) = b.
Proof. induction a as [|x a IH]; str_simpl; [apply substring_all | exact IH]. Qed.

Lemma slice_from_append (a b : string) : slice_from (String.length a) (a ++ b) = b.
Proof.
  unfold slice_from. rewrite length_append.
  replace (String.length a + String.length b - String.length a)%nat
    with (String.length b) by lia.
  apply substring_suffix.
Qed.

Lemma slice_to_append (a b : string) : slice_to (String.length a) (a ++ b) = a.
Proof. apply substring_prefix. Qed.

Lemma get_middle (a : string) (c : ascii) (b : string) :
  String.get (String.length a) (a ++ String c b) = Some c.
Proof. induction a as [|x a IH]; str_simpl; [reflexivity | exact IH]. Qed.

(** Strings can be taken apart from their last byte. *)
Lemma string_rev_ind (P : string -> Prop) :
  P "" -> (forall s c, P s -> P (s ++ String c "")) -> forall s, P s.
Proof.
  intros H0 Hs s.
  assert (G : forall n s, String.length s = n -> P s).
  { clear s. induction n as [|n IH]; intros s Hn.
    - destruct s; [exact H0 | discriminate].
    - assert (E : exists q c, s = q ++ String c "").
      { clear -Hn. revert n Hn. induction s as [|x s IHs]; intros n Hn; [discriminate|].
        destruct s as [|y s].
        - exists "", x. reflexivity.
        - destruct n as [|n]; [discriminate|].
          destruct (IHs n) as (q & c & E); [simpl in Hn |- *; lia|].
          exists (String x q), c. str_simpl. now rewrite <- E. }
      destruct E as (q & c & ->).
      apply Hs, IH. rewrite length_append in Hn. simpl in Hn. lia. }
  exact (G _ s eq_refl).
Qed.

Lemma occurs_append (c : ascii) (a b : string) :
  occurs c (a ++ b) = occurs c a || occurs c b.
Proof.
  induction a as [|x a IH]; str_simpl; [reflexivity|].
  rewrite IH. now rewrite orb_assoc.
Qed.

Lemma TrimSuffix_append (a b : string) : TrimSuffix (a ++ b) b = a.
Proof.
  unfold TrimSuffix, HasSuffix.
  rewrite length_append.
  replace (String.length a + String.length b - String.length b)%nat
    with (String.length a) by lia.
  rewrite slice_from_append, String.eqb_refl.
  replace (Nat.leb (String.length b) (String.length a + String.length b)) with true
    by (symmetry; apply Nat.leb_le; lia).
  simpl. apply slice_to_append.
Qed.

(** ** The extension of a path *)

Lemma spec_ext_none (s : string) : occurs dot s = false -> spec_ext s = "".
Proof.
  induction s as [|c s IH]; simpl; [reflexivity|].
  intros H. apply orb_false_iff in H as [Hc Hs].
  rewrite (IH Hs), Hc. reflexivity.
Qed.

Lemma spec_ext_last_dot (a s : string) :
  occurs dot s = false -> spec_ext (a ++ String dot s) = String dot s.
Proof.
  intros Hs. induction a as [|c a IH]; str_simpl.
  - now rewrite (spec_ext_none s Hs).
  - now rewrite IH.
Qed.

Lemma final_element_flat (s : string) : occurs slash s = false -> final_element s = s.
Proof.
  destruct s as [|c s]; simpl; [reflexivity|].
  intros H. apply orb_false_iff in H as [Hc Hs].
  unfold IsPathSeparator. now rewrite Hs, Hc.
Qed.

Lemma final_element_after_slash (a s : string) :
  occurs slash s = false -> final_element (a ++ String slash s) = s.
Proof.
  intros Hs. induction a as [|c a IH]; str_simpl.
  - now rewrite Hs.
  - rewrite occurs_append. simpl. rewrite orb_true_r. exact IH.
Qed.

Lemma final_element_append (a s : string) :
  occurs slash s = false -> final_element (a ++ s) = final_element a ++ s.
Proof.
  intros Hs. induction a as [|c a IH]; str_simpl.
  - now apply final_element_flat.
  - rewrite occurs_append, Hs, orb_false_r.
    destruct (occurs slash a); [exact IH|].
    now destruct (IsPathSeparator c).
Qed.

(** The backward scan of [filepath.Ext], once it has passed a tail [s]
    free of dots and separators, finds the extension of the final element. *)
Lemma Ext_from_scan (p s : string) :
  occurs dot s = false -> occurs slash s = false ->
  Ext_from (p ++ s) (String.length p) = spec_ext (final_element (p ++ s)).
Proof.
  revert s. induction p as [|p c IH] using string_rev_ind; intros s Hd Hs.
  - str_simpl. now rewrite final_element_flat, spec_ext_none.
  - rewrite append_assoc. str_simpl.
    rewrite length_append. simpl.
    replace (String.length p + 1)%nat with (S (String.length p)) by lia.
    simpl. rewrite get_middle. unfold IsPathSeparator.
    destruct (Ascii.eqb_spec c slash) as [->|Hns].
    + now rewrite (final_element_after_slash p s Hs), spec_ext_none.
    + destruct (Ascii.eqb_spec c dot) as [->|Hnd].
      * rewrite slice_from_append.
        rewrite (final_element_append p (String dot s)).
        -- now rewrite spec_ext_last_dot.
        -- simpl. now rewrite Hs.
      * apply IH; simpl.
        -- rewrite Hd. now apply Ascii.eqb_neq in Hnd; rewrite Hnd.
        -- rewrite Hs. now apply Ascii.eqb_neq in Hns; rewrite Hns.
Qed.

Lemma Ext_final_element (path : string) : Ext path = spec_ext (final_element path).
Proof.
  unfold Ext. rewrite <- (append_empty_r path) at 1.
  rewrite (Ext_from_scan path "" eq_refl eq_refl).
  now rewrite append_empty_r.
Qed.

Lemma spec_ext_suffix (s : string) : exists a, s = a ++ spec_ext s.
Proof.
  induction s as [|c s [a Ha]]; simpl.
  - now exists "".
  - destruct (spec_ext s) as [|e0 e] eqn:E.
    + destruct (Ascii.eqb c dot).
      * now exists "".
      * exists (String c s). now rewrite append_empty_r.
    + exists (String c a). str_simpl. now rewrite <- Ha.
Qed.

Lemma final_element_suffix (s : string) : exists a, s = a ++ final_element s.
Proof.
  induction s as [|c s [a Ha]]; simpl.
  - now exists "".
  - destruct (occurs slash s).
    + exists (String c a). str_simpl. now rewrite <- Ha.
    + destruct (IsPathSeparator c).
      * now exists (String c "").
      * now exists "".
Qed.

Lemma Ext_suffix (path : string) : exists stem, path = stem ++ Ext path.
Proof.
  rewrite Ext_final_element.
  destruct (final_element_suffix path) as [a Ha].
  destruct (spec_ext_suffix (final_element path)) as [b Hb].
  exists (a ++ b). rewrite append_assoc, <- Hb. exact Ha.
Qed.

(** ** Machine integers *)

Lemma wrap_in_range (z : Z) : Int.in_range z -> Int.wrap z = z.
Proof.
  unfold Int.in_range, Int.wrap, Int.min_int, Int.max_int. intros H.
  rewrite Z.mod_small; lia.
Qed.

(** ** Reasoning about computations *)

Lemma post_ret {A : Type} (a : A) (s : OS) (R : outcome A -> OS -> Prop) :
  R (Returned a) s -> post (ret a) s R.
Proof. intros H. exact H. Qed.

Lemma post_bind {A B : Type} (m : M A) (k : A -> M B) (s : OS)
  (R : outcome B -> OS -> Prop) :
  post m s (through k R) -> post (bind m k) s R.
Proof.
  unfold post, through, bind. destruct (m s) as [[a| |] s1]; simpl; trivial.
Qed.

Lemma post_mono {A : Type} (m : M A) (s : OS) (R R' : outcome A -> OS -> Prop) :
  post m s R -> (forall o s', R o s' -> R' o s') -> post m s R'.
Proof. unfold post. intros H HR. now apply HR. Qed.

Lemma post_run {A : Type} (m : M A) (s : OS) (R : outcome A -> OS -> Prop)
  (o : outcome A) (s' : OS) :
  post m s R -> m s = (o, s') -> R o s'.
Proof. unfold post. intros H E. now rewrite E in H. Qed.

(** Sequencing a computation whose specification is known. *)
Lemma post_seq {A B : Type} (m : M A) (k : A -> M B) (s : OS)
  (Q : outcome A -> OS -> Prop) (R : outcome B -> OS -> Prop) :
  post m s Q -> (forall o s', Q o s' -> through k R o s') -> post (bind m k) s R.
Proof. intros H HQ. apply post_bind. eapply post_mono; eauto. Qed.

(** ** What each call leaves in the state *)

Section Calls.

Context {ext : Collaborators}.

Lemma NewLog_post (format : string) (d : Z) (s : OS) :
  post (NewLog format d) s
    (fun o s' =>
       exists log, o = Returned log /\ trace s' = Produced log :: trace s
                   /\ same_files s s' /\ same_stdout s s').
Proof.
  unfold post, NewLog, bind, draw, emit, modify, get_os, ret, same_files, same_stdout.
  repeat match goal with |- context [if ?b then _ else _] => destruct b end;
    simpl; eexists; repeat split.
Qed.

Lemma Write_post (w : Writer) (data : string) (s : OS) :
  post (Write w data) s
    (fun o s' =>
       match o with
       | Returned r => w <> NilWriter /\ trace s' = Wrote w data (snd r) :: trace s
       | Panicked => w = NilWriter /\ s' = s
       | OutOfFuel => False
       end).
Proof.
  unfold post, Write, bind, emit, modify, ret, panic.
  destruct w as [| |fd|fd]; simpl.
  - now split.
  - unfold Stdout_Write. destruct (stdout_open s); simpl; now split.
  - unfold File_Write. destruct (fds s !! fd); simpl; now split.
  - unfold Gzip_Write. destruct (gzips s !! fd) as [z|]; simpl; [|now split].
    destruct (gz_closed z); simpl; now split.
Qed.

Lemma Close_post (w : Writer) (s : OS) :
  post (Close w) s
    (fun o s' =>
       match o with
       | Returned r => w <> NilWriter /\ trace s' = Closed w r :: trace s
       | Panicked => w = NilWriter /\ s' = s
       | OutOfFuel => False
       end).
Proof.
  unfold post, Close, bind, emit, modify, ret, panic.
  destruct w as [| |fd|fd]; simpl.
  - now split.
  - unfold Stdout_Close. destruct (stdout_open s); simpl; now split.
  - unfold File_Close. destruct (fds s !! fd); simpl; now split.
  - unfold Gzip_Close, bind, get_os, modify, ret. simpl.
    destruct (gzips s !! fd) as [z|]; simpl; [|now split].
    destruct (gz_closed z); simpl; [now split|].
    unfold File_Write. destruct (fds s !! fd); simpl; now split.
Qed.

Lemma Println_post (a b : string) (s : OS) :
  post (Println a b) s
    (fun o s' =>
       o = Returned tt /\ trace s' = Printed (a ++ " " ++ b ++ newline) :: trace s
       /\ same_files s s').
Proof.
  unfold post, Println, bind, emit, modify, ret, Stdout_Write, same_files.
  destruct (stdout_open s); simpl; repeat split.
Qed.

Lemma NewWriter_post (logType name : string) (s : OS) :
  post (NewWriter logType name) s
    (fun o s' =>
       exists w err, o = Returned (w, err)
                     /\ trace s' = Opened logType name w err :: trace s
                     /\ (err <> None -> w = NilWriter)
                     /\ (logType = "stdout" ->
                         w = StdoutWriter /\ err = None
                         /\ s' = log_event (Opened logType name w err) s)).
Proof.
  unfold post, NewWriter, bind, emit, modify, ret.
  destruct (String.eqb_spec logType "stdout") as [->|Hn]; simpl.
  { do 2 eexists. repeat split. congruence. }
  destruct (String.eqb logType "log"); simpl.
  { unfold OpenFile. destruct (decide (name ∈ denied s)); simpl.
    - do 2 eexists. repeat split; contradiction.
    - destruct (files s !! name); simpl.
      + do 2 eexists. repeat split; try contradiction; congruence.
      + do 2 eexists. repeat split; contradiction. }
  destruct (String.eqb logType "gz"); simpl.
  { unfold Create, OpenFile. destruct (decide (name ∈ denied s)); simpl.
    - do 2 eexists. repeat split; contradiction.
    - destruct (files s !! name); simpl; do 2 eexists;
        repeat split; try contradiction; congruence. }
  do 2 eexists. repeat split; contradiction.
Qed.

End Calls.

(** ** One iteration *)

Section Iterations.

Context {ext : Collaborators}.

Lemma rollover_post (option : Option) (l : locals) (s : OS) :
  writer l <> NilWriter ->
  post (rollover option l) s
    (fun o s' =>
       exists ce w oe,
         o = Returned (rolled option l w)
         /\ trace s' =
              Opened (Type_ option) (NewSplitFileName (Output option) (splitCount l)) w oe
              :: Printed (notice (logFileName l)) :: Closed (writer l) ce :: trace s).
Proof.
  intros Hw. unfold rollover.
  eapply post_seq; [apply Close_post|].
  intros [ce| |] s1; simpl; [intros [_ H1] | intros [Hn _]; contradiction | tauto].
  eapply post_seq; [apply Println_post|].
  intros o s2 (-> & H2 & _). simpl.
  eapply post_seq; [apply NewWriter_post|].
  intros o s3 (w & oe & -> & H3 & _). simpl.
  apply post_ret. exists ce, w, oe. split; [reflexivity|].
  rewrite H3, H2, H1. reflexivity.
Qed.

Lemma line_step_post (option : Option) (line : Z) (l : locals) (s : OS) :
  post (line_step option line l) s
    (fun o s' =>
       match o with
       | Returned l' =>
           exists log, iteration option (line_guard option line l) l log s l' s'
       | Panicked => aborted l s s'
       | OutOfFuel => False
       end).
Proof.
  unfold line_step.
  eapply post_seq; [apply NewLog_post|].
  intros o s1 (log & -> & H1 & _). simpl.
  eapply post_seq; [apply Write_post|].
  intros [r| |] s2; simpl; [intros [Hw H2] | intros [Hn ->]; split; eauto | tauto].
  destruct (line_guard option line l) eqn:G.
  - eapply post_seq; [apply rollover_post; exact Hw|].
    intros o s3 (ce & w & oe & -> & H3). simpl.
    apply post_ret. exists log. split; [exact Hw|].
    exists (snd r), ce, w, oe. split; [reflexivity|].
    rewrite H3, H2, H1. reflexivity.
  - apply post_bind, post_ret. simpl. apply post_ret.
    exists log. split; [exact Hw|].
    exists (snd r). split; [reflexivity|]. rewrite H2, H1. reflexivity.
Qed.

Lemma byte_step_post (option : Option) (bytes : Z) (l : locals) (s : OS) :
  post (byte_step option bytes l) s
    (fun o s' =>
       match o with
       | Returned (bytes', l') =>
           exists log,
             bytes' = Int.add bytes (Z.of_nat (String.length log))
             /\ iteration option (byte_guard option bytes' l) l log s l' s'
       | Panicked => aborted l s s'
       | OutOfFuel => False
       end).
Proof.
  unfold byte_step.
  eapply post_seq; [apply NewLog_post|].
  intros o s1 (log & -> & H1 & _). simpl.
  eapply post_seq; [apply Write_post|].
  intros [r| |] s2; simpl; [intros [Hw H2] | intros [Hn ->]; split; eauto | tauto].
  destruct (byte_guard option (Int.add bytes (Z.of_nat (String.length log))) l) eqn:G.
  - eapply post_seq; [apply rollover_post; exact Hw|].
    intros o s3 (ce & w & oe & -> & H3). simpl.
    apply post_ret. exists log. split; [reflexivity|]. split; [exact Hw|].
    rewrite G. exists (snd r), ce, w, oe. split; [reflexivity|].
    rewrite H3, H2, H1. reflexivity.
  - apply post_bind, post_ret. simpl. apply post_ret.
    exists log. split; [reflexivity|]. split; [exact Hw|].
    rewrite G. exists (snd r). split; [reflexivity|]. rewrite H2, H1. reflexivity.
Qed.

(** ** The two loops *)

(** An invariant [I] kept by every iteration holds when the line loop
    returns; a panic leaves the state [P] of the iteration it struck. *)
Lemma line_loop_post (option : Option)
  (I : Z -> locals -> OS -> Prop) (P : Z -> OS -> Prop) (n : nat) :
  forall (first : Z) (l : locals) (s : OS),
    (forall line l s,
        first <= line < first + Z.of_nat n -> I line l s ->
        post (line_step option line l) s
          (fun o s' =>
             match o with
             | Returned l' => I (line + 1) l' s'
             | Panicked => P line s'
             | OutOfFuel => False
             end)) ->
    I first l s ->
    post (line_loop option n first l) s
      (fun o s' =>
         match o with
         | Returned l' => I (first + Z.of_nat n) l' s'
         | Panicked => exists line, first <= line < first + Z.of_nat n /\ P line s'
         | OutOfFuel => False
         end).
Proof.
  induction n as [|n IH]; intros first l s Hstep HI.
  - simpl. apply post_ret. now rewrite Z.add_0_r.
  - simpl line_loop.
    eapply post_seq; [apply (Hstep first l s); [lia | exact HI]|].
    intros [l1| |] s1; simpl; [intros H1 | intros H1 | tauto].
    + eapply post_mono.
      * apply (IH (first + 1) l1 s1); [|exact H1].
        intros line l2 s2 Hr. apply Hstep. lia.
      * intros [l2| |] s2 H2; cbv beta iota in H2 |- *.
        -- now replace (first + Z.of_nat (S n)) with (first + 1 + Z.of_nat n) by lia.
        -- destruct H2 as (k & Hk & HP). exists k. split; [lia | exact HP].
        -- exact H2.
    + exists first. split; [lia | exact H1].
Qed.

(** The same for the byte loop, whose iterations start below the target
    and which returns at or above it; the fuel may run out. *)
Lemma byte_loop_post (option : Option)
  (I : Z -> locals -> OS -> Prop) (P : OS -> Prop) :
  (forall bytes l s,
      bytes < Bytes option -> I bytes l s ->
      post (byte_step option bytes l) s
        (fun o s' =>
           match o with
           | Returned r => I (fst r) (snd r) s'
           | Panicked => P s'
           | OutOfFuel => False
           end)) ->
  forall (fuel : nat) (bytes : Z) (l : locals) (s : OS),
    I bytes l s ->
    post (byte_loop option fuel bytes l) s
      (fun o s' =>
         match o with
         | Returned r => I (fst r) (snd r) s' /\ Bytes option <= fst r
         | Panicked => P s'
         | OutOfFuel => exists bytes' l', I bytes' l' s' /\ bytes' < Bytes option
         end).
Proof.
  intros Hstep. induction fuel as [|fuel IH]; intros bytes l s HI.
  - simpl. destruct (Z.ltb_spec bytes (Bytes option)).
    + unfold post, out_of_fuel. simpl. eauto.
    + apply post_ret. simpl. split; [exact HI | lia].
  - simpl. destruct (Z.ltb_spec bytes (Bytes option)).
    + eapply post_seq; [apply (Hstep bytes l s); assumption|].
      intros [r| |] s1; simpl; [intros H1 | trivial | tauto].
      apply IH. exact H1.
    + apply post_ret. simpl. split; [exact HI | lia].
Qed.

End Iterations.

(** ** Line-count mode *)

Lemma firstn_snoc_length {A : Type} (l : list A) (x : A) (n : nat) :
  n = length l -> firstn n (l ++ [x])%list = l.
Proof.
  intros ->. rewrite firstn_app, Nat.sub_diag, firstn_all. simpl. apply app_nil_r.
Qed.

Section LineMode.

Context {ext : Collaborators}.

Lemma splits_stdout (option : Option) : Type_ option = "stdout" -> splits option = false.
Proof. unfold splits. now intros ->. Qed.

Lemma lines_step (option : Option) (line : Z) (l : locals) (s : OS) :
  lines_inv option line l s ->
  post (line_step option line l) s
    (fun o s' =>
       match o with
       | Returned l' => lines_inv option (line + 1) l' s'
       | Panicked => lines_cut option line s'
       | OutOfFuel => False
       end).
Proof.
  intros (Hw & Hn & Hnil & Hstd).
  eapply post_mono; [apply line_step_post|].
  intros [l'| |] s'; [| |tauto].
  - intros (log & Hne & Hit).
    destruct (line_guard option line l) eqn:G.
    + destruct Hit as (we & ce & w & oe & -> & Ht).
      unfold lines_inv, rolling_events in *. rewrite Ht. simpl.
      rewrite Hw, map_app, length_app, length_map. simpl.
      repeat split.
      * rewrite Nat2Z.inj_add, <- Hn, Hw, length_map. simpl. lia.
      * now intros ->.
      * intros Hs. unfold line_guard in G. now rewrite (splits_stdout _ Hs) in G.
    + destruct Hit as (we & -> & Ht).
      unfold lines_inv, plain_events in *. rewrite Ht. simpl.
      rewrite Hw, map_app, length_app, length_map. simpl.
      repeat split.
      * rewrite Nat2Z.inj_add, <- Hn, Hw, length_map. simpl. lia.
      * intros Hc. contradiction.
      * exact Hstd.
  - intros (Hc & log & Ht). unfold lines_cut. rewrite Ht. simpl.
    rewrite Hw at 1 2. rewrite length_map, firstn_snoc_length by reflexivity.
    repeat split; [exact Hn | now apply Hnil |].
    intros Hs. rewrite (Hstd Hs) in Hc. discriminate.
Qed.

Lemma Generate_line_run (fuel : nat) (option : Option) (s : OS) :
  Bytes option = 0 -> 0 <= Number option -> trace s = [] ->
  post (Generate fuel option) s (line_run option).
Proof.
  intros HB HL Ht0. unfold Generate.
  eapply post_seq; [apply NewWriter_post|].
  intros o1 s1 (w & err & -> & Ht1 & Hnil & Hstd). rewrite Ht0 in Ht1. simpl.
  destruct err as [e|].
  { apply post_ret. unfold line_run. rewrite Ht1. simpl.
    rewrite (Hnil ltac:(discriminate)). simpl.
    repeat split; try lia; try discriminate.
    intros Hs. now destruct (Hstd Hs) as (_ & ? & _). }
  rewrite HB. simpl.
  eapply post_seq.
  { apply (line_loop_post option (lines_inv option) (lines_cut option)).
    - intros line l s2 _. apply lines_step.
    - unfold lines_inv. rewrite Ht1. simpl. repeat split.
      + now intros ->.
      + intros Hs. now destruct (Hstd Hs). }
  intros [l'| |] s2; simpl; [|unfold line_run|tauto].
  - rewrite Z2Nat.id by exact HL. intros (Hw & Hn & Hnl & Hs).
    destruct (String.eqb_spec (Type_ option) "stdout") as [E|E]; simpl.
    + apply post_bind, post_ret. simpl. apply post_ret.
      unfold line_run. rewrite Hw at 1. rewrite Hw at 1. rewrite length_map, firstn_all.
      repeat split; try reflexivity; lia.
    + apply post_bind. eapply post_seq; [apply Close_post|].
      intros [ce| |] s3; simpl; [intros [Hne H3] | intros [Hc ->] | tauto].
      * eapply post_mono; [apply Println_post|].
        intros o s4 (-> & H4 & _). simpl. apply post_ret.
        unfold line_run. rewrite H4, H3. simpl.
        rewrite Hw at 1. rewrite Hw at 1. rewrite length_map, firstn_all.
        repeat split; try reflexivity; try lia; contradiction.
      * unfold line_run. rewrite Hw at 1. rewrite Hw at 1. rewrite length_map, firstn_all.
        repeat split; try discriminate; try lia.
        all: try (rewrite (Hnl Hc); discriminate).
        all: try contradiction.
  - intros (line & Hr & Hw & Hn & Hf & Hs).
    repeat split; try discriminate; try lia; try exact Hw.
    all: try (rewrite Hf; discriminate).
    all: try contradiction.
Qed.

End LineMode.

(** ** Runs on the standard output *)

Lemma joined_snoc (l : list string) (d : string) :
  joined (l ++ [d])%list = joined l ++ d.
Proof.
  induction l as [|x l IH]; simpl.
  - apply append_empty_r.
  - rewrite IH. symmetry. apply append_assoc.
Qed.

Lemma stdout_events_quiet (t : list event) :
  forallb stdout_event t = true ->
  count is_close t = 0%nat /\ count is_notice t = 0%nat
  /\ (forall w data err, In (Wrote w data err) t -> w = StdoutWriter).
Proof.
  induction t as [|e t IH]; simpl.
  - intros _. repeat split. intros w data err [].
  - intros H. apply andb_prop in H as [He Ht].
    destruct (IH Ht) as (Hc & Hn & Hw).
    destruct e as [log|ty name [| | |] [e|]|[| | |] data err|w err|line];
      try discriminate; simpl; repeat split; trivial;
      intros w' data' err' [E|Hin]; try discriminate; eauto.
    now injection E as <- _ _.
Qed.

Section Stdout.

Context {ext : Collaborators}.

Lemma Write_stdout_post (data : string) (s : OS) :
  post (Write StdoutWriter data) s
    (fun o s' =>
       exists r, o = Returned r
                 /\ trace s' = Wrote StdoutWriter data (snd r) :: trace s
                 /\ same_files s s'
                 /\ stdout_open s' = stdout_open s
                 /\ console s' = if stdout_open s then console s ++ data
                                 else console s).
Proof.
  unfold post, Write, bind, emit, modify, ret, Stdout_Write, same_files.
  destruct (stdout_open s) eqn:E; simpl; eexists; repeat split; now rewrite ?E.
Qed.

(** What the start of an iteration, up to the write, does to the
    invariant. *)
Lemma stdout_write (option : Option) (s0 : OS) (l : locals) (s : OS)
  {A : Type} (k : string -> M A) (R : outcome A -> OS -> Prop) :
  stdout_inv s0 l s ->
  (forall log s', stdout_inv s0 l s' -> post (k log) s' R) ->
  post (log <- NewLog (Format option) (delta l) ;;
        _ <- Write (writer l) (log ++ newline) ;; k log) s R.
Proof.
  intros (Hw & (Hf & Hd & Hg) & Ho & evs & Ht & Hev & Hop & Hc) Hk.
  eapply post_seq; [apply NewLog_post|].
  intros o s1 (log & -> & H1 & (Hf1 & Hd1 & Hg1) & (Ho1 & Hc1)). simpl.
  rewrite Hw.
  eapply post_seq; [apply Write_stdout_post|].
  intros o s2 (r & -> & H2 & (Hf2 & Hd2 & Hg2) & Ho2 & Hc2). simpl.
  apply Hk. unfold stdout_inv, same_files.
  repeat split; try congruence.
  exists (Wrote StdoutWriter (log ++ newline) (snd r) :: Produced log :: evs).
  repeat split.
  - rewrite H2, H1, Ht. reflexivity.
  - simpl. exact Hev.
  - simpl. exact Hop.
  - rewrite Hc2, Ho1, Hc1, Ho, Hc. simpl.
    destruct (stdout_open s0); [|reflexivity].
    rewrite joined_snoc. apply append_assoc.
Qed.

Lemma stdout_line_step (option : Option) (s0 : OS) (line : Z) (l : locals) (s : OS) :
  Type_ option = "stdout" -> stdout_inv s0 l s ->
  post (line_step option line l) s
    (fun o s' =>
       match o with
       | Returned l' => stdout_inv s0 l' s'
       | _ => False
       end).
Proof.
  intros Hs HI. unfold line_step. apply (stdout_write option s0 l s); [exact HI|].
  intros log s' HI'. unfold line_guard. rewrite (splits_stdout _ Hs). simpl.
  apply post_bind, post_ret. simpl. apply post_ret. exact HI'.
Qed.

Lemma stdout_byte_step (option : Option) (s0 : OS) (bytes : Z) (l : locals) (s : OS) :
  Type_ option = "stdout" -> stdout_inv s0 l s ->
  post (byte_step option bytes l) s
    (fun o s' =>
       match o with
       | Returned r => stdout_inv s0 (snd r) s'
       | _ => False
       end).
Proof.
  intros Hs HI. unfold byte_step. apply (stdout_write option s0 l s); [exact HI|].
  intros log s' HI'. unfold byte_guard. rewrite (splits_stdout _ Hs). simpl.
  apply post_bind, post_ret. simpl. apply post_ret. exact HI'.
Qed.

Lemma Generate_stdout_run (fuel : nat) (option : Option) (s : OS) :
  Type_ option = "stdout" ->
  post (Generate fuel option) s (stdout_run option s).
Proof.
  intros Hs. unfold Generate.
  eapply post_seq; [apply NewWriter_post|].
  intros o1 s1 (w & err & -> & Ht1 & _ & Hstd).
  destruct (Hstd Hs) as (-> & -> & ->). simpl.
  assert (H0 : stdout_inv s {| splitCount := 1; delta := 0;
                               logFileName := Output option;
                               writer := StdoutWriter |}
                 (log_event (Opened (Type_ option) (Output option) StdoutWriter None) s)).
  { unfold stdout_inv, same_files. simpl. repeat split.
    exists [Opened (Type_ option) (Output option) StdoutWriter None].
    repeat split. simpl. destruct (stdout_open s); [|reflexivity].
    symmetry. apply append_empty_r. }
  replace (String.eqb (Type_ option) "stdout") with true by (now rewrite Hs).
  simpl.
  destruct (Z.eqb_spec (Bytes option) 0) as [HB|HB].
  - eapply post_seq.
    { apply (line_loop_post option (fun _ => stdout_inv s) (fun _ _ => False)); [|exact H0].
      intros line l s2 _ HI. eapply post_mono; [apply stdout_line_step; eassumption|].
      intros [l'| |] s3; trivial. }
    intros [l'| |] s2; simpl; [|intros (? & _ & [])|tauto].
    intros (Hw & Hf & Ho & Hev).
    apply post_bind, post_ret. simpl. apply post_ret.
    unfold stdout_run. auto.
  - apply post_bind.
    eapply post_seq.
    { apply (byte_loop_post option (fun _ => stdout_inv s) (fun _ => False)); [|exact H0].
      intros bytes l s2 _ HI. eapply post_mono; [apply stdout_byte_step; eassumption|].
      intros [r| |] s3; trivial. }
    intros [r| |] s2; simpl; [|tauto|].
    + intros ((Hw & Hf & Ho & Hev) & _).
      apply post_ret. simpl. apply post_bind, post_ret. simpl. apply post_ret.
      unfold stdout_run. auto.
    + intros (b & l' & (Hw & Hf & Ho & Hev) & _). unfold stdout_run. auto.
Qed.

End Stdout.

(** ** Byte-count mode *)

Lemma accumulated_snoc (ps : list string) (p : string) :
  accumulated (ps ++ [p])%list = Int.add (accumulated ps) (Z.of_nat (String.length p)).
Proof. unfold accumulated. now rewrite fold_left_app. Qed.

Lemma below_snoc (B : Z) (ps : list string) (p : string) :
  below B ps -> accumulated ps < B -> below B (ps ++ [p])%list.
Proof.
  intros Hb Ha k Hk. rewrite length_app in Hk. simpl in Hk.
  destruct (Nat.eq_dec k (length ps)) as [->|Hne].
  - now rewrite firstn_snoc_length.
  - rewrite firstn_app. replace (k - length ps)%nat with 0%nat by lia.
    simpl. rewrite app_nil_r. apply Hb. lia.
Qed.

Section ByteMode.

Context {ext : Collaborators}.

Lemma bytes_step (option : Option) (bytes : Z) (l : locals) (s : OS) :
  bytes < Bytes option -> bytes_inv option bytes l s ->
  post (byte_step option bytes l) s
    (fun o s' =>
       match o with
       | Returned r => bytes_inv option (fst r) (snd r) s'
       | Panicked => bytes_cut option s'
       | OutOfFuel => False
       end).
Proof.
  intros Hlt (Hw & Hb & Hbelow).
  eapply post_mono; [apply byte_step_post|].
  intros [[bytes' l']| |] s'; [| |tauto].
  - intros (log & -> & Hne & Hit). simpl fst. simpl snd.
    assert (G : exists evs,
               trace s' = (evs ++ trace s)%list
               /\ written (evs ++ trace s)%list = (written (trace s) ++ [terminated log])%list
               /\ produced (evs ++ trace s)%list = (produced (trace s) ++ [log])%list).
    { destruct (byte_guard option _ l).
      - destruct Hit as (we & ce & w & oe & _ & Ht). eexists. split; [exact Ht|].
        split; reflexivity.
      - destruct Hit as (we & _ & Ht). eexists. split; [exact Ht|].
        split; reflexivity. }
    destruct G as (evs & Ht & Gw & Gp).
    unfold bytes_inv. rewrite Ht, Gw, Gp, Hw, map_app, accumulated_snoc, <- Hb.
    repeat split. apply below_snoc; [exact Hbelow | now rewrite <- Hb].
  - intros (Hc & log & Ht). unfold bytes_cut. rewrite Ht. simpl.
    rewrite Hw at 1 2. rewrite length_map, firstn_snoc_length by reflexivity.
    split; [reflexivity|]. apply below_snoc; [exact Hbelow | now rewrite <- Hb].
Qed.



Lemma Generate_byte_run (fuel : nat) (option : Option) (s : OS) :
  0 < Bytes option -> trace s = [] ->
  post (Generate fuel option) s (byte_run option).
Proof.
  intros HB Ht0. unfold Generate.
  eapply post_seq; [apply NewWriter_post|].
  intros o1 s1 (w & err & -> & Ht1 & _). rewrite Ht0 in Ht1. simpl.
  destruct err as [e|].
  { apply post_ret. unfold byte_run. rewrite Ht1. simpl.
    repeat split; try discriminate. intros k Hk. simpl in Hk. lia. }
  replace (Z.eqb (Bytes option) 0) with false by (symmetry; apply Z.eqb_neq; lia).
  apply post_bind. eapply post_seq.
  { apply (byte_loop_post option (bytes_inv option) (bytes_cut option)).
    - intros bytes l s2. apply bytes_step.
    - unfold bytes_inv. rewrite Ht1. simpl. repeat split.
      intros k Hk. simpl in Hk. lia. }
  intros [r| |] s2; simpl.
  - intros ((Hw & Hb & Hbelow) & Hge).
    assert (Hfull : written (trace s2)
                    = map terminated (firstn (length (written (trace s2)))
                                             (produced (trace s2)))).
    { rewrite Hw at 1. rewrite Hw at 1. now rewrite length_map, firstn_all. }
    apply post_ret. simpl.
    destruct (negb (String.eqb (Type_ option) "stdout")).
    + apply post_bind. eapply post_seq; [apply Close_post|].
      intros [ce| |] s3; simpl; [intros [_ H3] | intros [_ ->] | tauto].
      * eapply post_mono; [apply Println_post|].
        intros o s4 (-> & H4 & _). simpl. apply post_ret.
        unfold byte_run. rewrite H4, H3. simpl.
        repeat split; [exact Hfull | exact Hbelow | intros _; now rewrite <- Hb].
      * unfold byte_run. repeat split; [exact Hfull | exact Hbelow | discriminate].
    + apply post_bind, post_ret. simpl. apply post_ret.
      unfold byte_run. repeat split; [exact Hfull | exact Hbelow | intros _; now rewrite <- Hb].
  - intros (Hw & Hbelow). unfold byte_run.
    repeat split; [exact Hw | exact Hbelow | discriminate].
  - intros (b & l' & (Hw & Hb & Hbelow) & _). unfold byte_run.
    repeat split; [|exact Hbelow | discriminate].
    rewrite Hw at 1. rewrite Hw at 1. now rewrite length_map, firstn_all.
Qed.

End ByteMode.

(** ** Splitting *)

Lemma closed_sizes_succ (T sc c : Z) :
  1 <= sc -> c + 1 = (if Z.eqb sc 1 then T + 2 else T) ->
  (closed_sizes T sc ++ [c + 1])%list = closed_sizes T (sc + 1).
Proof.
  intros Hsc Hc. unfold closed_sizes.
  replace (Z.eqb (sc + 1) 1) with false by (symmetry; apply Z.eqb_neq; lia).
  destruct (Z.eqb_spec sc 1) as [->|Hne].
  - simpl. now rewrite Hc.
  - rewrite Hc. simpl. f_equal.
    replace (Z.to_nat (sc + 1 - 2)) with (S (Z.to_nat (sc - 2))) by lia.
    induction (Z.to_nat (sc - 2)) as [|k IH]; simpl; [reflexivity | now rewrite IH].
Qed.

Lemma split_files_unique (T L sc : Z) :
  0 < T -> 1 <= sc -> L <= T * sc + 1 -> (sc = 1 \/ T * (sc - 1) + 2 <= L) ->
  sc = split_files T L.
Proof.
  intros HT Hsc Hup Hlo. unfold split_files.
  destruct (Z.leb_spec L 1) as [H1|H1].
  - destruct Hlo as [->|Hlo]; [reflexivity | nia].
  - assert (E : (L - 2) / T = sc - 1); [|lia].
    symmetry. apply (Z.div_unique (L - 2) T (sc - 1) (L - 2 - T * (sc - 1))); [|lia].
    left. destruct Hlo as [->|Hlo]; lia.
Qed.

Section Splitting.

Context {ext : Collaborators}.

Lemma splits_true (option : Option) :
  Type_ option <> "stdout" -> 0 < SplitBy option -> splits option = true.
Proof.
  intros Hs HT. unfold splits.
  apply String.eqb_neq in Hs. rewrite Hs. simpl. now apply Z.ltb_lt.
Qed.

Lemma line_guard_rule (option : Option) (line : Z) (l : locals) :
  Type_ option <> "stdout" -> 0 < SplitBy option ->
  0 <= splitCount l -> SplitBy option * splitCount l <= Int.max_int ->
  line_guard option line l = Z.ltb (SplitBy option * splitCount l + 1) (line + 1).
Proof.
  intros Hs HT Hsc Hmax. unfold line_guard, Int.mul.
  rewrite (splits_true _ Hs HT). simpl.
  rewrite wrap_in_range by (unfold Int.in_range, Int.min_int, Int.max_int in *; nia).
  destruct (Z.ltb_spec (SplitBy option * splitCount l) line);
    destruct (Z.ltb_spec (SplitBy option * splitCount l + 1) (line + 1)); lia.
Qed.

Lemma byte_guard_rule (option : Option) (bytes : Z) (l : locals) :
  Type_ option <> "stdout" -> 0 < SplitBy option ->
  0 <= splitCount l -> SplitBy option * splitCount l < Int.max_int ->
  byte_guard option bytes l = Z.ltb (SplitBy option * splitCount l + 1) bytes.
Proof.
  intros Hs HT Hsc Hmax. unfold byte_guard, Int.mul, Int.add.
  rewrite (splits_true _ Hs HT). simpl.
  rewrite (wrap_in_range (SplitBy option * splitCount l))
    by (unfold Int.in_range, Int.min_int, Int.max_int in *; nia).
  rewrite wrap_in_range
    by (unfold Int.in_range, Int.min_int, Int.max_int in *; nia).
  reflexivity.
Qed.

(** What an iteration adds to the split count and to the closes. *)
Lemma iteration_rolls (option : Option) (guard : bool) (l : locals) (log : string)
  (s : OS) (l' : locals) (s' : OS) :
  0 <= splitCount l -> splitCount l < Int.max_int ->
  iteration option guard l log s l' s' ->
  splitCount l' = splitCount l + Z.b2z guard
  /\ count is_close (trace s') = (count is_close (trace s) + Nat.b2n guard)%nat.
Proof.
  intros Hsc Hmax [_ Hit]. destruct guard.
  - destruct Hit as (we & ce & w & oe & -> & ->). simpl.
    unfold Int.add. rewrite wrap_in_range
      by (unfold Int.in_range, Int.min_int, Int.max_int in *; lia).
    split; lia.
  - destruct Hit as (we & -> & ->). simpl. split; lia.
Qed.

Lemma split_step (option : Option) (line : Z) (l : locals) (s : OS) :
  Type_ option <> "stdout" -> 0 < SplitBy option ->
  0 <= line -> line + SplitBy option < Int.max_int ->
  split_inv option line l s ->
  post (line_step option line l) s
    (fun o s' =>
       match o with
       | Returned l' => split_inv option (line + 1) l' s'
       | Panicked => True
       | OutOfFuel => False
       end).
Proof.
  intros Hs HT H0 Hmax (Hsc & Hup & Hlo & Hseg & Hnot & Hop).
  assert (Hprod : SplitBy option * splitCount l <= line + SplitBy option).
  { destruct Hlo as [->|Hlo]; nia. }
  eapply post_mono; [apply line_step_post|].
  intros [l'| |] s'; [|trivial|tauto].
  intros (log & Hne & Hit).
  rewrite line_guard_rule in Hit by (trivial; lia).
  destruct (Z.ltb_spec (SplitBy option * splitCount l + 1) (line + 1)) as [G|G].
  - destruct Hit as (we & ce & w & oe & -> & Ht).
    assert (E : Int.add (splitCount l) 1 = splitCount l + 1).
    { unfold Int.add. apply wrap_in_range.
      unfold Int.in_range, Int.min_int, Int.max_int in *. nia. }
    unfold split_inv in *. rewrite Ht. simpl. rewrite Hseg, E. simpl.
    repeat split; try lia.
    f_equal.
    + apply closed_sizes_succ; [lia|]. unfold closed_total.
      destruct (Z.eqb_spec (splitCount l) 1) as [E1|E1]; [rewrite E1 in *|]; lia.
    + unfold closed_total.
      replace (Z.eqb (splitCount l + 1) 1) with false
        by (symmetry; apply Z.eqb_neq; lia).
      lia.
  - destruct Hit as (we & -> & Ht).
    unfold split_inv in *. rewrite Ht. simpl. rewrite Hseg. simpl.
    repeat split; try lia.
    f_equal. lia.
Qed.

End Splitting.

Lemma segments_closes (t : list event) :
  length (fst (segments t)) = count is_close t.
Proof.
  induction t as [|e t IH]; simpl; [reflexivity|].
  destruct e; simpl; try exact IH.
  rewrite length_app. simpl. lia.
Qed.

Lemma first_segment_size (T L : Z) :
  0 < T -> 0 <= L -> hd 0 (segment_sizes T L) = Z.min L (T + 2).
Proof.
  intros HT HL. unfold segment_sizes, closed_sizes, closed_total, split_files.
  destruct (Z.leb_spec L 1) as [H1|H1]; simpl; [lia|].
  destruct (Z.eqb_spec (1 + (L - 2) / T) 1) as [E|E]; simpl.
  - assert ((L - 2) / T = 0) as E0 by lia.
    apply Z.div_small_iff in E0; lia.
  - assert (0 < (L - 2) / T) by (pose proof (Z.div_pos (L - 2) T); lia).
    assert (T <= L - 2); [|lia].
    destruct (Z.le_gt_cases T (L - 2)) as [|Hlt]; [assumption|].
    rewrite Z.div_small in H by lia. lia.
Qed.

Lemma later_segment_sizes (T L : Z) :
  0 < T -> 0 <= L -> Forall (fun n => 0 <= n <= T) (tl (segment_sizes T L)).
Proof.
  intros HT HL. unfold segment_sizes, closed_sizes, closed_total, split_files.
  destruct (Z.leb_spec L 1) as [H1|H1]; simpl; [constructor|].
  destruct (Z.eqb_spec (1 + (L - 2) / T) 1) as [E|E]; simpl; [constructor|].
  apply Forall_app. split.
  - apply Forall_forall. intros x Hx. apply list_elem_of_In, repeat_spec in Hx. lia.
  - constructor; [|constructor].
    pose proof (Z.mod_pos_bound (L - 2) T HT) as Hm.
    rewrite (Z.mod_eq (L - 2) T) in Hm by lia. lia.
Qed.

Section SplitRun.

Context {ext : Collaborators}.

Lemma Generate_split_run (fuel : nat) (option : Option) (s : OS) :
  Type_ option <> "stdout" -> 0 < SplitBy option ->
  Bytes option = 0 -> 0 <= Number option ->
  Number option + SplitBy option <= Int.max_int ->
  trace s = [] ->
  post (Generate fuel option) s (split_run option).
Proof.
  intros Hs HT HB HL Hmax Ht0. unfold Generate.
  eapply post_seq; [apply NewWriter_post|].
  intros o1 s1 (w & err & -> & Ht1 & _). rewrite Ht0 in Ht1. simpl.
  destruct err as [e|]; [apply post_ret; discriminate|].
  rewrite HB. simpl.
  eapply post_seq.
  { apply (line_loop_post option (split_inv option) (fun _ _ => True)).
    - intros line l s2 Hr. apply split_step; trivial; lia.
    - unfold split_inv. rewrite Ht1. simpl. repeat split; lia. }
  intros [l'| |] s2; simpl; [|intros _ ?; discriminate|tauto].
  rewrite Z2Nat.id by exact HL. rewrite Z.add_0_l.
  intros (Hsc & Hup & Hlo & Hseg & Hnot & Hop).
  apply String.eqb_neq in Hs. rewrite Hs. simpl.
  apply post_bind. eapply post_seq; [apply Close_post|].
  intros [ce| |] s3; simpl; [intros [_ H3] | intros _ ?; discriminate | tauto].
  eapply post_mono; [apply Println_post|].
  intros o s4 (-> & H4 & _). simpl. apply post_ret. intros _.
  pose proof (split_files_unique _ _ _ HT Hsc Hup Hlo) as E.
  assert (Hfst : fst (segments (trace s4))
                 = segment_sizes (SplitBy option) (Number option)).
  { rewrite H4, H3. simpl. rewrite Hseg. simpl. unfold segment_sizes. now rewrite <- E. }
  repeat split.
  - exact Hfst.
  - rewrite H4, H3. simpl. lia.
  - rewrite H4, H3. simpl. lia.
  - rewrite <- segments_closes, Hfst. unfold segment_sizes.
    rewrite length_app. simpl. rewrite <- E. unfold closed_sizes.
    destruct (Z.eqb_spec (splitCount l') 1) as [E1|E1]; simpl.
    + lia.
    + rewrite repeat_length. lia.
Qed.

End SplitRun.

(** ** Errors and nil writers *)

Section Errors.

Context {ext : Collaborators}.

(** [Generate] returns an error exactly when its first [NewWriter] does,
    and has done nothing else by then. *)
Lemma Generate_error (fuel : nat) (option : Option) (s : OS) :
  match NewWriter (Type_ option) (Output option) s with
  | (Returned (_, Some e), s1) => Generate fuel option s = (Returned (Some e), s1)
  | _ => forall e, fst (Generate fuel option s) <> Returned (Some e)
  end.
Proof.
  unfold Generate, bind.
  destruct (NewWriter (Type_ option) (Output option) s) as [[[w [e|]]| |] s1]; simpl;
    try reflexivity; try discriminate.
  intros e.
  destruct (Z.eqb (Bytes option) 0).
  - destruct (line_loop option _ 0 _ s1) as [[l'| |] s2]; simpl; try discriminate.
    destruct (negb (String.eqb (Type_ option) "stdout")); simpl; try discriminate.
    destruct (Close (writer l') s2) as [[ce| |] s3]; simpl; try discriminate.
    destruct (Println (logFileName l') "is created." s3) as [[u| |] s4];
      simpl; discriminate.
  - destruct (byte_loop option fuel 0 _ s1) as [[r| |] s2]; simpl; try discriminate.
    destruct (negb (String.eqb (Type_ option) "stdout")); simpl; try discriminate.
    destruct (Close (writer (snd r)) s2) as [[ce| |] s3]; simpl; try discriminate.
    destruct (Println (logFileName (snd r)) "is created." s3) as [[u| |] s4];
      simpl; discriminate.
Qed.

(** [NewWriter] of the [log] kind on a path that is not on the disk. *)
Lemma NewWriter_log_absent (name : string) (s : OS) :
  files s !! name = None -> name ∉ denied s ->
  NewWriter "log" name s
  = (Returned (NilWriter, Some ENOENT),
     log_event (Opened "log" name NilWriter (Some ENOENT)) s).
Proof.
  intros Hf Hd. unfold NewWriter, bind, OpenFile, emit, modify, ret. simpl.
  destruct (decide (name ∈ denied s)); [contradiction|].
  rewrite Hf. reflexivity.
Qed.

(** [NewWriter] of the [log] kind on a file of the disk: the descriptor is
    in append mode and the file keeps its content. *)
Lemma NewWriter_log_present (name content : string) (s : OS) :
  files s !! name = Some content -> name ∉ denied s ->
  exists s',
    NewWriter "log" name s = (Returned (FileWriter (next_fd s), None), s')
    /\ files s' = files s
    /\ fds s' !! next_fd s
       = Some {| fd_path := name; fd_append := true; fd_offset := 0 |}.
Proof.
  intros Hf Hd. unfold NewWriter, bind, OpenFile, emit, modify, ret. simpl.
  destruct (decide (name ∈ denied s)); [contradiction|].
  rewrite Hf. simpl. eexists. split; [reflexivity|]. split; [reflexivity|].
  simpl. apply lookup_insert_eq.
Qed.

(** [NewWriter] of the [gz] kind creates or empties the file. *)
Lemma NewWriter_gz_creates (name : string) (s : OS) :
  name ∉ denied s ->
  exists s',
    NewWriter "gz" name s = (Returned (GzipWriter (next_fd s), None), s')
    /\ files s' !! name = Some ""
    /\ fds s' !! next_fd s
       = Some {| fd_path := name; fd_append := false; fd_offset := 0 |}
    /\ gzips s' !! next_fd s = Some {| gz_pending := ""; gz_closed := false |}.
Proof.
  intros Hd. unfold NewWriter, bind, Create, OpenFile, Gzip_NewWriter, emit, modify, ret.
  simpl. destruct (decide (name ∈ denied s)); [contradiction|].
  destruct (files s !! name); simpl; eexists; (split; [reflexivity|]); simpl;
    repeat split; apply lookup_insert_eq.
Qed.

(** Closing a compressed writer: the compressor is closed, what was
    pending went to the file, and the descriptor below stays open. *)
Lemma Close_gzip (fd : nat) (z : compressor) (d : descriptor) (s : OS) :
  gzips s !! fd = Some z -> gz_closed z = false -> fds s !! fd = Some d ->
  exists err s',
    Close (GzipWriter fd) s = (Returned err, s')
    /\ gzips s' !! fd = Some {| gz_pending := ""; gz_closed := true |}
    /\ (exists d', fds s' !! fd = Some d' /\ fd_path d' = fd_path d)
    /\ ((String.length (gzip_encode (gz_pending z)) <= free_space s)%nat ->
        err = None
        /\ files s' !! fd_path d
           = Some (write_at d (default "" (files s !! fd_path d))
                     (gzip_encode (gz_pending z)))).
Proof.
  intros Hz Hc Hd.
  unfold Close, Gzip_Close, bind, get_os, File_Write, emit, modify, ret. simpl.
  rewrite Hz, Hc. simpl. rewrite Hd. simpl.
  do 2 eexists. split; [reflexivity|]. simpl.
  split; [apply lookup_insert_eq|].
  split; [eexists; split; [apply lookup_insert_eq | reflexivity]|].
  intros Hfit.
  rewrite Nat.min_l by exact Hfit.
  split.
  - destruct (Nat.ltb_spec (String.length (gzip_encode (gz_pending z)))
                (String.length (gzip_encode (gz_pending z)))); [lia | reflexivity].
  - rewrite lookup_insert_eq. unfold slice_to. now rewrite substring_all.
Qed.

(** Closing a plain file writer closes its descriptor. *)
Lemma Close_file (fd : nat) (d : descriptor) (s : OS) :
  fds s !! fd = Some d ->
  exists s', Close (FileWriter fd) s = (Returned None, s') /\ fds s' !! fd = None.
Proof.
  intros Hd. unfold Close, File_Close, bind, emit, modify, ret. simpl.
  rewrite Hd. simpl. eexists. split; [reflexivity|]. simpl. apply lookup_delete_eq.
Qed.

(** [NewWriter] outside the three known kinds. *)
Lemma NewWriter_unknown (logType name : string) (s : OS) :
  logType <> "stdout" -> logType <> "log" -> logType <> "gz" ->
  NewWriter logType name s
  = (Returned (NilWriter, None), log_event (Opened logType name NilWriter None) s).
Proof.
  intros H1 H2 H3. unfold NewWriter, bind, emit, modify, ret.
  apply String.eqb_neq in H1, H2, H3. now rewrite H1, H2, H3.
Qed.

Lemma line_step_nil (option : Option) (line : Z) (l : locals) (s : OS) :
  writer l = NilWriter -> fst (line_step option line l s) = Panicked.
Proof.
  intros Hw. pose proof (line_step_post option line l s) as H. unfold post in H.
  destruct (line_step option line l s) as [[l'| |] s']; simpl in *.
  - destruct H as (log & Hne & _). contradiction.
  - reflexivity.
  - contradiction.
Qed.

Lemma byte_step_nil (option : Option) (bytes : Z) (l : locals) (s : OS) :
  writer l = NilWriter -> fst (byte_step option bytes l s) = Panicked.
Proof.
  intros Hw. pose proof (byte_step_post option bytes l s) as H. unfold post in H.
  destruct (byte_step option bytes l s) as [[[b' l']| |] s']; simpl in *.
  - destruct H as (log & _ & Hne & _). contradiction.
  - reflexivity.
  - contradiction.
Qed.

(** A run that starts with the nil writer panics: at the first write, or
    at the final close when there is nothing to write. *)
Lemma Generate_nil (fuel : nat) (option : Option) (s : OS) :
  Type_ option <> "stdout" -> Type_ option <> "log" -> Type_ option <> "gz" ->
  (0 < fuel)%nat ->
  fst (Generate fuel option s) = Panicked.
Proof.
  intros H1 H2 H3 Hfuel. unfold Generate, bind.
  rewrite (NewWriter_unknown _ (Output option) s H1 H2 H3). simpl.
  set (s1 := log_event _ s).
  set (l := {| splitCount := 1; delta := 0; logFileName := Output option;
               writer := NilWriter |}).
  apply String.eqb_neq in H1. rewrite H1. simpl.
  destruct (Z.eqb (Bytes option) 0).
  - destruct (Z.to_nat (Number option)) as [|n]; simpl.
    + reflexivity.
    + unfold bind. pose proof (line_step_nil option 0 l s1 eq_refl) as Hp.
      destruct (line_step option 0 l s1) as [[l'| |] s2]; simpl in Hp;
        try discriminate; reflexivity.
  - destruct fuel as [|fuel]; [lia|]. simpl.
    destruct (Z.ltb 0 (Bytes option)); simpl.
    + unfold bind. pose proof (byte_step_nil option 0 l s1 eq_refl) as Hp.
      destruct (byte_step option 0 l s1) as [[r| |] s2]; simpl in Hp;
        try discriminate; reflexivity.
    + reflexivity.
Qed.

End Errors.

(** ** Termination of the byte loop *)

Section ByteTermination.

Context {ext : Collaborators}.




End ByteTermination.

(** ** Compressed runs complete *)

Section Compressed.

Context {ext : Collaborators}.

Lemma NewLog_denied (format : string) (d : Z) (s : OS) :
  exists log s', NewLog format d s = (Returned log, s') /\ denied s' = denied s.
Proof.
  unfold NewLog, bind, draw, emit, modify, get_os, ret.
  repeat match goal with |- context [if ?b then _ else _] => destruct b end;
    simpl; do 2 eexists; split; reflexivity.
Qed.

Lemma Write_denied (w : Writer) (data : string) (s : OS) :
  w <> NilWriter ->
  exists r s', Write w data s = (Returned r, s') /\ denied s' = denied s.
Proof.
  intros Hw. unfold Write, bind, emit, modify, ret.
  destruct w as [| |fd|fd]; [contradiction| | |]; simpl.
  - unfold Stdout_Write. destruct (stdout_open s); simpl; do 2 eexists; split; reflexivity.
  - unfold File_Write. destruct (fds s !! fd); simpl; do 2 eexists; split; reflexivity.
  - unfold Gzip_Write. destruct (gzips s !! fd) as [z|]; simpl;
      [destruct (gz_closed z); simpl|]; do 2 eexists; split; reflexivity.
Qed.

Lemma Close_denied (w : Writer) (s : OS) :
  w <> NilWriter ->
  exists r s', Close w s = (Returned r, s') /\ denied s' = denied s.
Proof.
  intros Hw. unfold Close, bind, emit, modify, ret.
  destruct w as [| |fd|fd]; [contradiction| | |]; simpl.
  - unfold Stdout_Close. destruct (stdout_open s); simpl; do 2 eexists; split; reflexivity.
  - unfold File_Close. destruct (fds s !! fd); simpl; do 2 eexists; split; reflexivity.
  - unfold Gzip_Close, bind, get_os, modify, ret. simpl.
    destruct (gzips s !! fd) as [z|]; simpl;
      [destruct (gz_closed z); simpl|]; try (do 2 eexists; split; reflexivity).
    unfold File_Write. destruct (fds s !! fd); simpl; do 2 eexists; split; reflexivity.
Qed.

Lemma Println_denied (a b : string) (s : OS) :
  exists s', Println a b s = (Returned tt, s') /\ denied s' = denied s.
Proof.
  unfold Println, bind, emit, modify, ret, Stdout_Write.
  destruct (stdout_open s); simpl; eexists; split; reflexivity.
Qed.

Lemma NewWriter_gz_ready (name : string) (s : OS) :
  denied s = ∅ ->
  exists fd s', NewWriter "gz" name s = (Returned (GzipWriter fd, None), s')
                /\ denied s' = ∅.
Proof.
  intros Hd. unfold NewWriter, bind, Create, OpenFile, Gzip_NewWriter, emit, modify, ret.
  simpl. destruct (decide (name ∈ denied s)) as [Hin|_].
  - rewrite Hd in Hin. now apply not_elem_of_empty in Hin.
  - destruct (files s !! name); simpl; do 2 eexists; split; reflexivity || exact Hd.
Qed.

Lemma rollover_gz (option : Option) (l : locals) (s : OS) :
  Type_ option = "gz" -> gz_ready l s ->
  exists l' s', rollover option l s = (Returned l', s') /\ gz_ready l' s'.
Proof.
  intros Ht ((fd & Hw) & Hd). unfold rollover, bind.
  destruct (Close_denied (writer l) s) as (r & s1 & E1 & D1); [now rewrite Hw|].
  rewrite E1.
  destruct (Println_denied (logFileName l) "is created." s1) as (s2 & E2 & D2).
  rewrite E2. rewrite Ht.
  destruct (NewWriter_gz_ready (NewSplitFileName (Output option) (splitCount l)) s2)
    as (fd' & s3 & E3 & D3); [congruence|].
  rewrite E3. unfold ret. do 2 eexists. split; [reflexivity|].
  split; [now exists fd' | exact D3].
Qed.

Lemma line_step_gz (option : Option) (line : Z) (l : locals) (s : OS) :
  Type_ option = "gz" -> gz_ready l s ->
  exists l' s', line_step option line l s = (Returned l', s') /\ gz_ready l' s'.
Proof.
  intros Ht ((fd & Hw) & Hd). unfold line_step, bind.
  destruct (NewLog_denied (Format option) (delta l) s) as (log & s1 & E1 & D1).
  rewrite E1.
  destruct (Write_denied (writer l) (log ++ newline) s1) as (r & s2 & E2 & D2);
    [now rewrite Hw|].
  rewrite E2.
  destruct (line_guard option line l).
  - destruct (rollover_gz option l s2 Ht) as (l' & s3 & E3 & (fd' & Hw') & D3).
    { split; [now exists fd | congruence]. }
    rewrite E3. unfold ret. do 2 eexists. split; [reflexivity|].
    split; [now exists fd' | exact D3].
  - unfold ret. do 2 eexists. split; [reflexivity|].
    split; [now exists fd | congruence].
Qed.

Lemma line_loop_gz (option : Option) (n : nat) :
  Type_ option = "gz" ->
  forall line l s,
    gz_ready l s ->
    exists l' s', line_loop option n line l s = (Returned l', s') /\ gz_ready l' s'.
Proof.
  intros Ht. induction n as [|n IH]; intros line l s Hr; simpl.
  - unfold ret. eauto.
  - unfold bind.
    destruct (line_step_gz option line l s Ht Hr) as (l1 & s1 & E1 & Hr1).
    rewrite E1. apply IH. exact Hr1.
Qed.

(** A run in line-count mode of the compressed-file kind, on a machine that
    denies no path, returns nil. *)
Lemma Generate_gz_returns (fuel : nat) (option : Option) (s : OS) :
  Type_ option = "gz" -> Bytes option = 0 -> denied s = ∅ ->
  fst (Generate fuel option s) = Returned None.
Proof.
  intros Ht HB Hd. unfold Generate, bind. rewrite Ht at 1.
  destruct (NewWriter_gz_ready (Output option) s Hd) as (fd & s1 & E1 & D1).
  rewrite E1. simpl. rewrite HB. simpl.
  destruct (line_loop_gz option (Z.to_nat (Number option)) Ht 0
              {| splitCount := 1; delta := 0; logFileName := Output option;
                 writer := GzipWriter fd |} s1) as (l' & s2 & E2 & (fd' & Hw') & D2).
  { split; [now exists fd | exact D1]. }
  rewrite E2. rewrite Ht. simpl.
  destruct (Close_denied (writer l') s2) as (r & s3 & E3 & D3); [now rewrite Hw'|].
  rewrite E3.
  destruct (Println_denied (logFileName l') "is created." s3) as (s4 & E4 & D4).
  rewrite E4. reflexivity.
Qed.

End Compressed.

(** * The claims *)

Section Claims.

Context {ext : Collaborators}.

(** C1, as amended.  In a run whose output kind is not the standard output
    and whose split threshold [T] is positive, an iteration rolls over
    (closes the writer and counts one more split) exactly when the
    accumulator strictly exceeds [T * splitCount + 1]: the lines written so
    far, the one just written included, in line-count mode; the bytes of
    line content written so far in byte-count mode.  So, in line-count
    mode, a completed run of [L] lines leaves a first file of [T + 2] lines
    (all [L] when there are fewer), files of [T] lines after it and a last
    file with the rest: [1 + (L - 2) / T] files when [L >= 2] and one file
    otherwise, each announced once.  A run of the compressed-file kind on
    a machine that denies no path does complete. *)
Theorem rollover_rule (option : Option) :
  Type_ option <> "stdout" -> 0 < SplitBy option ->
  let T := SplitBy option in
  let L := Number option in
  (forall line l s,
      0 <= splitCount l -> T * splitCount l < Int.max_int ->
      match line_step option line l s with
      | (Returned l', s') =>
          let rolls := Z.ltb (T * splitCount l + 1) (line + 1) in
          splitCount l' = splitCount l + Z.b2z rolls
          /\ count is_close (trace s')
             = (count is_close (trace s) + Nat.b2n rolls)%nat
      | _ => True
      end)
  /\ (forall bytes l s,
         0 <= splitCount l -> T * splitCount l < Int.max_int ->
         match byte_step option bytes l s with
         | (Returned (bytes', l'), s') =>
             let rolls := Z.ltb (T * splitCount l + 1) bytes' in
             (exists log evs,
                 trace s' = (evs ++ Produced log :: trace s)%list
                 /\ bytes' = Int.add bytes (Z.of_nat (String.length log)))
             /\ splitCount l' = splitCount l + Z.b2z rolls
             /\ count is_close (trace s')
                = (count is_close (trace s) + Nat.b2n rolls)%nat
         | _ => True
         end)
  /\ (forall fuel s,
         Bytes option = 0 -> 0 <= L -> L + T <= Int.max_int -> trace s = [] ->
         fst (Generate fuel option s) = Returned None ->
         let t := trace (snd (Generate fuel option s)) in
         fst (segments t) = segment_sizes T L
         /\ hd 0 (segment_sizes T L) = Z.min L (T + 2)
         /\ Forall (fun n => 0 <= n <= T) (tl (segment_sizes T L))
         /\ Z.of_nat (count is_notice t) = split_files T L
         /\ Z.of_nat (count is_open t) = split_files T L
         /\ Z.of_nat (count is_close t) = split_files T L)
  /\ (forall fuel s,
         Type_ option = "gz" -> Bytes option = 0 -> denied s = ∅ ->
         fst (Generate fuel option s) = Returned None).
Proof.
  intros Hs HT T L. split; [|split; [|split]].
  4: { intros fuel s. apply Generate_gz_returns. }
  - intros line l s Hsc Hmax.
    pose proof (line_step_post option line l s) as H. unfold post in H.
    destruct (line_step option line l s) as [[l'| |] s']; simpl in H; trivial.
    destruct H as (log & Hit).
    rewrite line_guard_rule in Hit by (trivial; subst T; lia).
    apply (iteration_rolls _ _ _ _ _ _ _ Hsc) in Hit; [exact Hit | subst T; nia].
  - intros bytes l s Hsc Hmax.
    pose proof (byte_step_post option bytes l s) as H. unfold post in H.
    destruct (byte_step option bytes l s) as [[[bytes' l']| |] s']; simpl in H; trivial.
    destruct H as (log & Hb & Hit).
    rewrite byte_guard_rule in Hit by (trivial; subst T; lia).
    split.
    + exists log. destruct Hit as [_ Hit].
      destruct (Z.ltb (SplitBy option * splitCount l + 1) bytes').
      * destruct Hit as (we & ce & w & oe & _ & Ht).
        exists [ Opened (Type_ option)
                   (NewSplitFileName (Output option) (splitCount l)) w oe;
                 Printed (notice (logFileName l)); Closed (writer l) ce;
                 Wrote (writer l) (log ++ newline) we ].
        split; [rewrite Ht; reflexivity | exact Hb].
      * destruct Hit as (we & _ & Ht).
        exists [ Wrote (writer l) (log ++ newline) we ].
        split; [rewrite Ht; reflexivity | exact Hb].
    + apply (iteration_rolls _ _ _ _ _ _ _ Hsc) in Hit; [exact Hit | subst T; nia].
  - intros fuel s HB HL Hmax Ht0 Hret.
    pose proof (Generate_split_run fuel option s Hs HT HB HL Hmax Ht0) as H.
    unfold post, split_run in H. destruct (H Hret) as (H1 & H2 & H3 & H4).
    repeat split; trivial.
    + now apply first_segment_size.
    + now apply later_segment_sizes.
Qed.


(** C4, as amended.  [Generate] returns an error exactly when its first
    [NewWriter] call fails, with that error and before anything is
    produced or written; the results of the writes inside the loop are
    dropped, so a failing write never makes the run return an error. *)
Theorem initial_open_error_only (fuel : nat) (option : Option) (s : OS) :
  (forall e,
      fst (Generate fuel option s) = Returned (Some e)
      <-> exists w, fst (NewWriter (Type_ option) (Output option) s)
                    = Returned (w, Some e))
  /\ (forall w e,
         fst (NewWriter (Type_ option) (Output option) s) = Returned (w, Some e) ->
         snd (Generate fuel option s)
         = snd (NewWriter (Type_ option) (Output option) s)).
Proof.
  pose proof (Generate_error fuel option s) as H.
  destruct (NewWriter (Type_ option) (Output option) s) as [[[w [e0|]]| |] s1];
    simpl in *.
  - rewrite H. simpl. split.
    + intros e. split.
      * intros E. injection E as <-. now exists w.
      * intros (w' & E). now injection E as _ <-.
    + reflexivity.
  - split.
    + intros e. split; [intros E; now apply H in E | intros (w' & E); discriminate].
    + discriminate.
  - split.
    + intros e. split; [intros E; now apply H in E | intros (w' & E); discriminate].
    + discriminate.
  - split.
    + intros e. split; [intros E; now apply H in E | intros (w' & E); discriminate].
    + discriminate.
Qed.

(** C5, on the code.  [NewWriter] of the persistent-file kind opens the
    path read-write in append mode without asking for creation: on a path
    that is within reach and not on the disk it fails with [ENOENT] and
    creates nothing, where the claim has the file created. *)
Theorem log_writer_creates_nothing (name : string) (s : OS) :
  files s !! name = None -> name ∉ denied s ->
  fst (NewWriter "log" name s) = Returned (NilWriter, Some ENOENT)
  /\ files (snd (NewWriter "log" name s)) !! name = None.
Proof.
  intros Hf Hd. rewrite (NewWriter_log_absent name s Hf Hd). simpl.
  split; [reflexivity | exact Hf].
Qed.

(** C6, on the code.  The handle of the compressed-file kind is the
    compressor alone: closing it closes the compressor, after what was
    pending went to the file, and leaves the descriptor of the file open,
    where the claim has the descriptor closed as well. *)
Theorem gzip_close_keeps_descriptor (fd : nat) (z : compressor) (d : descriptor)
  (s : OS) :
  gzips s !! fd = Some z -> gz_closed z = false -> fds s !! fd = Some d ->
  let s' := snd (Close (GzipWriter fd) s) in
  gzips s' !! fd = Some {| gz_pending := ""; gz_closed := true |}
  /\ is_Some (fds s' !! fd)
  /\ ((String.length (gzip_encode (gz_pending z)) <= free_space s)%nat ->
      files s' !! fd_path d
      = Some (write_at d (default "" (files s !! fd_path d))
                (gzip_encode (gz_pending z)))).
Proof.
  intros Hz Hc Hd.
  destruct (Close_gzip fd z d s Hz Hc Hd) as (err & s1 & E & Hg & (d' & Hd' & _) & Hfit).
  rewrite E. simpl. repeat split.
  - exact Hg.
  - now exists d'.
  - intros Hle. now destruct (Hfit Hle).
Qed.

(** C7.  A run whose output kind is the standard output never rolls over,
    whatever its split threshold: [NewWriter] is called once, nothing is
    closed, no notice is printed, every write goes to [os.Stdout] and the
    console receives the lines written and nothing else; no file and no
    descriptor is touched, and the run does not panic. *)
Theorem stdout_never_splits (fuel : nat) (option : Option) (s : OS) :
  Type_ option = "stdout" ->
  let o := fst (Generate fuel option s) in
  let s' := snd (Generate fuel option s) in
  (o = Returned None \/ (o = OutOfFuel /\ Bytes option <> 0))
  /\ files s' = files s /\ fds s' = fds s
  /\ exists evs,
       trace s' = (evs ++ trace s)%list
       /\ count is_open evs = 1%nat
       /\ count is_close evs = 0%nat
       /\ count is_notice evs = 0%nat
       /\ (forall w data err, In (Wrote w data err) evs -> w = StdoutWriter)
       /\ console s' = if stdout_open s
                       then console s ++ joined (written evs)
                       else console s.
Proof.
  intros Hs o s'.
  pose proof (Generate_stdout_run fuel option s Hs) as H.
  unfold post, stdout_run in H. fold o s' in H.
  destruct H as (Ho & (Hf & Hd & _) & _ & evs & Ht & Hev & Hop & Hc).
  destruct (stdout_events_quiet evs Hev) as (Hcl & Hno & Hw).
  repeat split; trivial. exists evs. repeat split; trivial.
Qed.

(** C8, as amended.  The name derivation takes as extension the substring
    from the last dot of the final element of the base path (what follows
    its last separator) to the end, empty when that element has no dot, and
    returns stem, decimal index and extension, where the stem is the path
    without the extension.  The three names of the claim come out as
    stated. *)
Theorem split_name_extension (path : string) (n : Z) :
  Ext path = spec_ext (final_element path)
  /\ (exists stem,
         path = stem ++ Ext path
         /\ NewSplitFileName path n = stem ++ Itoa n ++ Ext path)
  /\ NewSplitFileName "generated.log" 2 = "generated2.log"
  /\ NewSplitFileName "archive.tar.gz" 3 = "archive.tar3.gz"
  /\ NewSplitFileName "noext" 5 = "noext5".
Proof.
  split; [apply Ext_final_element|]. split; [|repeat split].
  destruct (Ext_suffix path) as [stem Hstem]. exists stem. split; [exact Hstem|].
  unfold NewSplitFileName. rewrite Hstem at 1. now rewrite TrimSuffix_append.
Qed.

(** C9, as amended.  The handle of the standard-output kind is
    [os.Stdout] itself, and [Generate] never calls [Close] on it: a run on
    the standard output makes no close call and leaves the standard output
    as open as it found it. *)
Theorem stdout_never_closed (fuel : nat) (option : Option) (s : OS) :
  Type_ option = "stdout" ->
  let s' := snd (Generate fuel option s) in
  fst (NewWriter (Type_ option) (Output option) s) = Returned (StdoutWriter, None)
  /\ stdout_open s' = stdout_open s
  /\ exists evs, trace s' = (evs ++ trace s)%list /\ count is_close evs = 0%nat.
Proof.
  intros Hs s'.
  pose proof (Generate_stdout_run fuel option s Hs) as H.
  unfold post, stdout_run in H. fold s' in H.
  destruct H as (_ & _ & Ho & evs & Ht & Hev & _).
  destruct (stdout_events_quiet evs Hev) as (Hcl & _).
  pose proof (NewWriter_post (Type_ option) (Output option) s) as HN.
  unfold post in HN. destruct HN as (w & err & HN & _ & _ & Hstd).
  destruct (Hstd Hs) as (-> & -> & _).
  repeat split; trivial. now exists evs.
Qed.

(** C10.  For a log type outside [stdout], [log] and [gz], [NewWriter]
    returns the nil writer together with a nil error; a write through the
    nil writer panics, and so does every run of [Generate] with such a
    type. *)
Theorem unknown_type_nil_writer (logType name : string) (s : OS) :
  logType <> "stdout" -> logType <> "log" -> logType <> "gz" ->
  NewWriter logType name s
  = (Returned (NilWriter, None), log_event (Opened logType name NilWriter None) s)
  /\ (forall data s1, Write NilWriter data s1 = (Panicked, s1))
  /\ (forall fuel option s0,
         Type_ option = logType -> (0 < fuel)%nat ->
         fst (Generate fuel option s0) = Panicked).
Proof.
  intros H1 H2 H3. split; [now apply NewWriter_unknown|]. split.
  - reflexivity.
  - intros fuel option s0 <- Hfuel. now apply Generate_nil.
Qed.

End Claims.

(** * The claims on a concrete machine *)

(** C1 on a run of five lines split every two, compressed: files of four
    lines and one line. *)
Lemma rollover_rule_witness :
  let option := Demo.options "apache_combined" "gz" 5 0 2 in
  let t := trace (snd (Generate 0 option (Demo.boot 1000))) in
  Type_ option <> "stdout" /\ 0 < SplitBy option
  /\ fst (segments t) = [4; 1]
  /\ Z.of_nat (count is_notice t) = 2.
Proof.
  intros option t.
  assert (H1 : Type_ option <> "stdout") by discriminate.
  assert (H2 : 0 < SplitBy option) by reflexivity.
  split; [exact H1|]. split; [exact H2|].
  destruct (rollover_rule option H1 H2) as (_ & _ & H & Hgz).
  destruct (H 0%nat (Demo.boot 1000)) as (E1 & _ & _ & E2 & _).
  - reflexivity.
  - vm_compute. discriminate.
  - vm_compute. discriminate.
  - reflexivity.
  - apply Hgz; reflexivity.
  - split; [exact E1 | exact E2].
Defined.

(** C1 as stated fails on three lines split every line: the run leaves two
    files, of three lines and none, where the claim has three files and a
    first file of at most two lines. *)
Lemma rollover_rule_as_claimed_fails :
  parses (Demo.options "apache_combined" "gz" 3 0 1) = true
  /\ fst (Generate 0 (Demo.options "apache_combined" "gz" 3 0 1) (Demo.boot 1000))
     = Returned None
  /\ ~ claimed_segments (Demo.options "apache_combined" "gz" 3 0 1) (Demo.boot 1000).
Proof.
  split; [reflexivity|]. split; [vm_compute; reflexivity|].
  unfold claimed_segments. vm_compute. intros [H _]. discriminate H.
Qed.


(** C4 as stated fails on a full disk: both writes fail with [ENOSPC] and
    [Generate] returns nil. *)
Lemma write_error_as_claimed_fails :
  parses (Demo.options "apache_combined" "log" 2 0 0) = true
  /\ ~ claimed_write_error_fatal (Demo.options "apache_combined" "log" 2 0 0)
        (Demo.with_file "generated.log" "" (Demo.boot 0)).
Proof.
  split; [reflexivity|].
  unfold claimed_write_error_fatal. intros H.
  destruct H as [e E].
  - exists (FileWriter 3), (terminated "a"), ENOSPC. vm_compute. tauto.
  - vm_compute in E. discriminate E.
Qed.

(** C5 on the first split file of a run: the file is not on the disk, and
    [NewWriter] fails without creating it. *)
Lemma log_writer_creates_nothing_witness :
  let s := Demo.with_file "generated.log" "old" (Demo.boot 1000) in
  files s !! "generated1.log" = None /\ ("generated1.log" ∉ denied s)
  /\ fst (NewWriter "log" "generated1.log" s) = Returned (NilWriter, Some ENOENT)
  /\ files (snd (NewWriter "log" "generated1.log" s)) !! "generated1.log" = None.
Proof.
  intros s.
  assert (H1 : files s !! "generated1.log" = None) by (vm_compute; reflexivity).
  assert (H2 : "generated1.log" ∉ denied s) by apply not_elem_of_empty.
  split; [exact H1|]. split; [exact H2|].
  exact (log_writer_creates_nothing "generated1.log" s H1 H2).
Defined.

(** The first rollover of a run of the persistent-file kind: the next file
    is not on the disk, [NewWriter] fails, its error is dropped, and the
    write of the next line goes through the nil writer. *)
Example log_rollover_panics :
  let r := Generate 0 (Demo.options "apache_combined" "log" 4 0 1)
             (Demo.with_file "generated.log" "old" (Demo.boot 1000)) in
  fst r = Panicked
  /\ written (trace (snd r)) = [terminated "a"; terminated "b"; terminated "c"]
  /\ In (Opened "log" "generated1.log" NilWriter (Some ENOENT)) (trace (snd r)).
Proof. vm_compute. tauto. Qed.

(** C6 on a compressed file that received one line. *)
Lemma gzip_close_keeps_descriptor_witness :
  let s := snd (Write (GzipWriter 3) "hello"
                  (snd (NewWriter "gz" "a.gz" (Demo.boot 1000)))) in
  let z := {| gz_pending := "hello"; gz_closed := false |} in
  let d := {| fd_path := "a.gz"; fd_append := false; fd_offset := 0 |} in
  gzips s !! 3%nat = Some z /\ gz_closed z = false /\ fds s !! 3%nat = Some d
  /\ is_Some (fds (snd (Close (ext := Demo.collaborators) (GzipWriter 3) s)) !! 3%nat)
  /\ files (snd (Close (ext := Demo.collaborators) (GzipWriter 3) s)) !! "a.gz"
     = Some "GZ[hello]".
Proof.
  intros s z d.
  assert (H1 : gzips s !! 3%nat = Some z) by (vm_compute; reflexivity).
  assert (H2 : gz_closed z = false) by reflexivity.
  assert (H3 : fds s !! 3%nat = Some d) by (vm_compute; reflexivity).
  repeat (split; [assumption|]).
  destruct (gzip_close_keeps_descriptor (ext := Demo.collaborators) 3 z d s H1 H2 H3)
    as (_ & E1 & E2).
  split; [exact E1|].
  assert (E3 := E2 ltac:(vm_compute; lia)). simpl fd_path in E3.
  rewrite E3. vm_compute. reflexivity.
Defined.

(** A compressed run of four lines split every line: three files, whose
    three descriptors are all still open when [Generate] returns. *)
Example gz_run_leaks_descriptors :
  let r := Generate 0 (Demo.options "apache_combined" "gz" 4 0 1) (Demo.boot 1000) in
  fst r = Returned None
  /\ fd_path <$> (fds (snd r) !! 3%nat) = Some "generated.log"
  /\ fd_path <$> (fds (snd r) !! 4%nat) = Some "generated1.log"
  /\ fd_path <$> (fds (snd r) !! 5%nat) = Some "generated2.log".
Proof. vm_compute. tauto. Qed.

(** C7 on three lines with a split threshold of 2. *)
Lemma stdout_never_splits_witness :
  let option := Demo.options "apache_combined" "stdout" 3 0 2 in
  let s' := snd (Generate 0 option (Demo.boot 1000)) in
  Type_ option = "stdout"
  /\ files s' = files (Demo.boot 1000)
  /\ count is_notice (trace s') = 0%nat
  /\ console s' = terminated "a" ++ terminated "b" ++ terminated "c".
Proof.
  intros option s'.
  assert (H1 : Type_ option = "stdout") by reflexivity.
  split; [exact H1|].
  destruct (stdout_never_splits 0 option (Demo.boot 1000) H1)
    as (_ & E1 & _ & evs & E2 & _ & _ & E3 & _ & E4).
  split; [exact E1|]. split.
  - fold s' in E2. change (trace (Demo.boot 1000)) with (@nil event) in E2.
    rewrite app_nil_r in E2. rewrite E2. exact E3.
  - vm_compute. reflexivity.
Defined.

(** C8 as stated fails on a path whose last dot is in a directory name:
    the code appends the index, the extension of the whole path would put
    it before the dot. *)
Lemma split_name_as_claimed_fails : ~ claimed_derived_name "logs.d/noext" 5.
Proof.
  unfold claimed_derived_name. vm_compute. discriminate.
Qed.

(** C9 on three lines. *)
Lemma stdout_never_closed_witness :
  let option := Demo.options "apache_combined" "stdout" 3 0 0 in
  Type_ option = "stdout"
  /\ stdout_open (snd (Generate 0 option (Demo.boot 1000))) = true.
Proof.
  intros option.
  assert (H1 : Type_ option = "stdout") by reflexivity.
  split; [exact H1|].
  destruct (stdout_never_closed 0 option (Demo.boot 1000) H1) as (_ & E & _).
  exact E.
Defined.

(** C9 as stated fails: closing the handle [NewWriter] returns for the
    standard output closes the standard output. *)
Lemma stdout_close_as_claimed_fails :
  stdout_open (Demo.boot 0) = true
  /\ ~ claimed_close_noop (ext := Demo.collaborators) "generated.log" (Demo.boot 0).
Proof.
  split; [reflexivity|].
  unfold claimed_close_noop. vm_compute. discriminate.
Qed.

(** C10 on the log type [zip]. *)
Lemma unknown_type_nil_writer_witness :
  "zip" <> "stdout" /\ "zip" <> "log" /\ "zip" <> "gz"
  /\ fst (NewWriter "zip" "generated.log" (Demo.boot 1000)) = Returned (NilWriter, None)
  /\ fst (Generate 1 (Demo.options "apache_common" "zip" 3 0 0) (Demo.boot 1000))
     = Panicked.
Proof.
  assert (H1 : "zip" <> "stdout") by discriminate.
  assert (H2 : "zip" <> "log") by discriminate.
  assert (H3 : "zip" <> "gz") by discriminate.
  repeat (split; [assumption|]).
  destruct (unknown_type_nil_writer (ext := Demo.collaborators)
              "zip" "generated.log" (Demo.boot 1000) H1 H2 H3)
    as (E1 & _ & E2).
  split.
  - now rewrite E1.
  - apply E2; [reflexivity | repeat constructor].
Defined.

(** * Further properties of the code *)

(** ** Split file names *)

Lemma append_cancel_l (a b c : string) : a ++ b = a ++ c -> b = c.
Proof.
  induction a as [|x a IH]; str_simpl; [trivial|].
  intros H. injection H as H. now apply IH.
Qed.

Lemma append_cancel_r (a b c : string) : a ++ c = b ++ c -> a = b.
Proof.
  revert b. induction a as [|x a IH]; intros [|y b]; str_simpl; intros H.
  - reflexivity.
  - exfalso. apply (f_equal String.length) in H. simpl in H.
    rewrite length_append in H. lia.
  - exfalso. apply (f_equal String.length) in H. simpl in H.
    rewrite length_append in H. lia.
  - injection H as -> H. f_equal. now apply IH.
Qed.

Lemma Itoa_inj (n m : Z) : Itoa n = Itoa m -> n = m.
Proof.
  unfold Itoa. intros H.
  assert (Hnil : forall z, Z.to_int z <> Decimal.Pos Decimal.Nil
                           /\ Z.to_int z <> Decimal.Neg Decimal.Nil).
  { intros [|p|p]; simpl; split; try discriminate;
      intros E; injection E as E; now apply DecimalPos.Unsigned.to_uint_nonnil in E. }
  apply DecimalZ.to_int_inj.
  assert (E : Some (Z.to_int n) = Some (Z.to_int m)); [|now injection E].
  rewrite <- (NilZero.isi (Z.to_int n)) by apply Hnil.
  rewrite <- (NilZero.isi (Z.to_int m)) by apply Hnil.
  now rewrite H.
Qed.

(** The bytes of a decimal number are digits and at most a minus sign. *)
Lemma digits_plain (c : ascii) (d : Decimal.uint) :
  c = dot \/ c = slash -> occurs c (NilEmpty.string_of_uint d) = false.
Proof.
  intros Hc. induction d; simpl; trivial; rewrite IHd;
    destruct Hc as [-> | ->]; reflexivity.
Qed.

Lemma Itoa_plain (c : ascii) (n : Z) :
  c = dot \/ c = slash -> occurs c (Itoa n) = false.
Proof.
  intros Hc. unfold Itoa.
  assert (G : forall d, occurs c (NilZero.string_of_uint d) = false).
  { intros d. unfold NilZero.string_of_uint.
    destruct d; try apply (digits_plain c _ Hc).
    destruct Hc as [-> | ->]; reflexivity. }
  destruct (Z.to_int n) as [d|d]; simpl; [apply G|].
  rewrite G. destruct Hc as [-> | ->]; reflexivity.
Qed.

Lemma Itoa_length (n : Z) : (0 < String.length (Itoa n))%nat.
Proof.
  unfold Itoa. destruct n as [|p|p]; simpl; try lia.
  unfold NilZero.string_of_uint. destruct (Pos.to_uint p); simpl; lia.
Qed.

Lemma NewSplitFileName_parts (path : string) :
  exists stem,
    path = stem ++ Ext path
    /\ forall n, NewSplitFileName path n = stem ++ Itoa n ++ Ext path.
Proof.
  destruct (Ext_suffix path) as [stem Hstem]. exists stem. split; [exact Hstem|].
  intros n. unfold NewSplitFileName. rewrite Hstem at 1. now rewrite TrimSuffix_append.
Qed.

Lemma spec_ext_no_dot (s : string) : spec_ext s = "" -> occurs dot s = false.
Proof.
  induction s as [|c s IH]; simpl; [reflexivity|].
  destruct (spec_ext s) as [|e0 e]; [|discriminate].
  destruct (Ascii.eqb c dot); [discriminate|]. intros _. now apply IH.
Qed.

Lemma spec_ext_shape (s : string) :
  spec_ext s = ""
  \/ exists rest, spec_ext s = String dot rest /\ occurs dot rest = false.
Proof.
  induction s as [|c s IH]; simpl; [now left|].
  destruct (spec_ext s) as [|e0 e] eqn:E.
  - destruct (Ascii.eqb_spec c dot) as [->|Hc]; [|now left].
    right. exists s. split; [reflexivity | now apply spec_ext_no_dot].
  - exact IH.
Qed.

Lemma final_element_no_slash (s : string) : occurs slash (final_element s) = false.
Proof.
  induction s as [|c s IH]; simpl; [reflexivity|].
  destruct (occurs slash s) eqn:E; [exact IH|].
  unfold IsPathSeparator. destruct (Ascii.eqb c slash) eqn:Ec; [exact E|].
  simpl. now rewrite Ec, E.
Qed.

Lemma occurs_suffix (c : ascii) (a b : string) :
  occurs c (a ++ b) = false -> occurs c b = false.
Proof. rewrite occurs_append. now intros H%orb_false_iff. Qed.

(** X1.  [NewSplitFileName] keeps the extension of the base path: the
    derived name has the extension [filepath.Ext] finds on the base, for
    every split count. *)
Theorem split_name_keeps_extension (path : string) (n : Z) :
  Ext (NewSplitFileName path n) = Ext path.
Proof.
  destruct (NewSplitFileName_parts path) as (stem & Hstem & Hname).
  rewrite Hname.
  pose proof (Ext_final_element path) as He.
  pose proof (final_element_no_slash path) as Hns.
  destruct (final_element_suffix path) as [dir Hdir].
  destruct (spec_ext_suffix (final_element path)) as [base Hbase].
  rewrite <- He in Hbase.
  remember (Ext path) as e eqn:Ee. clear Ee.
  assert (Hdir0 : final_element dir = "").
  { apply (append_cancel_r _ _ (final_element path)). str_simpl.
    rewrite <- final_element_append by exact Hns. now rewrite <- Hdir. }
  assert (Es : stem = dir ++ base).
  { apply (append_cancel_r _ _ e).
    rewrite append_assoc, <- Hbase, <- Hdir. now symmetry. }
  rewrite Hbase in Hns. rewrite occurs_append in Hns.
  apply orb_false_iff in Hns as [Hnb Hne].
  rewrite Ext_final_element.
  destruct (spec_ext_shape (final_element path)) as [E|(rest & E & Hrest)];
    rewrite <- He in E; rewrite E in *.
  - rewrite append_empty_r in *. rewrite Es, append_assoc.
    rewrite final_element_append, Hdir0.
    + str_simpl. apply spec_ext_none.
      rewrite occurs_append, Itoa_plain by now left.
      rewrite orb_false_r. apply spec_ext_no_dot. now rewrite <- Hbase.
    + rewrite occurs_append, Hnb. apply Itoa_plain. now right.
  - rewrite <- append_assoc.
    rewrite final_element_append by exact Hne.
    now apply spec_ext_last_dot.
Qed.

Lemma NewSplitFileName_length (path : string) (n : Z) :
  String.length (NewSplitFileName path n)
  = (String.length path + String.length (Itoa n))%nat.
Proof.
  destruct (NewSplitFileName_parts path) as (stem & Hstem & Hname).
  rewrite Hname. rewrite Hstem at 2. rewrite !length_append. lia.
Qed.

Lemma NewSplitFileName_fresh (path : string) (n : Z) : NewSplitFileName path n <> path.
Proof.
  intros E. pose proof (NewSplitFileName_length path n) as Hlen.
  rewrite E in Hlen. pose proof (Itoa_length n). lia.
Qed.

(** X2.  The names derived from one base path never collide: two split
    counts give the same name only when they are equal, and no derived
    name is the base path itself, being longer by the digits of the
    count. *)
Theorem split_names_distinct (path : string) (n m : Z) :
  (NewSplitFileName path n = NewSplitFileName path m -> n = m)
  /\ NewSplitFileName path n <> path
  /\ String.length (NewSplitFileName path n)
     = (String.length path + String.length (Itoa n))%nat.
Proof.
  split; [|split; [apply NewSplitFileName_fresh | apply NewSplitFileName_length]].
  destruct (NewSplitFileName_parts path) as (stem & Hstem & Hname).
  rewrite !Hname. intros H.
  apply append_cancel_l, append_cancel_r in H. now apply Itoa_inj.
Qed.

(** ** The checks and what they guard *)

Section Checks.

Context {ext : Collaborators}.

Lemma ParseType_accepts (logType : string) :
  snd (ParseType logType) = None
  <-> logType = "stdout" \/ logType = "log" \/ logType = "gz".
Proof.
  unfold ParseType, ContainsString, validTypes. simpl.
  destruct (String.eqb_spec logType "stdout") as [->|H1]; simpl; [tauto|].
  destruct (String.eqb_spec logType "log") as [->|H2]; simpl; [tauto|].
  destruct (String.eqb_spec logType "gz") as [->|H3]; simpl; [tauto|].
  split; [discriminate | tauto].
Qed.

Lemma ParseFormat_accepts (format : string) :
  snd (ParseFormat format) = None <-> generator format <> None.
Proof.
  unfold ParseFormat, ContainsString, validFormats, generator. simpl.
  destruct (String.eqb format "apache_common"); simpl; [split; [discriminate | reflexivity]|].
  destruct (String.eqb format "apache_combined"); simpl; [split; [discriminate | reflexivity]|].
  destruct (String.eqb format "apache_error"); simpl; [split; [discriminate | reflexivity]|].
  destruct (String.eqb format "rfc3164"); simpl; [split; [discriminate | reflexivity]|].
  split; [discriminate | congruence].
Qed.

Lemma NewLog_generator (format : string) (d : Z) (s : OS) :
  NewLog format d s
  = match generator format with
    | Some gen =>
        (Returned (gen (draws s) d),
         log_event (Produced (gen (draws s) d)) (set_draws (S (draws s)) s))
    | None => (Returned "", log_event (Produced "") s)
    end.
Proof.
  unfold NewLog, generator, bind, draw, emit, modify, get_os, ret.
  repeat match goal with |- context [if ?b then _ else _] => destruct b end;
    reflexivity.
Qed.

(** X3.  [ParseType] accepts exactly the log types [NewWriter] has a case
    for.  For an accepted type, which it returns unchanged, [NewWriter]
    yields a writer with a nil error or the nil writer with an error,
    never both nil; for a rejected type it yields both nil. *)
Theorem checked_type_has_writer (logType name : string) (s : OS) :
  (snd (ParseType logType) = None ->
   fst (ParseType logType) = logType
   /\ ((exists w, w <> NilWriter
                  /\ fst (NewWriter logType name s) = Returned (w, None))
       \/ exists e, fst (NewWriter logType name s) = Returned (NilWriter, Some e)))
  /\ (snd (ParseType logType) <> None ->
      fst (ParseType logType) = ""
      /\ fst (NewWriter logType name s) = Returned (NilWriter, None)).
Proof.
  split.
  - intros H. split.
    { unfold ParseType in *. now destruct (negb (ContainsString validTypes logType)). }
    apply ParseType_accepts in H as [-> | [-> | ->]];
      unfold NewWriter, bind, emit, modify, ret; simpl.
    + left. exists StdoutWriter. split; [discriminate | reflexivity].
    + unfold OpenFile. destruct (decide (name ∈ denied s)); simpl.
      * right. now exists EACCES.
      * destruct (files s !! name); simpl.
        -- left. eexists. split; [|reflexivity]. discriminate.
        -- right. now exists ENOENT.
    + unfold Create, OpenFile, Gzip_NewWriter, bind, modify, ret.
      destruct (decide (name ∈ denied s)); simpl.
      * right. now exists EACCES.
      * destruct (files s !! name); simpl;
          left; eexists; (split; [|reflexivity]); discriminate.
  - intros H.
    assert (Hn : ~ (logType = "stdout" \/ logType = "log" \/ logType = "gz")).
    { intros Hin. apply ParseType_accepts in Hin. contradiction. }
    split.
    + unfold ParseType in *. destruct (negb (ContainsString validTypes logType));
        [reflexivity | now contradiction H].
    + rewrite NewWriter_unknown; [reflexivity | tauto..].
Qed.

(** X4.  [ParseFormat] accepts exactly the formats [NewLog] has a generator
    for.  For an accepted format [NewLog] returns the line of that
    generator and uses up one draw of the random source; for a rejected
    format it returns the empty string and draws nothing. *)
Theorem checked_format_has_generator (format : string) (d : Z) (s : OS) :
  (snd (ParseFormat format) = None ->
   fst (ParseFormat format) = format
   /\ exists gen,
        generator format = Some gen
        /\ fst (NewLog format d s) = Returned (gen (draws s) d)
        /\ draws (snd (NewLog format d s)) = S (draws s))
  /\ (snd (ParseFormat format) <> None ->
      fst (NewLog format d s) = Returned ""
      /\ draws (snd (NewLog format d s)) = draws s).
Proof.
  rewrite NewLog_generator. split.
  - intros H. split.
    { unfold ParseFormat in *. now destruct (negb (ContainsString validFormats format)). }
    apply ParseFormat_accepts in H.
    destruct (generator format) as [gen|]; [|contradiction].
    exists gen. repeat split.
  - intros H.
    destruct (generator format) as [gen|] eqn:E; [|split; reflexivity].
    exfalso. apply H, ParseFormat_accepts. congruence.
Qed.

(** The options [parses] accepts are those the five checks return
    unchanged. *)
Lemma parses_checks (o : Option) :
  parses o = true
  <-> (ParseFormat (Format o) = (Format o, None)
       /\ ParseType (Type_ o) = (Type_ o, None)
       /\ ParseNumber (Number o) = (Number o, None)
       /\ ParseBytes (Bytes o) = (Bytes o, None)
       /\ ParseSplitBy (SplitBy o) = (SplitBy o, None)).
Proof.
  unfold parses, ParseFormat, ParseType, ParseNumber, ParseBytes, ParseSplitBy.
  split.
  - intros H.
    apply andb_prop in H as [H H5]. apply andb_prop in H as [H H4].
    apply andb_prop in H as [H H3]. apply andb_prop in H as [H1 H2].
    rewrite H1, H2. simpl.
    apply Z.leb_le in H3, H4, H5.
    repeat split.
    + destruct (Z.ltb_spec (Number o) 0); [lia | reflexivity].
    + destruct (Z.ltb_spec (Bytes o) 0); [lia | reflexivity].
    + destruct (Z.ltb_spec (SplitBy o) 0); [lia | reflexivity].
  - intros (H1 & H2 & H3 & H4 & H5).
    destruct (ContainsString validFormats (Format o)); [|discriminate H1].
    destruct (ContainsString validTypes (Type_ o)); [|discriminate H2].
    destruct (Z.ltb_spec (Number o) 0); [discriminate H3|].
    destruct (Z.ltb_spec (Bytes o) 0); [discriminate H4|].
    destruct (Z.ltb_spec (SplitBy o) 0); [discriminate H5|].
    simpl. rewrite !andb_true_iff. repeat split; now apply Z.leb_le.
Qed.

Lemma line_loop_Overwrite (b : bool) (option : Option) (n : nat) :
  forall line l s,
    line_loop (with_Overwrite b option) n line l s = line_loop option n line l s.
Proof.
  induction n as [|n IH]; intros line l s; simpl; [reflexivity|].
  unfold bind. change (line_step (with_Overwrite b option) line l s)
    with (line_step option line l s).
  destruct (line_step option line l s) as [[l'| |] s1]; [apply IH | reflexivity..].
Qed.

Lemma byte_loop_Overwrite (b : bool) (option : Option) (fuel : nat) :
  forall bytes l s,
    byte_loop (with_Overwrite b option) fuel bytes l s
    = byte_loop option fuel bytes l s.
Proof.
  induction fuel as [|fuel IH]; intros bytes l s; simpl; [reflexivity|].
  destruct (Z.ltb bytes (Bytes option)); [|reflexivity].
  unfold bind. change (byte_step (with_Overwrite b option) bytes l s)
    with (byte_step option bytes l s).
  destruct (byte_step option bytes l s) as [[r| |] s1]; [apply IH | reflexivity..].
Qed.

End Checks.

(** ** The flag that is never read, and the byte target *)

Section Targets.

Context {ext : Collaborators}.

(** X5.  [Generate] never reads the [Overwrite] field: a run does the same
    whatever the flag, so an existing output file is opened in the same way
    with and without it. *)
Theorem overwrite_has_no_effect (b : bool) (fuel : nat) (option : Option) (s : OS) :
  Generate fuel (with_Overwrite b option) s = Generate fuel option s.
Proof.
  unfold Generate, bind. simpl.
  destruct (NewWriter (Type_ option) (Output option) s) as [[[w err]| |] s1];
    [|reflexivity..].
  simpl. destruct err; [reflexivity|].
  destruct (Z.eqb (Bytes option) 0).
  - now rewrite line_loop_Overwrite.
  - now rewrite byte_loop_Overwrite.
Qed.

Lemma wrap_range (z : Z) : Int.in_range (Int.wrap z).
Proof.
  unfold Int.in_range, Int.wrap, Int.min_int, Int.max_int.
  pose proof (Z.mod_pos_bound (z + 2 ^ 63) (2 ^ 64) eq_refl). lia.
Qed.

Lemma accumulated_range (ps : list string) : Int.in_range (accumulated ps).
Proof.
  destruct ps as [|p ps] using rev_ind.
  - unfold Int.in_range, Int.min_int, Int.max_int, accumulated.
    cbn [fold_left]. lia.
  - rewrite accumulated_snoc. apply wrap_range.
Qed.

(** X6.  A run in byte-count mode that returns has produced at least one
    line, was below the target before its last line and is at or above it
    after: it stops within the length of one line of the target, as long as
    that last addition does not overflow. *)
Theorem byte_mode_overshoot (fuel : nat) (option : Option) (s : OS) :
  0 < Bytes option -> trace s = [] ->
  fst (Generate fuel option s) = Returned None ->
  let ps := produced (trace (snd (Generate fuel option s))) in
  let final := Z.of_nat (String.length (List.last ps "")) in
  ps <> []
  /\ accumulated (List.removelast ps) < Bytes option <= accumulated ps
  /\ accumulated ps = Int.add (accumulated (List.removelast ps)) final
  /\ (Bytes option + final <= Int.max_int -> accumulated ps < Bytes option + final).
Proof.
  intros HB Ht0 Hret ps final.
  pose proof (Generate_byte_run fuel option s HB Ht0) as H.
  unfold post, byte_run in H. fold ps in H. destruct H as (_ & Hbelow & Hge).
  specialize (Hge Hret). clearbody ps.
  assert (Hne : ps <> []).
  { intros E. rewrite E in Hge. unfold accumulated in Hge. simpl in Hge. lia. }
  split; [exact Hne|].
  pose proof (List.app_removelast_last "" Hne) as Hsplit.
  unfold final. clear final.
  remember (List.removelast ps) as r eqn:Er.
  remember (List.last ps "") as x eqn:Ex.
  clear Er Ex Hne. subst ps.
  assert (Hprev : accumulated r < Bytes option).
  { specialize (Hbelow (length r)).
    rewrite firstn_snoc_length in Hbelow by reflexivity.
    apply Hbelow. rewrite length_app. simpl. lia. }
  rewrite accumulated_snoc in *.
  repeat split; trivial.
  intros Hfit. unfold Int.add.
  pose proof (accumulated_range r) as Hr.
  rewrite wrap_in_range; [lia|].
  unfold Int.in_range, Int.min_int, Int.max_int in *. lia.
Qed.

Lemma written_app (a b : list event) :
  written (a ++ b)%list = (written b ++ written a)%list.
Proof.
  induction a as [|e a IH]; simpl; [now rewrite app_nil_r|].
  destruct e; rewrite ?IH; trivial. now rewrite app_assoc.
Qed.

Lemma byte_step_empty (option : Option) (l : locals) (s : OS) :
  Type_ option = "stdout" -> generator (Format option) = None ->
  writer l = StdoutWriter ->
  exists e s',
    byte_step option 0 l s = (Returned (0, pace option l), s')
    /\ trace s' = Wrote StdoutWriter newline e :: Produced "" :: trace s.
Proof.
  intros Hs Hg Hw. unfold byte_step, bind.
  rewrite NewLog_generator, Hg, Hw.
  unfold byte_guard. rewrite (splits_stdout _ Hs). simpl.
  unfold Write, bind, Stdout_Write, emit, modify, ret. simpl.
  destruct (stdout_open s); simpl; do 2 eexists; split; reflexivity.
Qed.

Lemma byte_loop_empty (option : Option) :
  Type_ option = "stdout" -> generator (Format option) = None ->
  0 < Bytes option ->
  forall (fuel : nat) (l : locals) (s : OS),
    writer l = StdoutWriter ->
    exists evs s',
      byte_loop option fuel 0 l s = (OutOfFuel, s')
      /\ trace s' = (evs ++ trace s)%list
      /\ written evs = repeat newline fuel.
Proof.
  intros Hs Hg HB. induction fuel as [|fuel IH]; intros l s Hw; simpl.
  - replace (Z.ltb 0 (Bytes option)) with true by (symmetry; now apply Z.ltb_lt).
    exists [], s. repeat split.
  - replace (Z.ltb 0 (Bytes option)) with true by (symmetry; now apply Z.ltb_lt).
    destruct (byte_step_empty option l s Hs Hg Hw) as (e & s1 & E1 & T1).
    unfold bind. rewrite E1. simpl.
    destruct (IH (pace option l) s1 Hw) as (evs & s2 & E2 & T2 & W2).
    exists (evs ++ [Wrote StdoutWriter newline e; Produced ""])%list, s2.
    split; [exact E2|]. split.
    + rewrite T2, T1, <- app_assoc. reflexivity.
    + rewrite written_app, W2. reflexivity.
Qed.

(** X7.  With a byte target, the standard output and a format
    [ParseFormat] rejects, [Generate] never returns: [NewLog] yields the
    empty string, the accumulator stays at 0, and whatever the fuel the run
    is still in its loop, having written one bare line terminator per
    iteration. *)
Theorem unchecked_format_never_returns (fuel : nat) (option : Option) (s : OS) :
  Type_ option = "stdout" -> 0 < Bytes option ->
  snd (ParseFormat (Format option)) <> None ->
  fst (Generate fuel option s) = OutOfFuel
  /\ exists evs,
       trace (snd (Generate fuel option s)) = (evs ++ trace s)%list
       /\ written evs = repeat newline fuel.
Proof.
  intros Hs HB Hf.
  assert (Hg : generator (Format option) = None).
  { destruct (generator (Format option)) eqn:E; [|reflexivity].
    exfalso. apply Hf, ParseFormat_accepts. congruence. }
  unfold Generate, bind.
  pose proof (NewWriter_post (Type_ option) (Output option) s) as HN. unfold post in HN.
  destruct (NewWriter (Type_ option) (Output option) s) as [o s1].
  destruct HN as (w & err & HN & Ht & _ & Hstd). simpl in HN, Ht. subst o.
  destruct (Hstd Hs) as (-> & -> & _). simpl.
  replace (Z.eqb (Bytes option) 0) with false by (symmetry; apply Z.eqb_neq; lia).
  destruct (byte_loop_empty option Hs Hg HB fuel
              {| splitCount := 1; delta := 0; logFileName := Output option;
                 writer := StdoutWriter |} s1 eq_refl) as (evs & s2 & E & T2 & W2).
  rewrite E. simpl. split; [reflexivity|].
  exists (evs ++ [Opened (Type_ option) (Output option) StdoutWriter None])%list.
  split.
  - rewrite T2, Ht, <- app_assoc. reflexivity.
  - rewrite written_app, W2. reflexivity.
Qed.

End Targets.

(** ** A rule for whole runs *)

Section Runs.

Context {ext : Collaborators}.

(** A fact on the final state added to a postcondition. *)
Lemma post_with {A : Type} (m : M A) (s : OS) (Q : outcome A -> OS -> Prop)
  (P : OS -> Prop) :
  post m s Q -> P (snd (m s)) -> post m s (fun o s' => Q o s' /\ P s').
Proof. unfold post. now split. Qed.

(** [Generate] establishes [R] when the first [NewWriter] establishes an
    invariant [I] of the iterations of the loop that is run, and the end of
    the function turns [I] into [R]. *)
Lemma Generate_rule (fuel : nat) (option : Option) (s : OS)
  (I : locals -> OS -> Prop) (R : outcome error -> OS -> Prop) :
  post (NewWriter (Type_ option) (Output option)) s
    (fun o s1 =>
       match o with
       | Returned (w, Some e) => R (Returned (Some e)) s1
       | Returned (w, None) => I (start option w) s1
       | _ => False
       end) ->
  (Bytes option = 0 ->
   forall line l s1,
     I l s1 ->
     post (line_step option line l) s1
       (fun o s' =>
          match o with
          | Returned l' => I l' s'
          | Panicked => R Panicked s'
          | OutOfFuel => False
          end)) ->
  (Bytes option <> 0 ->
   (forall bytes l s1,
      I l s1 ->
      post (byte_step option bytes l) s1
        (fun o s' =>
           match o with
           | Returned r => I (snd r) s'
           | Panicked => R Panicked s'
           | OutOfFuel => False
           end))
   /\ (forall l s1, I l s1 -> R OutOfFuel s1)) ->
  (forall l s1,
     I l s1 ->
     post ((if negb (String.eqb (Type_ option) "stdout")
            then _ <- Close (writer l) ;; Println (logFileName l) "is created."
            else ret tt) ;;; ret None) s1 R) ->
  post (Generate fuel option) s R.
Proof.
  intros Hopen Hline Hbyte Hend. unfold Generate.
  eapply post_seq; [exact Hopen|].
  intros [[w [e|]]| |] s1 H1; simpl; try contradiction.
  { apply post_ret. exact H1. }
  fold (start option w).
  destruct (Z.eqb_spec (Bytes option) 0) as [HB|HB].
  - eapply post_seq.
    + apply (line_loop_post option (fun _ => I) (fun _ => R Panicked)
               (Z.to_nat (Number option)) 0 (start option w) s1); [|exact H1].
      intros line l s2 _. now apply Hline.
    + intros [l'| |] s2; simpl; [apply Hend | now intros (_ & _ & H) | tauto].
  - destruct (Hbyte HB) as [Hstep Hfuel].
    apply post_bind. eapply post_seq.
    + apply (byte_loop_post option (fun _ => I) (R Panicked)); [|exact H1].
      intros bytes l s2 _. now apply Hstep.
    + intros [r| |] s2; simpl.
      * intros [H2 _]. apply post_ret. simpl. now apply Hend.
      * trivial.
      * intros (b & l' & H2 & _). now apply (Hfuel l').
Qed.

(** Both guards need a type other than the standard output and a positive
    threshold. *)
Lemma line_guard_splits (option : Option) (line : Z) (l : locals) :
  line_guard option line l = true -> splits option = true.
Proof. unfold line_guard. now intros [H _]%andb_prop. Qed.

Lemma byte_guard_splits (option : Option) (bytes : Z) (l : locals) :
  byte_guard option bytes l = true -> splits option = true.
Proof. unfold byte_guard. now intros [H _]%andb_prop. Qed.

(** The same rule for an invariant of the trace that every iteration
    keeps, whatever its guard. *)
Lemma Generate_trace_rule (fuel : nat) (option : Option) (s : OS)
  (I : locals -> OS -> Prop) (R : outcome error -> OS -> Prop) :
  (forall w e s1,
     trace s1 = Opened (Type_ option) (Output option) w e :: trace s ->
     match e with
     | Some _ => R (Returned e) s1
     | None => I (start option w) s1
     end) ->
  (forall guard l log s1 l' s',
     (guard = true -> splits option = true) ->
     I l s1 -> iteration option guard l log s1 l' s' -> I l' s') ->
  (forall l s1 s', I l s1 -> aborted l s1 s' -> R Panicked s') ->
  (forall l s1, I l s1 -> R OutOfFuel s1) ->
  (forall l s1, I l s1 -> writer l = NilWriter -> R Panicked s1) ->
  (forall l s1 ce s',
     Type_ option <> "stdout" -> I l s1 -> writer l <> NilWriter ->
     trace s' = Printed (notice (logFileName l)) :: Closed (writer l) ce :: trace s1 ->
     R (Returned None) s') ->
  (forall l s1, Type_ option = "stdout" -> I l s1 -> R (Returned None) s1) ->
  post (Generate fuel option) s R.
Proof.
  intros Hopen Hstep Hpanic Hfuel Hnil Hfile Hstd.
  apply (Generate_rule fuel option s I R).
  - eapply post_mono; [apply NewWriter_post|].
    intros o s1 (w & e & -> & Ht & _). specialize (Hopen w e s1 Ht).
    now destruct e.
  - intros _ line l s1 HI.
    eapply post_mono; [apply line_step_post|].
    intros [l'| |] s' H; [|now apply (Hpanic l s1)|exact H].
    destruct H as [log Hit].
    apply (Hstep _ l log s1 l' s' (line_guard_splits option line l) HI Hit).
  - intros _. split; [|exact Hfuel].
    intros bytes l s1 HI.
    eapply post_mono; [apply byte_step_post|].
    intros [[b l']| |] s' H; [|now apply (Hpanic l s1)|exact H].
    destruct H as (log & -> & Hit). simpl.
    apply (Hstep _ l log s1 l' s' (byte_guard_splits option _ l) HI Hit).
  - intros l s1 HI.
    destruct (String.eqb_spec (Type_ option) "stdout") as [E|E]; simpl.
    + apply post_bind, post_ret. simpl. apply post_ret. now apply (Hstd l).
    + apply post_bind. eapply post_seq; [apply Close_post|].
      intros [ce| |] s2; unfold through; cbv beta iota;
        [intros [Hw H2] | intros [Hw ->] | tauto].
      * eapply post_mono; [apply Println_post|].
        intros o s3 (-> & H3 & _). apply post_ret.
        apply (Hfile l s1 ce s3 E HI Hw). now rewrite H3, H2.
      * now apply (Hnil l).
Qed.

End Runs.

(** ** The files of a run and their names *)

Section Names.

Context {ext : Collaborators}.

Lemma split_names_length (base : string) (k : nat) :
  length (split_names base k) = S k.
Proof. unfold split_names. simpl. now rewrite length_map, length_seq. Qed.

Lemma split_names_succ (base : string) (k : nat) :
  split_names base (S k)
  = (split_names base k ++ [NewSplitFileName base (Z.of_nat (S k))])%list.
Proof.
  unfold split_names. rewrite seq_S, map_app. reflexivity.
Qed.

Lemma names_step (option : Option) (guard : bool) (l : locals) (log : string)
  (s : OS) (l' : locals) (s' : OS) :
  names_inv option l s -> iteration option guard l log s l' s' ->
  names_inv option l' s'.
Proof.
  unfold names_inv, iteration. intros (Hn & Hlen & Hnames) [_ Hit].
  destruct guard.
  - destruct Hit as (we & ce & w & oe & -> & ->). simpl.
    rewrite map_app, Hn, length_app. simpl.
    split; [reflexivity|]. split; [lia|].
    intros Hfit. destruct Hnames as [Hsc Hnm]; [lia|].
    assert (E : Int.add (splitCount l) 1 = Z.of_nat (length (opened (trace s)) + 1)).
    { unfold Int.add. rewrite wrap_in_range; [lia|].
      unfold Int.in_range, Int.min_int, Int.max_int in *. lia. }
    split; [exact E|].
    replace (length (opened (trace s)) + 1 - 1)%nat
      with (S (length (opened (trace s)) - 1)) by lia.
    rewrite split_names_succ, <- Hnm, Hsc. do 3 f_equal. lia.
  - destruct Hit as (we & -> & ->). simpl. auto.
Qed.

(** X8.  The files of a run are opened under the base path and then
    under the names derived from it with 1, 2, 3 and so on, in this order
    (the first derived name carries 1), and a run to a file that returns
    has announced every one of them, in the same order. *)
Theorem files_named_in_order (fuel : nat) (option : Option) (s : OS) :
  trace s = [] ->
  let o := fst (Generate fuel option s) in
  let t := trace (snd (Generate fuel option s)) in
  (Z.of_nat (length (opened t)) <= Int.max_int ->
   opened t = split_names (Output option) (length (opened t) - 1))
  /\ (Type_ option <> "stdout" -> o = Returned None ->
      printed t = map notice (opened t)).
Proof.
  intros Ht0.
  apply (Generate_trace_rule fuel option s
           (fun l s1 => names_inv option l s1)
           (fun o s' =>
              (Z.of_nat (length (opened (trace s'))) <= Int.max_int ->
               opened (trace s')
               = split_names (Output option) (length (opened (trace s')) - 1))
              /\ (Type_ option <> "stdout" -> o = Returned None ->
                  printed (trace s') = map notice (opened (trace s'))))).
  - intros w e s1 Ht. rewrite Ht0 in Ht. destruct e as [e|].
    + rewrite Ht. simpl. split; [reflexivity | discriminate].
    + unfold names_inv. rewrite Ht. simpl. repeat split; lia.
  - intros guard l log s1 l' s' _. apply names_step.
  - intros l s1 s' (_ & _ & Hnames) (_ & log & Ht). cbv beta. rewrite Ht. simpl.
    split; [apply Hnames | discriminate].
  - intros l s1 (_ & _ & Hnames). split; [apply Hnames | discriminate].
  - intros l s1 (_ & _ & Hnames) _. split; [apply Hnames | discriminate].
  - intros l s1 ce s' _ (Hn & _ & Hnames) _ Ht. cbv beta. rewrite Ht. simpl.
    split; [apply Hnames | now intros _ _].
  - intros l s1 Hs (_ & _ & Hnames). split; [apply Hnames | contradiction].
Qed.

Lemma single_step (option : Option) (guard : bool) (l : locals) (log : string)
  (s : OS) (l' : locals) (s' : OS) :
  splits option = false -> (guard = true -> splits option = true) ->
  single_inv option l s -> iteration option guard l log s l' s' ->
  single_inv option l' s'.
Proof.
  intros Hno Hg (Ho & Hp & Hl & Hseg) [_ Hit].
  destruct guard; [rewrite Hg in Hno by reflexivity; discriminate|].
  destruct Hit as (we & -> & Ht). unfold single_inv. rewrite Ht. simpl.
  rewrite Hseg, length_app. simpl. repeat split; trivial. f_equal. lia.
Qed.

Lemma Generate_single (fuel : nat) (option : Option) (s : OS) :
  splits option = false -> trace s = [] ->
  post (Generate fuel option) s
    (fun o s' =>
       opened (trace s') = [Output option]
       /\ (Type_ option <> "stdout" -> o = Returned None ->
           printed (trace s') = [notice (Output option)]
           /\ segments (trace s')
              = ([Z.of_nat (length (written (trace s')))], 0))).
Proof.
  intros Hno Ht0.
  apply Generate_trace_rule with (I := fun l s1 => single_inv option l s1).
  - intros w e s1 Ht. rewrite Ht0 in Ht. destruct e as [e|].
    + rewrite Ht. simpl. split; [reflexivity | discriminate].
    + unfold single_inv. rewrite Ht. simpl. repeat split.
  - intros guard l log s1 l' s'. now apply single_step.
  - intros l s1 s' (Ho & _) (_ & log & Ht). cbv beta. rewrite Ht. simpl.
    split; [exact Ho | discriminate].
  - intros l s1 (Ho & _). split; [exact Ho | discriminate].
  - intros l s1 (Ho & _) _. split; [exact Ho | discriminate].
  - intros l s1 ce s' _ (Ho & Hp & Hl & Hseg) _ Ht. cbv beta. rewrite Ht. simpl.
    rewrite Ho, Hp, Hl, Hseg. simpl. now repeat split.
  - intros l s1 Hs (Ho & _). split; [exact Ho | contradiction].
Qed.

(** X9.  Without a positive threshold nothing is split: a run to a file
    opens the base path and no other, and when it returns that one file
    holds every write, was closed once and announced once. *)
Theorem no_threshold_one_file (fuel : nat) (option : Option) (s : OS) :
  Type_ option <> "stdout" -> SplitBy option <= 0 -> trace s = [] ->
  let o := fst (Generate fuel option s) in
  let t := trace (snd (Generate fuel option s)) in
  opened t = [Output option]
  /\ (o = Returned None ->
      printed t = [notice (Output option)]
      /\ segments t = ([Z.of_nat (length (written t))], 0)).
Proof.
  intros Hty HT Ht0 o t.
  assert (Hno : splits option = false).
  { unfold splits. replace (Z.ltb 0 (SplitBy option)) with false
      by (symmetry; apply Z.ltb_ge; lia).
    apply andb_false_r. }
  destruct (Generate_single fuel option s Hno Ht0) as [H1 H2].
  split; [exact H1 | exact (H2 Hty)].
Qed.

End Names.

(** ** The lines of a run *)

Section Lines.

Context {ext : Collaborators}.

Lemma bind_run {A B : Type} (m : M A) (k : A -> M B) (s : OS) :
  bind m k s
  = match m s with
    | (Returned a, s1) => k a s1
    | (Panicked, s1) => (Panicked, s1)
    | (OutOfFuel, s1) => (OutOfFuel, s1)
    end.
Proof. unfold bind. now destruct (m s) as [[a| |] s1]. Qed.

Lemma keeps_ret {X A : Type} (f : OS -> X) (a : A) : keeps f (ret a).
Proof. now intros s. Qed.

Lemma keeps_bind {X A B : Type} (f : OS -> X) (m : M A) (k : A -> M B) :
  keeps f m -> (forall a, keeps f (k a)) -> keeps f (bind m k).
Proof.
  intros Hm Hk s. rewrite bind_run. specialize (Hm s).
  destruct (m s) as [[a| |] s1]; simpl in *; trivial.
  now rewrite Hk.
Qed.

Lemma Write_lines (w : Writer) (data : string) : keeps lines_of (Write w data).
Proof.
  intros s. unfold Write, bind, emit, modify, ret, panic, lines_of.
  destruct w as [| |fd|fd]; simpl; trivial.
  - unfold Stdout_Write. now destruct (stdout_open s).
  - unfold File_Write. now destruct (fds s !! fd).
  - unfold Gzip_Write. destruct (gzips s !! fd) as [z|]; simpl; trivial.
    now destruct (gz_closed z).
Qed.

Lemma Close_lines (w : Writer) : keeps lines_of (Close w).
Proof.
  intros s. unfold Close, bind, emit, modify, ret, panic, lines_of.
  destruct w as [| |fd|fd]; simpl; trivial.
  - unfold Stdout_Close. now destruct (stdout_open s).
  - unfold File_Close. now destruct (fds s !! fd).
  - unfold Gzip_Close, bind, get_os, modify, ret. simpl.
    destruct (gzips s !! fd) as [z|]; simpl; trivial.
    destruct (gz_closed z); simpl; trivial.
    unfold File_Write. now destruct (fds s !! fd).
Qed.

Lemma Println_lines (a b : string) : keeps lines_of (Println a b).
Proof.
  intros s. unfold Println, bind, emit, modify, ret, Stdout_Write, lines_of.
  now destruct (stdout_open s).
Qed.

Lemma NewWriter_lines (logType name : string) : keeps lines_of (NewWriter logType name).
Proof.
  intros s.
  unfold NewWriter, bind, Create, OpenFile, Gzip_NewWriter, emit, modify, ret, lines_of.
  repeat match goal with
         | |- context [if ?b then _ else _] => destruct b; simpl
         | |- context [match files s !! name with _ => _ end] =>
             destruct (files s !! name); simpl
         end; reflexivity.
Qed.

Lemma rollover_lines (option : Option) (l : locals) : keeps lines_of (rollover option l).
Proof.
  unfold rollover.
  apply keeps_bind; [apply Close_lines|]. intros _.
  apply keeps_bind; [apply Println_lines|]. intros _.
  apply keeps_bind; [apply NewWriter_lines|]. intros r. apply keeps_ret.
Qed.

(** After [NewLog] an iteration neither produces a line nor draws. *)
Lemma line_step_lines (option : Option) (line : Z) (l : locals) (s : OS) :
  lines_of (snd (line_step option line l s))
  = lines_of (snd (NewLog (Format option) (delta l) s)).
Proof.
  unfold line_step. rewrite bind_run.
  destruct (NewLog (Format option) (delta l) s) as [[log| |] s1]; trivial.
  apply (keeps_bind lines_of); [apply Write_lines|]. intros _.
  apply keeps_bind; [|intros l'; apply keeps_ret].
  destruct (line_guard option line l); [apply rollover_lines | apply keeps_ret].
Qed.

Lemma byte_step_lines (option : Option) (bytes : Z) (l : locals) (s : OS) :
  lines_of (snd (byte_step option bytes l s))
  = lines_of (snd (NewLog (Format option) (delta l) s)).
Proof.
  unfold byte_step. rewrite bind_run.
  destruct (NewLog (Format option) (delta l) s) as [[log| |] s1]; trivial.
  apply (keeps_bind lines_of); [apply Write_lines|]. intros _.
  apply keeps_bind; [|intros l'; apply keeps_ret].
  destruct (byte_guard option _ l); [apply rollover_lines | apply keeps_ret].
Qed.

Lemma iteration_delta (option : Option) (guard : bool) (l : locals) (log : string)
  (s : OS) (l' : locals) (s' : OS) :
  iteration option guard l log s l' s' ->
  delta l' = Int.add (delta l) (Int.mul (pacing_millis (Sleep option)) Millisecond)
  /\ written (trace s') = (written (trace s) ++ [terminated log])%list
  /\ produced (trace s') = (produced (trace s) ++ [log])%list.
Proof.
  intros [_ Hit]. destruct guard.
  - destruct Hit as (we & ce & w & oe & -> & ->). now repeat split.
  - destruct Hit as (we & -> & ->). now repeat split.
Qed.

Lemma content_next (option : Option) (first : nat) (l : locals) (s : OS) :
  content_inv option first l s ->
  lines_of (snd (NewLog (Format option) (delta l) s))
  = (map (line_at option first) (seq 0 (S (length (produced (trace s))))),
     match generator (Format option) with
     | Some _ => (first + S (length (produced (trace s))))%nat
     | None => first
     end).
Proof.
  intros (Hp & _ & Hd & Hn). unfold lines_of.
  rewrite NewLog_generator, seq_S, map_app, <- Hp. simpl.
  unfold line_at. rewrite Hd.
  destruct (generator (Format option)) as [gen|]; simpl; rewrite ?Hn;
    f_equal; lia.
Qed.

Lemma content_inv_run (option : Option) (first : nat) (l : locals) (s : OS) :
  content_inv option first l s -> content_run option first s.
Proof.
  intros (Hp & Hw & _). unfold content_run. split; [exact Hp|].
  rewrite Hw, length_map. rewrite Hp at 1. now rewrite map_map.
Qed.

(** The state of a panic: the line was produced and not written. *)
Lemma content_cut (option : Option) (first : nat) (l : locals) (s s' : OS) :
  content_inv option first l s ->
  lines_of s' = lines_of (snd (NewLog (Format option) (delta l) s)) ->
  written (trace s') = written (trace s) ->
  content_run option first s'.
Proof.
  intros HI Hl Hw. rewrite (content_next option first l s HI) in Hl.
  unfold lines_of in Hl. apply pair_equal_spec in Hl as [Hl _].
  destruct HI as (Hp & Hwp & _).
  unfold content_run. cbv zeta. rewrite Hl, Hw, Hwp.
  split; [now rewrite length_map, length_seq|].
  rewrite length_map. rewrite Hp at 1. now rewrite map_map.
Qed.

Lemma content_step (option : Option) (first : nat) (guard : bool) (l : locals)
  (log : string) (s : OS) (l' : locals) (s' : OS) :
  content_inv option first l s ->
  lines_of s' = lines_of (snd (NewLog (Format option) (delta l) s)) ->
  iteration option guard l log s l' s' ->
  content_inv option first l' s'.
Proof.
  intros HI Hl Hit. rewrite (content_next option first l s HI) in Hl.
  unfold lines_of in Hl. apply pair_equal_spec in Hl as [Hl Hdr].
  destruct (iteration_delta _ _ _ _ _ _ _ Hit) as (Hd & Hw & Hp).
  destruct HI as (Hp0 & Hw0 & Hd0 & _).
  assert (Hlen : length (produced (trace s')) = S (length (produced (trace s)))).
  { now rewrite Hl, length_map, length_seq. }
  assert (Hlog : log = line_at option first (length (produced (trace s)))).
  { rewrite Hp, seq_S, map_app, <- Hp0 in Hl. simpl in Hl.
    apply app_inj_tail in Hl. apply Hl. }
  unfold content_inv. rewrite Hlen. repeat split.
  - exact Hl.
  - rewrite Hw, Hw0, Hp, map_app. reflexivity.
  - rewrite Hd, Hd0. reflexivity.
  - exact Hdr.
Qed.

(** X10.  What a run produces and writes is fixed by the format, the
    pacing and the first draw: line [i] is the line of the generator of the
    format at draw [first + i] and at the time offset reached by adding the
    pacing [i] times (the empty line for a format without generator), and
    write [i] is that line with a line terminator.  The type of the output
    and the split threshold have no part in it. *)
Theorem lines_follow_the_generator (fuel : nat) (option : Option) (s : OS) :
  trace s = [] ->
  let t := trace (snd (Generate fuel option s)) in
  produced t = map (line_at option (draws s)) (seq 0 (length (produced t)))
  /\ written t = map (fun i => terminated (line_at option (draws s) i))
                     (seq 0 (length (written t))).
Proof.
  intros Ht0.
  apply (Generate_rule fuel option s (content_inv option (draws s))
           (fun _ s' => content_run option (draws s) s')).
  - eapply post_mono;
      [eapply post_with with (P := fun s' => lines_of s' = lines_of s);
       [apply NewWriter_post | apply NewWriter_lines]|].
    intros o s1 [(w & e & -> & Ht & _) Hl]. rewrite Ht0 in Ht.
    unfold lines_of in Hl. apply pair_equal_spec in Hl as [Hp Hd].
    destruct e as [e|].
    + unfold content_run. rewrite Ht. simpl. now split.
    + unfold content_inv. rewrite Ht, Hd. simpl.
      repeat split. destruct (generator (Format option)); lia.
  - intros _ line l s1 HI.
    eapply post_mono.
    + eapply post_with with (P := fun s' => lines_of s'
                          = lines_of (snd (NewLog (Format option) (delta l) s1)));
        [apply line_step_post | apply line_step_lines].
    + intros [l'| |] s' [H Hl]; [| |exact H].
      * destruct H as [log Hit]. exact (content_step option (draws s) _ l log s1 l' s' HI Hl Hit).
      * destruct H as (_ & log & Ht).
        apply (content_cut option _ l s1); trivial. now rewrite Ht.
  - intros _. split; [|intros l s1; apply content_inv_run].
    intros bytes l s1 HI.
    eapply post_mono.
    + eapply post_with with (P := fun s' => lines_of s'
                          = lines_of (snd (NewLog (Format option) (delta l) s1)));
        [apply byte_step_post | apply byte_step_lines].
    + intros [[b l']| |] s' [H Hl]; [| |exact H].
      * destruct H as (log & _ & Hit). exact (content_step option (draws s) _ l log s1 l' s' HI Hl Hit).
      * destruct H as (_ & log & Ht).
        apply (content_cut option _ l s1); trivial. now rewrite Ht.
  - intros l s1 HI. apply content_inv_run in HI.
    destruct (negb (String.eqb (Type_ option) "stdout")).
    + apply post_bind. eapply post_seq.
      * eapply post_with with (P := fun s' => lines_of s' = lines_of s1);
          [apply Close_post | apply Close_lines].
      * intros [ce| |] s2; unfold through; cbv beta iota;
          [intros [[_ H2] Hl2] | intros [[_ ->] _]; exact HI | intros [[] _]].
        eapply post_mono.
        -- eapply post_with with (P := fun s' => lines_of s' = lines_of s2);
             [apply Println_post | apply Println_lines].
        -- intros o s3 [(-> & H3 & _) Hl3]. apply post_ret.
           unfold content_run in *. rewrite H3, H2. simpl. exact HI.
    + apply post_bind, post_ret. simpl. apply post_ret. exact HI.
Qed.

End Lines.

(** ** The standard output of a run to a file *)

Section Console.

Context {ext : Collaborators}.

Lemma stable_ret {A : Type} (P : OS -> Prop) (a : A) : stable P (ret a).
Proof. now intros s. Qed.

Lemma stable_bind {A B : Type} (P : OS -> Prop) (m : M A) (k : A -> M B) :
  stable P m -> (forall a, stable P (k a)) -> stable P (bind m k).
Proof.
  intros Hm Hk s HP. rewrite bind_run. specialize (Hm s HP).
  destruct (m s) as [[a| |] s1]; simpl in *; trivial.
  now apply Hk.
Qed.

Lemma yields_ret {A : Type} (P : A -> Prop) (a : A) : P a -> yields P (ret a).
Proof. intros HP s a' E. injection E as <-. exact HP. Qed.

Lemma yields_bind {A B : Type} (P : B -> Prop) (m : M A) (k : A -> M B) :
  (forall a, yields P (k a)) -> yields P (bind m k).
Proof.
  intros Hk s b. rewrite bind_run.
  destruct (m s) as [[a| |] s1]; simpl; try discriminate. apply Hk.
Qed.

Lemma NewLog_announced (s0 : OS) (format : string) (d : Z) :
  stable (announced s0) (NewLog format d).
Proof.
  intros s H. rewrite NewLog_generator.
  destruct (generator format); exact H.
Qed.

Lemma Write_announced (s0 : OS) (w : Writer) (data : string) :
  w <> StdoutWriter -> stable (announced s0) (Write w data).
Proof.
  intros Hw s H. unfold Write, bind, emit, modify, ret, panic.
  destruct w as [| |fd|fd]; simpl; trivial.
  - contradiction.
  - unfold File_Write. now destruct (fds s !! fd).
  - unfold Gzip_Write. destruct (gzips s !! fd) as [z|]; simpl; trivial.
    now destruct (gz_closed z).
Qed.

Lemma Close_announced (s0 : OS) (w : Writer) :
  w <> StdoutWriter -> stable (announced s0) (Close w).
Proof.
  intros Hw s H. unfold Close, bind, emit, modify, ret, panic.
  destruct w as [| |fd|fd]; simpl; trivial.
  - contradiction.
  - unfold File_Close. now destruct (fds s !! fd).
  - unfold Gzip_Close, bind, get_os, modify, ret. simpl.
    destruct (gzips s !! fd) as [z|]; simpl; trivial.
    destruct (gz_closed z); simpl; trivial.
    unfold File_Write. now destruct (fds s !! fd).
Qed.

Lemma Println_announced (s0 : OS) (a b : string) :
  stable (announced s0) (Println a b).
Proof.
  intros s [Ho Hc]. unfold announced, Println, bind, emit, modify, ret, Stdout_Write.
  destruct (stdout_open s) eqn:E; simpl; rewrite ?E.
  - split; [exact Ho|]. rewrite <- Ho, Hc, <- Ho, joined_snoc.
    apply append_assoc.
  - split; [exact Ho|]. now rewrite <- Ho in *.
Qed.

Lemma NewWriter_announced (s0 : OS) (logType name : string) :
  stable (announced s0) (NewWriter logType name).
Proof.
  intros s H.
  unfold NewWriter, bind, Create, OpenFile, Gzip_NewWriter, emit, modify, ret.
  repeat match goal with
         | |- context [if ?b then _ else _] => destruct b; simpl
         | |- context [match files s !! name with _ => _ end] =>
             destruct (files s !! name); simpl
         end; exact H.
Qed.

(** Only the type [stdout] gets the standard output as its writer. *)
Lemma NewWriter_kind (logType name : string) :
  logType <> "stdout" ->
  yields (fun r => fst r <> StdoutWriter) (NewWriter logType name).
Proof.
  intros Ht s r.
  unfold NewWriter, bind, Create, OpenFile, Gzip_NewWriter, emit, modify, ret.
  destruct (String.eqb_spec logType "stdout") as [E|_]; [contradiction|].
  repeat match goal with
         | |- context [if ?b then _ else _] => destruct b; simpl
         | |- context [match files s !! name with _ => _ end] =>
             destruct (files s !! name); simpl
         end; intros E; injection E as <-; discriminate.
Qed.

End Console.

(** ** Properties kept by every call of a run *)

Section Frames.

Context {ext : Collaborators}.

Variable option : Option.

(** [K] holds of every writer [NewWriter] yields for the type of the
    run, and [P] is kept by the calls [Generate] makes on such writers. *)
Variable K : Writer -> Prop.
Variable P : OS -> Prop.

Hypothesis NewWriter_K :
  forall name, yields (fun r => K (fst r)) (NewWriter (Type_ option) name).
Hypothesis NewLog_P : forall format d, stable P (NewLog format d).
Hypothesis Write_P : forall w data, K w -> stable P (Write w data).
Hypothesis Close_P : forall w, K w -> stable P (Close w).
Hypothesis Println_P : forall a b, stable P (Println a b).
Hypothesis NewWriter_P : forall name, stable P (NewWriter (Type_ option) name).

Lemma rollover_stable (l : locals) : K (writer l) -> stable P (rollover option l).
Proof.
  intros Hw. unfold rollover.
  apply stable_bind; [now apply Close_P|]. intros _.
  apply stable_bind; [apply Println_P|]. intros _.
  apply stable_bind; [apply NewWriter_P|]. intros r. apply stable_ret.
Qed.

Lemma rollover_writer (l : locals) :
  yields (fun l' => K (writer l')) (rollover option l).
Proof.
  unfold rollover.
  apply yields_bind. intros _. apply yields_bind. intros _.
  intros s l'. rewrite bind_run.
  pose proof (NewWriter_K (NewSplitFileName (Output option) (splitCount l)) s) as Hk.
  destruct (NewWriter _ _ s) as [[r| |] s1]; simpl; try discriminate.
  intros E. injection E as <-. simpl. now apply Hk.
Qed.

Lemma line_step_stable (line : Z) (l : locals) :
  K (writer l) -> stable P (line_step option line l).
Proof.
  intros Hw. unfold line_step.
  apply stable_bind; [apply NewLog_P|]. intros log.
  apply stable_bind; [now apply Write_P|]. intros _.
  apply stable_bind; [|intros l'; apply stable_ret].
  destruct (line_guard option line l); [now apply rollover_stable | apply stable_ret].
Qed.

Lemma byte_step_stable (bytes : Z) (l : locals) :
  K (writer l) -> stable P (byte_step option bytes l).
Proof.
  intros Hw. unfold byte_step.
  apply stable_bind; [apply NewLog_P|]. intros log.
  apply stable_bind; [now apply Write_P|]. intros _.
  apply stable_bind; [|intros l'; apply stable_ret].
  destruct (byte_guard option _ l); [now apply rollover_stable | apply stable_ret].
Qed.

Lemma line_step_writer (line : Z) (l : locals) :
  K (writer l) -> yields (fun l' => K (writer l')) (line_step option line l).
Proof.
  intros Hw. unfold line_step.
  apply yields_bind. intros log. apply yields_bind. intros _.
  destruct (line_guard option line l).
  - intros s l'. rewrite bind_run.
    pose proof (rollover_writer l s) as Hk.
    destruct (rollover option l s) as [[l1| |] s1]; simpl; try discriminate.
    intros E. injection E as <-. simpl. now apply Hk.
  - intros s l'. unfold bind, ret. simpl. intros E. injection E as <-. exact Hw.
Qed.

Lemma byte_step_writer (bytes : Z) (l : locals) :
  K (writer l) -> yields (fun r => K (writer (snd r))) (byte_step option bytes l).
Proof.
  intros Hw. unfold byte_step.
  apply yields_bind. intros log. apply yields_bind. intros _.
  destruct (byte_guard option _ l).
  - intros s r. rewrite bind_run.
    pose proof (rollover_writer l s) as Hk.
    destruct (rollover option l s) as [[l1| |] s1]; simpl; try discriminate.
    intros E. injection E as <-. simpl. now apply Hk.
  - intros s r. unfold bind, ret. simpl. intros E. injection E as <-. exact Hw.
Qed.

(** What every call keeps, the run keeps, whatever its outcome. *)
Lemma Generate_stable (fuel : nat) : stable P (Generate fuel option).
Proof.
  intros s H0.
  apply (Generate_rule fuel option s (fun l s1 => K (writer l) /\ P s1) (fun _ s' => P s')).
  - pose proof (NewWriter_P (Output option) s H0) as Ha.
    pose proof (NewWriter_K (Output option) s) as Hk.
    pose proof (NewWriter_post (Type_ option) (Output option) s) as Hp.
    unfold post in *.
    destruct (NewWriter (Type_ option) (Output option) s) as [o s1]. simpl in *.
    destruct Hp as (w & e & -> & _). destruct e as [e|]; [exact Ha|].
    split; [|exact Ha]. now apply (Hk (w, None)).
  - intros _ line l s1 [Hw Ha].
    pose proof (line_step_stable line l Hw s1 Ha) as Ha'.
    pose proof (line_step_writer line l Hw s1) as Hk.
    pose proof (line_step_post option line l s1) as Hp.
    unfold post in *.
    destruct (line_step option line l s1) as [[l'| |] s2]; simpl in *; trivial.
    split; [now apply Hk | exact Ha'].
  - intros _. split; [|now intros l s1 [_ Ha]].
    intros bytes l s1 [Hw Ha].
    pose proof (byte_step_stable bytes l Hw s1 Ha) as Ha'.
    pose proof (byte_step_writer bytes l Hw s1) as Hk.
    pose proof (byte_step_post option bytes l s1) as Hp.
    unfold post in *.
    destruct (byte_step option bytes l s1) as [[r| |] s2]; simpl in *; trivial.
    split; [now apply Hk | exact Ha'].
  - intros l s1 [Hw Ha].
    match goal with |- post ?m _ _ => assert (Hst : stable P m) end.
    { apply stable_bind; [|intros _; apply stable_ret].
      destruct (negb (String.eqb (Type_ option) "stdout")); [|apply stable_ret].
      apply stable_bind; [now apply Close_P|].
      intros _. apply Println_P. }
    now apply Hst.
Qed.

End Frames.

Section ConsoleRun.

Context {ext : Collaborators}.

(** X11.  A run to a file writes nothing to the standard output but the
    notices of [fmt.Println]: whatever the outcome, the standard output is
    open or closed as before and holds what it held followed by the lines
    printed, in order; no line of the log reaches it. *)
Theorem file_run_console (fuel : nat) (option : Option) (s : OS) :
  Type_ option <> "stdout" -> trace s = [] ->
  let s' := snd (Generate fuel option s) in
  stdout_open s' = stdout_open s
  /\ console s' = if stdout_open s
                  then console s ++ joined (printed (trace s'))
                  else console s.
Proof.
  intros Ht Ht0.
  apply (Generate_stable option (fun w => w <> StdoutWriter) (announced s)).
  - intros name. now apply NewWriter_kind.
  - apply NewLog_announced.
  - apply Write_announced.
  - apply Close_announced.
  - apply Println_announced.
  - intros name. apply NewWriter_announced.
  - split; [reflexivity|]. rewrite Ht0. simpl.
    destruct (stdout_open s); [now rewrite append_empty_r | reflexivity].
Qed.

End ConsoleRun.

(** ** What a run leaves in its file *)

Section Disk.

Context {ext : Collaborators}.

Lemma length_slice_to (n : nat) (s : string) :
  (n <= String.length s)%nat -> String.length (slice_to n s) = n.
Proof.
  unfold slice_to. revert n. induction s as [|c s IH]; intros n Hn; simpl in *.
  - destruct n; [reflexivity | lia].
  - destruct n as [|n]; [reflexivity|]. simpl. rewrite IH; [reflexivity | lia].
Qed.

Lemma no_split_line_guard (option : Option) (line : Z) (l : locals) :
  splits option = false -> line_guard option line l = false.
Proof. unfold line_guard. now intros ->. Qed.

Lemma no_split_byte_guard (option : Option) (bytes : Z) (l : locals) :
  splits option = false -> byte_guard option bytes l = false.
Proof. unfold byte_guard. now intros ->. Qed.

Lemma no_threshold (option : Option) : SplitBy option <= 0 -> splits option = false.
Proof.
  intros H. unfold splits.
  replace (Z.ltb 0 (SplitBy option)) with false by (symmetry; apply Z.ltb_ge; lia).
  apply andb_false_r.
Qed.

Lemma NewLog_appending (option : Option) (s0 : OS) (old : string) (l : locals)
  (format : string) (d : Z) :
  stable (appending option s0 old l) (NewLog format d).
Proof.
  intros s H. rewrite NewLog_generator. destruct (generator format); exact H.
Qed.

Lemma Write_appending (option : Option) (s0 : OS) (old : string) (l : locals)
  (data : string) (s : OS) :
  appending option s0 old l s ->
  post (Write (writer l) data) s
    (fun o s' => (exists r, o = Returned r) /\ appending option s0 old l s').
Proof.
  intros (Hw & [off Hfd] & (W & Hf & Hfree & Hall) & Hoth).
  unfold post. rewrite Hw.
  unfold Write, bind, File_Write, emit, modify, ret. simpl. rewrite Hfd. simpl.
  split; [eauto|]. split; [exact Hw|]. split.
  { eexists. apply lookup_insert_eq. }
  set (n := Nat.min (String.length data) (free_space s)).
  assert (Hn : String.length (slice_to n data) = n).
  { apply length_slice_to. unfold n. lia. }
  split.
  - exists (W ++ slice_to n data). unfold appended. simpl.
    rewrite lookup_insert_eq, Hf. simpl. rewrite append_assoc.
    split; [reflexivity|]. rewrite length_append, Hn.
    split; [lia|].
    rewrite joined_snoc, length_append. intros Hfit.
    rewrite Hall by lia. f_equal.
    assert (E : n = String.length data).
    { unfold n. rewrite Hfree, Hall by lia. lia. }
    rewrite E. apply substring_all.
  - intros name Hne. simpl. rewrite lookup_insert_ne by congruence. now apply Hoth.
Qed.

Lemma appending_plain_step (option : Option) (s0 : OS) (old : string)
  (line : Z) (l : locals) (s : OS) :
  line_guard option line l = false -> appending option s0 old l s ->
  post (line_step option line l) s
    (fun o s' =>
       o = Returned (pace option l) /\ appending option s0 old (pace option l) s').
Proof.
  intros Hno HI. unfold line_step. rewrite Hno.
  eapply post_seq.
  { eapply post_with with (P := appending option s0 old l);
      [apply NewLog_post | now apply NewLog_appending]. }
  intros o s1 [(log & -> & _) H1]. simpl.
  eapply post_seq; [apply Write_appending; exact H1|].
  intros o s2 [[r ->] H2]. simpl.
  apply post_bind, post_ret. simpl. apply post_ret. split; [reflexivity | exact H2].
Qed.

Lemma appending_line_step (option : Option) (s0 : OS) (old : string)
  (line : Z) (l : locals) (s : OS) :
  splits option = false -> appending option s0 old l s ->
  post (line_step option line l) s
    (fun o s' =>
       match o with
       | Returned l' => appending option s0 old l' s'
       | _ => False
       end).
Proof.
  intros Hno HI.
  eapply post_mono;
    [exact (appending_plain_step option s0 old line l s
              (no_split_line_guard _ _ _ Hno) HI)|].
  now intros o s' [-> H].
Qed.

Lemma appending_byte_step (option : Option) (s0 : OS) (old : string)
  (bytes : Z) (l : locals) (s : OS) :
  splits option = false -> appending option s0 old l s ->
  post (byte_step option bytes l) s
    (fun o s' =>
       match o with
       | Returned r => appending option s0 old (snd r) s'
       | _ => False
       end).
Proof.
  intros Hno HI. unfold byte_step.
  eapply post_seq.
  { eapply post_with with (P := appending option s0 old l);
      [apply NewLog_post | now apply NewLog_appending]. }
  intros o s1 [(log & -> & _) H1]. simpl.
  eapply post_seq; [apply Write_appending; exact H1|].
  intros o s2 [[r ->] H2]. simpl.
  rewrite (no_split_byte_guard _ _ _ Hno).
  apply post_bind, post_ret. simpl. apply post_ret. exact H2.
Qed.

Lemma NewWriter_appending (option : Option) (s : OS) (old : string) :
  Type_ option = "log" -> files s !! Output option = Some old ->
  Output option ∉ denied s -> trace s = [] ->
  post (NewWriter (Type_ option) (Output option)) s
    (fun o s1 =>
       exists w, o = Returned (w, None)
                 /\ appending option s old (start option w) s1).
Proof.
  intros Ht Hf Hd Ht0. unfold post. rewrite Ht.
  unfold NewWriter, bind, OpenFile, emit, modify, ret. simpl.
  destruct (decide (Output option ∈ denied s)); [contradiction|].
  rewrite Hf. simpl. eexists. split; [reflexivity|].
  split; [reflexivity|]. split.
  { eexists. simpl. apply lookup_insert_eq. }
  split; [|now intros name _].
  exists "". simpl. rewrite append_empty_r, Ht0. simpl.
  repeat split; trivial. lia.
Qed.

Lemma appending_close (option : Option) (s0 : OS) (old : string) (l : locals) (s : OS) :
  appending option s0 old l s ->
  post (_ <- Close (writer l) ;; Println (logFileName l) "is created.") s
    (fun o s' =>
       o = Returned tt /\ appended option s0 old s' /\ fds s' !! next_fd s0 = None).
Proof.
  intros (Hw & [off Hfd] & Happ). unfold post. rewrite Hw.
  unfold Close, Println, bind, File_Close, Stdout_Write, emit, modify, ret. simpl.
  rewrite Hfd. simpl.
  destruct (stdout_open s); simpl;
    (split; [reflexivity|]; split; [exact Happ | apply lookup_delete_eq]).
Qed.

Lemma Close_appending (option : Option) (s0 : OS) (old : string) (l : locals) (s : OS) :
  appending option s0 old l s ->
  post (Close (writer l)) s
    (fun o s' => (exists r, o = Returned r) /\ appended option s0 old s').
Proof.
  intros (Hw & [off Hfd] & Happ). unfold post. rewrite Hw.
  unfold Close, File_Close, bind, emit, modify, ret. simpl. rewrite Hfd. simpl.
  split; [eauto | exact Happ].
Qed.

Lemma Println_appended (option : Option) (s0 : OS) (old : string) (a b : string) :
  stable (appended option s0 old) (Println a b).
Proof.
  intros s H. unfold Println, bind, emit, modify, ret, Stdout_Write.
  destruct (stdout_open s); exact H.
Qed.

(** [NewWriter] of the [log] type on a path that is not on the disk
    yields the nil writer, with [ENOENT] or [EACCES]. *)
Lemma NewWriter_log_missing (name : string) (s : OS) :
  files s !! name = None ->
  exists e, fst (NewWriter "log" name s) = Returned (NilWriter, Some e).
Proof.
  intros Hf. unfold NewWriter, bind, OpenFile, emit, modify, ret. simpl.
  destruct (decide (name ∈ denied s)); simpl; [eauto|].
  rewrite Hf. simpl. eauto.
Qed.

(** The iteration that rolls over to a file that is not on the disk. *)
Lemma appending_rolling_step (option : Option) (s0 : OS) (old : string)
  (line : Z) (l : locals) (s : OS) :
  Type_ option = "log" -> line_guard option line l = true ->
  files s0 !! NewSplitFileName (Output option) (splitCount l) = None ->
  appending option s0 old l s ->
  post (line_step option line l) s
    (fun o s' => exists l', o = Returned l' /\ writer l' = NilWriter).
Proof.
  intros Ht Hg Hmiss HI. unfold line_step. rewrite Hg.
  eapply post_seq.
  { eapply post_with with (P := appending option s0 old l);
      [apply NewLog_post | now apply NewLog_appending]. }
  intros o s1 [(log & -> & _) H1]. simpl.
  eapply post_seq; [apply Write_appending; exact H1|].
  intros o s2 [[r ->] H2]. simpl.
  apply post_bind. unfold rollover.
  eapply post_seq; [apply Close_appending; exact H2|].
  intros o s3 [[ce ->] H3]. simpl.
  eapply post_seq.
  { eapply post_with with (P := appended option s0 old);
      [apply Println_post | now apply Println_appended]. }
  intros o s4 [(-> & _) [_ Hoth]]. simpl.
  rewrite Ht.
  destruct (NewWriter_log_missing
              (NewSplitFileName (Output option) (splitCount l)) s4) as [e He].
  { rewrite Hoth; [exact Hmiss | apply NewSplitFileName_fresh]. }
  apply post_bind. unfold post.
  destruct (NewWriter "log" _ s4) as [o s5]. simpl in He. subst o. simpl.
  unfold post, through, ret. simpl. unfold post. simpl. eauto.
Qed.

(** A run of the [log] type that splits every [T] lines, of more than
    [T + 2] lines, when the first derived file is not on the disk: lines 0
    to [T + 1] are written, the rollover after line [T + 1] gets the nil
    writer, and the write of line [T + 2] panics. *)
Lemma log_split_run (fuel : nat) (option : Option) (s : OS) (old : string) :
  Type_ option = "log" -> Bytes option = 0 ->
  0 < SplitBy option <= Int.max_int -> SplitBy option + 2 < Number option ->
  files s !! Output option = Some old -> Output option ∉ denied s ->
  files s !! NewSplitFileName (Output option) 1 = None ->
  trace s = [] ->
  fst (Generate fuel option s) = Panicked
  /\ Z.of_nat (length (written (trace (snd (Generate fuel option s)))))
     = SplitBy option + 2.
Proof.
  intros Ht HB HT HN Hf Hd Hmiss Ht0.
  assert (Hty : Type_ option <> "stdout") by (rewrite Ht; discriminate).
  assert (Hguard : forall line l,
             splitCount l = 1 ->
             line_guard option line l = Z.ltb (SplitBy option + 1) (line + 1)).
  { intros line l Hsc.
    rewrite line_guard_rule by (rewrite ?Hsc; first [exact Hty | lia]).
    now rewrite Hsc, Z.mul_1_r. }
  set (I := fun line l s1 =>
              doomed option s old line l s1
              /\ Z.of_nat (length (written (trace s1))) = line).
  set (P := fun (line : Z) s' =>
              Z.of_nat (length (written (trace s'))) = SplitBy option + 2).
  assert (Hstep : forall line l s1,
             0 <= line < 0 + Z.of_nat (Z.to_nat (Number option)) ->
             I line l s1 ->
             post (line_step option line l) s1
               (fun o s' =>
                  match o with
                  | Returned l' => I (line + 1) l' s'
                  | Panicked => P line s'
                  | OutOfFuel => False
                  end)).
  { intros line l s1 Hline [Hdoom Hcount].
    pose proof (line_step_post option line l s1) as Hp.
    assert (Hstate : post (line_step option line l) s1
                       (fun o s' =>
                          match o with
                          | Returned l' => doomed option s old (line + 1) l' s'
                          | Panicked => line = SplitBy option + 2
                          | OutOfFuel => False
                          end)).
    { destruct Hdoom as [(Hl & Hsc & HI)|[Hl Hw]].
      - destruct (Z.ltb_spec (SplitBy option + 1) (line + 1)) as [Hroll|Hplain].
        + eapply post_mono.
          * apply (appending_rolling_step option s old line l s1 Ht); trivial.
            -- rewrite Hguard by exact Hsc. apply Z.ltb_lt. lia.
            -- now rewrite Hsc.
          * intros o s' (l' & -> & Hw). right. split; [lia | exact Hw].
        + eapply post_mono.
          * apply (appending_plain_step option s old line l s1); trivial.
            rewrite Hguard by exact Hsc. apply Z.ltb_ge. lia.
          * intros o s' [-> HI']. left.
            split; [lia | split; [exact Hsc | exact HI']].
      - pose proof (line_step_nil option line l s1 Hw) as Hnil. unfold post.
        destruct (line_step option line l s1) as [o s']. simpl in *.
        subst o. exact Hl. }
    unfold post in *.
    destruct (line_step option line l s1) as [[l'| |] s']; simpl in *.
    - destruct Hp as [log Hit]. split; [exact Hstate|].
      destruct (iteration_delta _ _ _ _ _ _ _ Hit) as (_ & Hw & _).
      rewrite Hw, length_app. simpl. lia.
    - destruct Hp as (_ & log & Hlog). unfold P. rewrite Hlog. simpl. lia.
    - exact Hp. }
  unfold Generate. rewrite bind_run.
  pose proof (NewWriter_appending option s old Ht Hf Hd Ht0) as H0.
  pose proof (NewWriter_post (Type_ option) (Output option) s) as Hn.
  unfold post in H0, Hn.
  destruct (NewWriter (Type_ option) (Output option) s) as [o s1].
  simpl in H0, Hn. destruct H0 as (w & -> & HI).
  destruct Hn as (w' & e' & _ & Ht1 & _). rewrite Ht0 in Ht1.
  simpl. rewrite HB. simpl. fold (start option w).
  rewrite bind_run.
  assert (H1 : I 0 (start option w) s1).
  { split; [|now rewrite Ht1].
    left. split; [lia | split; [reflexivity | exact HI]]. }
  pose proof (line_loop_post option I P
                (Z.to_nat (Number option)) 0 (start option w) s1 Hstep H1) as Hloop.
  unfold post in Hloop.
  destruct (line_loop option (Z.to_nat (Number option)) 0 (start option w) s1)
    as [[l'| |] s2]; simpl in Hloop.
  - exfalso. rewrite Z2Nat.id in Hloop by lia.
    destruct Hloop as [[[Hl _]|[Hl _]] _]; lia.
  - destruct Hloop as (line & _ & Hcount). split; [reflexivity | exact Hcount].
  - contradiction.
Qed.

(** X12.  The [log] type cannot split.  In line-count mode with a
    threshold of [T] lines and more than [T + 2] lines to write, when the
    first derived file is not already on the disk, the rollover gets the nil
    writer from [NewWriter], whose error it drops, and the run panics at
    the next write. *)
Theorem log_split_run_panics (fuel : nat) (option : Option) (s : OS) (old : string) :
  Type_ option = "log" -> Bytes option = 0 ->
  0 < SplitBy option <= Int.max_int -> SplitBy option + 2 < Number option ->
  files s !! Output option = Some old -> Output option ∉ denied s ->
  files s !! NewSplitFileName (Output option) 1 = None ->
  trace s = [] ->
  fst (Generate fuel option s) = Panicked.
Proof.
  intros Ht HB HT HN Hf Hd Hmiss Ht0.
  exact (proj1 (log_split_run fuel option s old Ht HB HT HN Hf Hd Hmiss Ht0)).
Qed.

(** X13.  A run of the [log] type without a positive threshold, on a
    file that exists, appends: it does not panic, in line-count mode it
    returns nil, the file keeps what it held and gains what the disk took
    of the writes (every write, in order, when they fit the free space), no
    other file changes, and the descriptor is closed when the run
    returns. *)
Theorem log_run_appends (fuel : nat) (option : Option) (s : OS) (old : string) :
  Type_ option = "log" -> SplitBy option <= 0 ->
  files s !! Output option = Some old -> Output option ∉ denied s ->
  trace s = [] ->
  let o := fst (Generate fuel option s) in
  let s' := snd (Generate fuel option s) in
  o <> Panicked
  /\ (Bytes option = 0 -> o = Returned None)
  /\ (exists W,
        files s' !! Output option = Some (old ++ W)
        /\ ((String.length (joined (written (trace s'))) <= free_space s)%nat ->
            W = joined (written (trace s'))))
  /\ (forall name, name <> Output option -> files s' !! name = files s !! name)
  /\ (o = Returned None -> fds s' !! next_fd s = None).
Proof.
  intros Ht HT Hf Hd Ht0 o s'.
  assert (Hno : splits option = false) by now apply no_threshold.
  assert (H : post (Generate fuel option) s (append_run option s old)).
  { apply (Generate_rule fuel option s (appending option s old)).
    - eapply post_mono; [exact (NewWriter_appending option s old Ht Hf Hd Ht0)|].
      intros o1 s1 (w & -> & HI). exact HI.
    - intros _ line l s1 HI.
      eapply post_mono; [exact (appending_line_step option s old line l s1 Hno HI)|].
      now intros [l'| |] s2.
    - intros HB. split.
      + intros bytes l s1 HI.
        eapply post_mono; [exact (appending_byte_step option s old bytes l s1 Hno HI)|].
        now intros [r| |] s2.
      + intros l s1 (_ & _ & HI). unfold append_run.
        repeat split; try discriminate; try apply HI. contradiction.
    - intros l s1 HI. rewrite Ht. simpl.
      eapply post_seq; [exact (appending_close option s old l s1 HI)|].
      intros o1 s2 (-> & Happ & Hfd). simpl. apply post_ret.
      unfold append_run. repeat split; try discriminate; try apply Happ. trivial. }
  unfold post, append_run in H. fold o s' in H.
  destruct H as (H1 & H2 & ((W & HW & _ & Hall) & Hoth) & H3).
  repeat split; trivial. exists W. now split.
Qed.

Lemma NewLog_buffering (option : Option) (s0 : OS) (l : locals)
  (format : string) (d : Z) :
  stable (buffering option s0 l) (NewLog format d).
Proof.
  intros s H. rewrite NewLog_generator. destruct (generator format); exact H.
Qed.

Lemma Write_buffering (option : Option) (s0 : OS) (l : locals) (data : string) (s : OS) :
  buffering option s0 l s ->
  post (Write (writer l) data) s
    (fun o s' => (exists r, o = Returned r) /\ buffering option s0 l s').
Proof.
  intros (Hw & Hz & Hfd & Hf & Hfree & Hoth).
  unfold post. rewrite Hw.
  unfold Write, bind, Gzip_Write, emit, modify, ret. simpl. rewrite Hz. simpl.
  split; [eauto|]. unfold buffering. simpl.
  rewrite lookup_insert_eq, joined_snoc. now repeat split.
Qed.

Lemma buffering_line_step (option : Option) (s0 : OS) (line : Z) (l : locals) (s : OS) :
  splits option = false -> buffering option s0 l s ->
  post (line_step option line l) s
    (fun o s' =>
       match o with
       | Returned l' => buffering option s0 l' s'
       | _ => False
       end).
Proof.
  intros Hno HI. unfold line_step. rewrite (no_split_line_guard _ _ _ Hno).
  eapply post_seq.
  { eapply post_with with (P := buffering option s0 l);
      [apply NewLog_post | now apply NewLog_buffering]. }
  intros o s1 [(log & -> & _) H1]. simpl.
  eapply post_seq; [apply Write_buffering; exact H1|].
  intros o s2 [[r ->] H2]. simpl.
  apply post_bind, post_ret. simpl. apply post_ret. exact H2.
Qed.

Lemma buffering_byte_step (option : Option) (s0 : OS) (bytes : Z) (l : locals) (s : OS) :
  splits option = false -> buffering option s0 l s ->
  post (byte_step option bytes l) s
    (fun o s' =>
       match o with
       | Returned r => buffering option s0 (snd r) s'
       | _ => False
       end).
Proof.
  intros Hno HI. unfold byte_step.
  eapply post_seq.
  { eapply post_with with (P := buffering option s0 l);
      [apply NewLog_post | now apply NewLog_buffering]. }
  intros o s1 [(log & -> & _) H1]. simpl.
  eapply post_seq; [apply Write_buffering; exact H1|].
  intros o s2 [[r ->] H2]. simpl.
  rewrite (no_split_byte_guard _ _ _ Hno).
  apply post_bind, post_ret. simpl. apply post_ret. exact H2.
Qed.

Lemma NewWriter_buffering (option : Option) (s : OS) :
  Type_ option = "gz" -> Output option ∉ denied s -> trace s = [] ->
  post (NewWriter (Type_ option) (Output option)) s
    (fun o s1 =>
       exists w, o = Returned (w, None) /\ buffering option s (start option w) s1).
Proof.
  intros Ht Hd Ht0. unfold post. rewrite Ht.
  unfold NewWriter, bind, Create, OpenFile, Gzip_NewWriter, emit, modify, ret. simpl.
  destruct (decide (Output option ∈ denied s)); [contradiction|].
  destruct (files s !! Output option) eqn:E; simpl;
    (eexists; split; [reflexivity|]); unfold buffering; simpl;
    rewrite !lookup_insert_eq, Ht0; simpl; repeat split;
    intros name Hne; apply lookup_insert_ne; congruence.
Qed.

(** A file written from its start on an empty content holds the data. *)
Lemma write_at_start (name data : string) :
  write_at {| fd_path := name; fd_append := false; fd_offset := 0 |} "" data = data.
Proof.
  unfold write_at, slice_to, slice_from. simpl.
  destruct (String.length data); simpl; str_simpl; apply append_empty_r.
Qed.

Lemma buffering_close (option : Option) (s0 : OS) (l : locals) (s : OS) :
  buffering option s0 l s ->
  post (_ <- Close (writer l) ;; Println (logFileName l) "is created.") s
    (fun o s' =>
       o = Returned tt
       /\ ((String.length (gzip_encode (joined (written (trace s')))) <= free_space s0)%nat ->
           files s' !! Output option = Some (gzip_encode (joined (written (trace s')))))
       /\ (forall name, name <> Output option -> files s' !! name = files s0 !! name)).
Proof.
  intros (Hw & Hz & Hfd & Hf & Hfree & Hoth). unfold post. rewrite Hw.
  unfold Close, Println, Gzip_Close, File_Write, Stdout_Write, bind, get_os,
    emit, modify, ret. simpl.
  rewrite Hz. simpl. rewrite Hfd. simpl.
  assert (Hfile : forall enc,
             (String.length enc <= free_space s0)%nat ->
             write_at {| fd_path := Output option; fd_append := false; fd_offset := 0 |}
               (default "" (files s !! Output option))
               (slice_to (Nat.min (String.length enc) (free_space s)) enc) = enc).
  { intros enc Hfit. rewrite Hf, Hfree, Nat.min_l by exact Hfit. simpl.
    unfold slice_to at 1. rewrite substring_all. apply write_at_start. }
  destruct (stdout_open s); simpl;
    (split; [reflexivity|]; split;
     [intros Hfit; rewrite lookup_insert_eq; f_equal; now apply Hfile
     |intros name Hne; rewrite lookup_insert_ne by congruence; now apply Hoth]).
Qed.

(** X14.  A run of the [gz] type without a positive threshold, on a path
    that can be written: it does not panic, in line-count mode it returns
    nil, and when it returns and the encoding fits the free space the file
    holds the gzip encoding of all the writes, in order, whatever it held
    before; no other file changes. *)
Theorem gz_run_holds_the_encoding (fuel : nat) (option : Option) (s : OS) :
  Type_ option = "gz" -> SplitBy option <= 0 ->
  Output option ∉ denied s -> trace s = [] ->
  let o := fst (Generate fuel option s) in
  let s' := snd (Generate fuel option s) in
  let encoding := gzip_encode (joined (written (trace s'))) in
  o <> Panicked
  /\ (Bytes option = 0 -> o = Returned None)
  /\ (o = Returned None -> (String.length encoding <= free_space s)%nat ->
      files s' !! Output option = Some encoding)
  /\ (forall name, name <> Output option -> files s' !! name = files s !! name).
Proof.
  intros Ht HT Hd Ht0.
  assert (Hno : splits option = false) by now apply no_threshold.
  apply (Generate_rule fuel option s (buffering option s) (compress_run option s)).
  - eapply post_mono; [exact (NewWriter_buffering option s Ht Hd Ht0)|].
    intros o1 s1 (w & -> & HI). exact HI.
  - intros _ line l s1 HI.
    eapply post_mono; [exact (buffering_line_step option s line l s1 Hno HI)|].
    now intros [l'| |] s2.
  - intros HB. split.
    + intros bytes l s1 HI.
      eapply post_mono; [exact (buffering_byte_step option s bytes l s1 Hno HI)|].
      now intros [r| |] s2.
    + intros l s1 (_ & _ & _ & _ & _ & Hoth). unfold compress_run.
      repeat split; try discriminate; trivial. contradiction.
  - intros l s1 HI. rewrite Ht. simpl.
    eapply post_seq; [exact (buffering_close option s l s1 HI)|].
    intros o1 s2 (-> & Henc & Hoth). simpl. apply post_ret.
    unfold compress_run. repeat split; try discriminate; trivial.
Qed.

End Disk.

(** ** The line count of a run *)

Section LineCount.

Context {ext : Collaborators}.

Lemma stdout_event_opened (t : list event) :
  forallb stdout_event t = true -> existsb open_failed t = false.
Proof.
  induction t as [|e t IH]; simpl; [reflexivity|].
  intros H. apply andb_prop in H as [He Ht]. rewrite (IH Ht), orb_false_r.
  destruct e as [log|ty name [| | |] [e|]|w data err|w err|line];
    try discriminate; reflexivity.
Qed.

(** A run that returns nil had a writer from every [NewWriter] call. *)
Lemma returned_every_open (fuel : nat) (option : Option) (s : OS) :
  trace s = [] ->
  fst (Generate fuel option s) = Returned None ->
  existsb open_failed (trace (snd (Generate fuel option s))) = false.
Proof.
  intros Ht0.
  destruct (String.eqb_spec (Type_ option) "stdout") as [Hs|Hs].
  { pose proof (Generate_stdout_run fuel option s Hs) as H.
    unfold post, stdout_run in H.
    destruct H as (_ & _ & _ & evs & Ht & Hev & _).
    intros _. rewrite Ht, Ht0, app_nil_r. now apply stdout_event_opened. }
  apply Generate_trace_rule
    with (I := fun l s1 => existsb open_failed (trace s1) = true -> writer l = NilWriter).
  - intros w e s1 Ht. rewrite Ht0 in Ht. destruct e as [e|]; [discriminate|].
    rewrite Ht. simpl. destruct w; simpl; try discriminate. reflexivity.
  - intros guard l log s1 l' s' _ HI [Hw Hit].
    assert (Hnone : existsb open_failed (trace s1) = false).
    { destruct (existsb open_failed (trace s1)); [|reflexivity].
      now specialize (HI eq_refl). }
    destruct guard.
    + destruct Hit as (we & ce & w & oe & -> & ->). simpl. rewrite Hnone.
      destruct w; simpl; try discriminate. reflexivity.
    + destruct Hit as (we & -> & ->). simpl. now rewrite Hnone.
  - discriminate.
  - discriminate.
  - discriminate.
  - intros l s1 ce s' _ HI Hw Ht _. rewrite Ht. simpl.
    destruct (existsb open_failed (trace s1)); [|reflexivity].
    now specialize (HI eq_refl).
  - intros l s1 Hs'. contradiction.
Qed.

(** C2.  With [targetBytes = 0] and [targetLines = L >= 0], a run writes
    the lines it produces, each followed by one line terminator, and never
    more than [L] of them; it writes exactly [L] when it returns nil, which
    it does exactly when every [NewWriter] call yields a writer: always on
    the standard output, and for the compressed-file kind on a machine that
    denies no path; it writes none when [L = 0].  It does not always write
    [L] lines: the rollover drops the error of [NewWriter], and on the
    [log] type, whose [NewWriter] creates no file, a run that splits every
    [T] lines panics after [T + 2] of its more than [T + 2] lines when the
    first derived file is not on the disk. *)
Theorem line_mode_lines (fuel : nat) (option : Option) (s : OS) :
  Bytes option = 0 -> 0 <= Number option -> trace s = [] ->
  let o := fst (Generate fuel option s) in
  let t := trace (snd (Generate fuel option s)) in
  written t = map terminated (firstn (length (written t)) (produced t))
  /\ Z.of_nat (length (written t)) <= Number option
  /\ (o = Returned None -> Z.of_nat (length (written t)) = Number option)
  /\ (existsb open_failed t = false <-> o = Returned None)
  /\ (Type_ option = "stdout" -> o = Returned None)
  /\ (Type_ option = "gz" -> denied s = ∅ -> o = Returned None)
  /\ (Number option = 0 -> written t = [])
  /\ (Type_ option = "log" ->
      0 < SplitBy option <= Int.max_int -> SplitBy option + 2 < Number option ->
      (exists old, files s !! Output option = Some old) ->
      Output option ∉ denied s ->
      files s !! NewSplitFileName (Output option) 1 = None ->
      o = Panicked /\ Z.of_nat (length (written t)) = SplitBy option + 2).
Proof.
  intros HB HL Ht0 o t.
  pose proof (Generate_line_run fuel option s HB HL Ht0) as H.
  unfold post, line_run in H. fold o t in H.
  destruct H as (H1 & H2 & H3 & H4 & H5).
  split; [exact H1|]. split; [exact H2|]. split; [exact H3|].
  split; [split; [exact H4 | now apply returned_every_open]|].
  split; [exact H5|].
  split; [intros Hgz Hd; now apply Generate_gz_returns|].
  split.
  - intros H0. rewrite H0 in H2.
    destruct (written t); [reflexivity | simpl in H2; lia].
  - intros Ht HT HN [old Hf] Hd Hmiss.
    exact (log_split_run fuel option s old Ht HB HT HN Hf Hd Hmiss Ht0).
Qed.

End LineCount.

(** ** Targets the checks reject *)

Section Rejected.

Context {ext : Collaborators}.

Lemma Generate_empty (fuel : nat) (option : Option) (s : OS) :
  (Bytes option = 0 -> Number option <= 0) -> Bytes option <= 0 ->
  post (Generate fuel option) s
    (fun _ s' => exists evs, trace s' = (evs ++ trace s)%list
                             /\ produced evs = [] /\ written evs = []).
Proof.
  intros HN HB. unfold Generate.
  eapply post_seq; [apply NewWriter_post|].
  intros o s1 (w & err & -> & Ht1 & _). simpl.
  destruct err as [e|].
  { apply post_ret. eexists [_]. rewrite Ht1. now repeat split. }
  assert (Hloop : post (if Z.eqb (Bytes option) 0
                        then line_loop option (Z.to_nat (Number option)) 0
                               (start option w)
                        else r <- byte_loop option fuel 0 (start option w) ;; ret (snd r))
                    s1 (fun o s' => (exists l', o = Returned l') /\ s' = s1)).
  { destruct (Z.eqb_spec (Bytes option) 0) as [E|E].
    - replace (Z.to_nat (Number option)) with 0%nat by (specialize (HN E); lia).
      simpl. apply post_ret. eauto.
    - apply post_bind.
      assert (Hb : byte_loop option fuel 0 (start option w) = ret (0, start option w)).
      { destruct fuel; simpl;
          now replace (Z.ltb 0 (Bytes option)) with false
            by (symmetry; apply Z.ltb_ge; lia). }
      rewrite Hb. apply post_ret. simpl. apply post_ret. eauto. }
  fold (start option w).
  eapply post_seq; [exact Hloop|].
  intros o s2 [[l' ->] ->]. simpl.
  destruct (negb (String.eqb (Type_ option) "stdout")).
  - apply post_bind. eapply post_seq; [apply Close_post|].
    intros [ce| |] s3; unfold through; cbv beta iota;
      [intros [_ H3] | intros [_ ->] | tauto].
    + eapply post_mono; [apply Println_post|].
      intros o s4 (-> & H4 & _). apply post_ret.
      eexists [_; _; _]. rewrite H4, H3, Ht1. now repeat split.
    + eexists [_]. rewrite Ht1. now repeat split.
  - apply post_bind, post_ret. simpl. apply post_ret.
    eexists [_]. rewrite Ht1. now repeat split.
Qed.

Lemma ParseNumber_rejects (n : Z) : snd (ParseNumber n) <> None <-> n < 0.
Proof.
  unfold ParseNumber. destruct (Z.ltb_spec n 0); simpl; split;
    try lia; try discriminate; congruence.
Qed.

Lemma ParseBytes_rejects (n : Z) : snd (ParseBytes n) <> None <-> n < 0.
Proof.
  unfold ParseBytes. destruct (Z.ltb_spec n 0); simpl; split;
    try lia; try discriminate; congruence.
Qed.

Lemma ParseSplitBy_rejects (n : Z) : snd (ParseSplitBy n) <> None <-> n < 0.
Proof.
  unfold ParseSplitBy. destruct (Z.ltb_spec n 0); simpl; split;
    try lia; try discriminate; congruence.
Qed.

(** X16.  [Generate] is safe on the numbers the checks reject.  With a
    line target [ParseNumber] rejects, or a byte target [ParseBytes]
    rejects, the run produces and writes no line; with a threshold
    [ParseSplitBy] rejects it does not split. *)
Theorem rejected_numbers_are_harmless (fuel : nat) (option : Option) (s : OS) :
  trace s = [] ->
  let t := trace (snd (Generate fuel option s)) in
  ((Bytes option = 0 /\ snd (ParseNumber (Number option)) <> None)
   \/ snd (ParseBytes (Bytes option)) <> None ->
   produced t = [] /\ written t = [])
  /\ (snd (ParseSplitBy (SplitBy option)) <> None -> opened t = [Output option]).
Proof.
  intros Ht0 t. split.
  - intros H.
    destruct (Generate_empty fuel option s) as (evs & Ht & Hp & Hw).
    + intros HB. destruct H as [[_ H]|H].
      * apply ParseNumber_rejects in H. lia.
      * apply ParseBytes_rejects in H. lia.
    + destruct H as [[HB _]|H]; [lia|]. apply ParseBytes_rejects in H. lia.
    + unfold t. rewrite Ht, Ht0, app_nil_r. now split.
  - intros H. apply ParseSplitBy_rejects in H.
    apply Generate_single; [|exact Ht0].
    apply no_threshold. lia.
Qed.

End Rejected.

(** * The further properties on a concrete machine *)

(** C2 at four lines split every line to a plain file that exists: the
    options pass every check, the second file is not on the disk, and the
    run panics after three lines, where the claim has four. *)
Lemma line_mode_lines_witness :
  let option := Demo.options "apache_combined" "log" 4 0 1 in
  let s := Demo.with_file "generated.log" "" (Demo.boot 1000) in
  let r := Generate 0 option s in
  Bytes option = 0 /\ 0 <= Number option /\ trace s = []
  /\ parses option = true
  /\ fst r = Panicked
  /\ Z.of_nat (length (written (trace (snd r)))) = 3
  /\ ~ claimed_line_count option s.
Proof.
  intros option s r.
  assert (H1 : Bytes option = 0) by reflexivity.
  assert (H2 : 0 <= Number option) by (vm_compute; discriminate).
  assert (H3 : trace s = []) by reflexivity.
  assert (H4 : parses option = true) by reflexivity.
  repeat (split; [assumption|]).
  destruct (line_mode_lines 0 option s H1 H2 H3) as (_ & _ & _ & _ & _ & _ & _ & E).
  destruct E as [E1 E2].
  - reflexivity.
  - vm_compute. split; [reflexivity | discriminate].
  - reflexivity.
  - exists "". vm_compute. reflexivity.
  - apply not_elem_of_empty.
  - vm_compute. reflexivity.
  - split; [exact E1|]. split; [exact E2|].
    unfold claimed_line_count. intros H. rewrite E2 in H. vm_compute in H.
    discriminate H.
Defined.

(** Three lines of ten bytes for a target of 25: the run was at 20 before
    its last line and stops at 30. *)
Lemma byte_mode_overshoot_witness :
  let option := Demo.options "apache_common" "stdout" 7 25 0 in
  let r := Generate 25 option (Demo.boot 1000) in
  let ps := produced (trace (snd r)) in
  0 < Bytes option /\ trace (Demo.boot 1000) = [] /\ fst r = Returned None
  /\ accumulated (List.removelast ps) < Bytes option <= accumulated ps
  /\ accumulated ps = 30.
Proof.
  intros option r ps.
  assert (H1 : 0 < Bytes option) by reflexivity.
  assert (H2 : trace (Demo.boot 1000) = []) by reflexivity.
  assert (H3 : fst r = Returned None) by (vm_compute; reflexivity).
  repeat (split; [assumption|]).
  destruct (byte_mode_overshoot 25 option (Demo.boot 1000) H1 H2 H3) as (_ & E & _).
  split; [exact E|]. vm_compute. reflexivity.
Defined.

(** A format that is not one of the four, a target of five bytes: after
    three iterations the run is still in its loop. *)
Lemma unchecked_format_never_returns_witness :
  let option := Demo.options "nope" "stdout" 0 5 0 in
  Type_ option = "stdout" /\ 0 < Bytes option
  /\ snd (ParseFormat (Format option)) <> None
  /\ fst (Generate 3 option (Demo.boot 1000)) = OutOfFuel.
Proof.
  intros option.
  assert (H1 : Type_ option = "stdout") by reflexivity.
  assert (H2 : 0 < Bytes option) by reflexivity.
  assert (H3 : snd (ParseFormat (Format option)) <> None) by (vm_compute; discriminate).
  repeat (split; [assumption|]).
  exact (proj1 (unchecked_format_never_returns 3 option (Demo.boot 1000) H1 H2 H3)).
Defined.

(** Seven lines split every two, compressed: three files, named and
    announced in order. *)
Lemma files_named_in_order_witness :
  let option := Demo.options "apache_combined" "gz" 7 0 2 in
  let t := trace (snd (Generate 0 option (Demo.boot 1000))) in
  trace (Demo.boot 1000) = []
  /\ opened t = split_names "generated.log" 2
  /\ printed t = map notice (opened t)
  /\ split_names "generated.log" 2
     = ["generated.log"; "generated1.log"; "generated2.log"].
Proof.
  intros option t.
  assert (H1 : trace (Demo.boot 1000) = []) by reflexivity.
  split; [exact H1|].
  destruct (files_named_in_order 0 option (Demo.boot 1000) H1) as [E1 E2].
  split; [|split].
  - apply E1. vm_compute. discriminate.
  - apply E2; [discriminate | vm_compute; reflexivity].
  - vm_compute. reflexivity.
Defined.

(** Three lines, compressed, no threshold: one file of three lines. *)
Lemma no_threshold_one_file_witness :
  let option := Demo.options "apache_combined" "gz" 3 0 0 in
  let t := trace (snd (Generate 0 option (Demo.boot 1000))) in
  Type_ option <> "stdout" /\ SplitBy option <= 0 /\ trace (Demo.boot 1000) = []
  /\ opened t = ["generated.log"]
  /\ printed t = [notice "generated.log"]
  /\ segments t = ([Z.of_nat (length (written t))], 0).
Proof.
  intros option t.
  assert (H1 : Type_ option <> "stdout") by discriminate.
  assert (H2 : SplitBy option <= 0) by (vm_compute; discriminate).
  assert (H3 : trace (Demo.boot 1000) = []) by reflexivity.
  repeat (split; [assumption|]).
  destruct (no_threshold_one_file 0 option (Demo.boot 1000) H1 H2 H3) as [E1 E2].
  split; [exact E1|]. apply E2. vm_compute. reflexivity.
Defined.

(** Three lines of the format whose line is the letter of its draw. *)
Lemma lines_follow_the_generator_witness :
  let option := Demo.options "apache_combined" "stdout" 3 0 0 in
  let t := trace (snd (Generate 0 option (Demo.boot 1000))) in
  trace (Demo.boot 1000) = []
  /\ produced t = map (line_at option 0) (seq 0 (length (produced t)))
  /\ map (line_at option 0) (seq 0 3) = ["a"; "b"; "c"].
Proof.
  intros option t.
  assert (H1 : trace (Demo.boot 1000) = []) by reflexivity.
  split; [exact H1|].
  split; [exact (proj1 (lines_follow_the_generator 0 option (Demo.boot 1000) H1))|].
  vm_compute. reflexivity.
Defined.

(** Three lines, compressed: the terminal shows the notice and nothing
    else. *)
Lemma file_run_console_witness :
  let option := Demo.options "apache_combined" "gz" 3 0 0 in
  let s' := snd (Generate 0 option (Demo.boot 1000)) in
  Type_ option <> "stdout" /\ trace (Demo.boot 1000) = []
  /\ console s' = "" ++ joined (printed (trace s'))
  /\ joined (printed (trace s')) = notice "generated.log".
Proof.
  intros option s'.
  assert (H1 : Type_ option <> "stdout") by discriminate.
  assert (H2 : trace (Demo.boot 1000) = []) by reflexivity.
  repeat (split; [assumption|]).
  split; [exact (proj2 (file_run_console 0 option (Demo.boot 1000) H1 H2))|].
  vm_compute. reflexivity.
Defined.

(** Three lines appended to a file that holds [old]. *)
Lemma log_run_appends_witness :
  let option := Demo.options "apache_combined" "log" 3 0 0 in
  let s := Demo.with_file "generated.log" "old" (Demo.boot 1000) in
  let s' := snd (Generate 0 option s) in
  Type_ option = "log" /\ SplitBy option <= 0
  /\ files s !! Output option = Some "old" /\ (Output option ∉ denied s)
  /\ trace s = []
  /\ fst (Generate 0 option s) = Returned None
  /\ files s' !! "generated.log" = Some ("old" ++ joined (written (trace s')))
  /\ fds s' !! 3%nat = None.
Proof.
  intros option s s'.
  assert (H1 : Type_ option = "log") by reflexivity.
  assert (H2 : SplitBy option <= 0) by (vm_compute; discriminate).
  assert (H3 : files s !! Output option = Some "old") by (vm_compute; reflexivity).
  assert (H4 : Output option ∉ denied s) by apply not_elem_of_empty.
  assert (H5 : trace s = []) by reflexivity.
  repeat (split; [assumption|]).
  destruct (log_run_appends 0 option s "old" H1 H2 H3 H4 H5)
    as (_ & E1 & (W & E2 & E3) & _ & E4).
  assert (E : fst (Generate 0 option s) = Returned None) by (apply E1; reflexivity).
  split; [exact E|]. split; [|exact (E4 E)].
  transitivity (Some ("old" ++ W)); [exact E2|].
  do 2 f_equal. apply E3. vm_compute. lia.
Defined.

(** Three lines, compressed, over a file that held something else. *)
Lemma gz_run_holds_the_encoding_witness :
  let option := Demo.options "apache_combined" "gz" 3 0 0 in
  let s := Demo.with_file "generated.log" "old" (Demo.boot 1000) in
  let s' := snd (Generate 0 option s) in
  Type_ option = "gz" /\ SplitBy option <= 0 /\ (Output option ∉ denied s)
  /\ trace s = []
  /\ files s' !! "generated.log"
     = Some (gzip_encode (Collaborators := Demo.collaborators) (joined (written (trace s'))))
  /\ gzip_encode (Collaborators := Demo.collaborators) (joined (written (trace s')))
     = "GZ[" ++ terminated "a" ++ terminated "b" ++ terminated "c" ++ "]".
Proof.
  intros option s s'.
  assert (H1 : Type_ option = "gz") by reflexivity.
  assert (H2 : SplitBy option <= 0) by (vm_compute; discriminate).
  assert (H3 : Output option ∉ denied s) by apply not_elem_of_empty.
  assert (H4 : trace s = []) by reflexivity.
  repeat (split; [assumption|]).
  destruct (gz_run_holds_the_encoding 0 option s H1 H2 H3 H4) as (_ & E1 & E2 & _).
  split; [|vm_compute; reflexivity].
  apply E2; [apply E1; reflexivity | vm_compute; lia].
Defined.

(** Ten lines split every two to a plain file: the second file is not on
    the disk and the run panics. *)
Lemma log_split_run_panics_witness :
  let option := Demo.options "apache_combined" "log" 10 0 2 in
  let s := Demo.with_file "generated.log" "" (Demo.boot 1000) in
  Type_ option = "log" /\ Bytes option = 0
  /\ 0 < SplitBy option <= Int.max_int /\ SplitBy option + 2 < Number option
  /\ files s !! Output option = Some "" /\ (Output option ∉ denied s)
  /\ files s !! NewSplitFileName (Output option) 1 = None
  /\ trace s = []
  /\ fst (Generate 0 option s) = Panicked.
Proof.
  intros option s.
  assert (H1 : Type_ option = "log") by reflexivity.
  assert (H2 : Bytes option = 0) by reflexivity.
  assert (H3 : 0 < SplitBy option <= Int.max_int) by (vm_compute; split; [reflexivity | discriminate]).
  assert (H4 : SplitBy option + 2 < Number option) by reflexivity.
  assert (H5 : files s !! Output option = Some "") by (vm_compute; reflexivity).
  assert (H6 : Output option ∉ denied s) by apply not_elem_of_empty.
  assert (H7 : files s !! NewSplitFileName (Output option) 1 = None)
    by (vm_compute; reflexivity).
  assert (H8 : trace s = []) by reflexivity.
  repeat (split; [assumption|]).
  exact (log_split_run_panics 0 option s "" H1 H2 H3 H4 H5 H6 H7 H8).
Defined.

(** A line target of -4 and a threshold of -1: no line, one file. *)
Lemma rejected_numbers_are_harmless_witness :
  let option := Demo.options "apache_common" "gz" (-4) 0 (-1) in
  let t := trace (snd (Generate 0 option (Demo.boot 1000))) in
  trace (Demo.boot 1000) = []
  /\ snd (ParseNumber (Number option)) <> None
  /\ snd (ParseSplitBy (SplitBy option)) <> None
  /\ produced t = [] /\ written t = [] /\ opened t = ["generated.log"].
Proof.
  intros option t.
  assert (H1 : trace (Demo.boot 1000) = []) by reflexivity.
  assert (H2 : snd (ParseNumber (Number option)) <> None) by (vm_compute; discriminate).
  assert (H3 : snd (ParseSplitBy (SplitBy option)) <> None) by (vm_compute; discriminate).
  repeat (split; [assumption|]).
  destruct (rejected_numbers_are_harmless 0 option (Demo.boot 1000) H1) as [E1 E2].
  destruct E1 as [E1 E1']; [left; split; [reflexivity | exact H2]|].
  split; [exact E1|]. split; [exact E1'|]. exact (E2 H3).
Defined.
